(** * Open-DCAs-v2: the data-shaping core of [src/api/jupiter.ts]

    A shallow embedding of the position converter ([convertDCAAccount]), the
    summary aggregator ([calculateSummaryFromRawAccounts]), the retry helper
    ([withRetry]), the lookups ([getCurrentPrice], [getDCATransactions],
    [getRecentTransactionForAccount], [parseTransactionAmounts]), the poll
    ([getDCAAccounts]) and the dashboard's [fetchData] and
    [createChartData], followed by the properties checked against them.

    Conventions of the embedding:
    - a JS [number] is an IEEE-754 binary64 value: Rocq's primitive [float];
    - a [BN] (bn.js big integer) is a [Z];
    - a [PublicKey] is its base58 string;
    - code that can throw returns a [result];
    - every throwing call made while building a log record is kept, in
      source order; what [console.log] is given is kept for
      [convertDCAAccount] ([Async.convertDCAAccount]), where it shows what
      was computed before an error, and left out elsewhere;
    - the network (SDK client, price API, RPC endpoint) and the clock are
      read from an explicit [World]. *)

From Stdlib Require Import ZArith Floats Uint63 Lia Bool.
From stdpp Require Import gmap strings list pretty.

Open Scope Z_scope.

(** ** JS numbers *)

Module JS.

Abbreviation number := float.

(** An integer as a [number]; exact for [|z| < 2^53], the only use made of it. *)
Definition number_of_Z (z : Z) : number :=
  if (z <? 0)%Z then PrimFloat.opp (of_uint63 (Uint63.of_Z (- z)))
  else of_uint63 (Uint63.of_Z z).

(** [Math.pow(10, 6)] *)
Definition pow10_6 : number := 1000000%float.

(** [Math.floor]: a finite value [(-1)^s * m * 2^e] with [e < 0] lies
    strictly within [2^53] of zero, so its floor is an exact [number];
    every other value is already integral (or is NaN, an infinity, a zero)
    and is returned unchanged. *)
Definition Math_floor (x : number) : number :=
  match Prim2SF x with
  | S754_finite s m e =>
      if (0 <=? e)%Z then x
      else
        let z := Z.shiftr (cond_Zopp s (Zpos m)) (- e) in
        if (z =? 0)%Z then PrimFloat.zero else number_of_Z z
  | _ => x
  end.

(** [Math.ceil]; [Math.ceil(-0.5)] is [-0]. *)
Definition Math_ceil (x : number) : number :=
  (- Math_floor (- x))%float.

(** [Math.round]: [floor(x + 1/2)] computed exactly, ties towards
    [+Infinity]; a result of zero keeps the sign of [x]. *)
Definition Math_round (x : number) : number :=
  match Prim2SF x with
  | S754_finite s m e =>
      if (0 <=? e)%Z then x
      else
        let z := Z.shiftr (2 * cond_Zopp s (Zpos m) + Z.shiftl 1 (- e)) (1 - e) in
        if (z =? 0)%Z then (if s then PrimFloat.neg_zero else PrimFloat.zero)
        else number_of_Z z
  | _ => x
  end.

(** The [%] operator on numbers: the exact remainder of the truncated
    division, with the sign of the dividend. *)
Definition rem (x y : number) : number :=
  match Prim2SF x, Prim2SF y with
  | S754_nan, _ | _, S754_nan => PrimFloat.nan
  | S754_infinity _, _ => PrimFloat.nan
  | _, S754_zero _ => PrimFloat.nan
  | S754_zero _, _ => x
  | S754_finite _ _ _, S754_infinity _ => x
  | S754_finite sx mx ex, S754_finite _ my ey =>
      let e := Z.min ex ey in
      let r := Z.modulo (Z.shiftl (Zpos mx) (ex - e)) (Z.shiftl (Zpos my) (ey - e)) in
      match r with
      | Z0 => if sx then PrimFloat.neg_zero else PrimFloat.zero
      | _ => SF2Prim (binary_normalize prec emax (cond_Zopp sx r) e false)
      end
  end.

(** [x > 0] *)
Definition gt0 (x : number) : bool := (PrimFloat.zero <? x)%float.

(** [x >= 0] *)
Definition ge0 (x : number) : bool := (PrimFloat.zero <=? x)%float.

(** Truthiness of a number: [0], [-0] and [NaN] are falsy. *)
Definition truthy (x : number) : bool :=
  negb (PrimFloat.is_nan x || PrimFloat.is_zero x).

(** [x || d] on numbers *)
Definition or_else (x d : number) : number := if truthy x then x else d.

(** [Number.isFinite]: neither NaN nor an infinity. *)
Definition finite (x : number) : bool :=
  match Prim2SF x with
  | S754_nan | S754_infinity _ => false
  | _ => true
  end.

(** Values that can be thrown. [JsUndefined] is what [throw lastError]
    throws when [lastError] was never assigned. *)
Inductive thrown :=
| JsError (message : string)
| JsUndefined.

End JS.

Export JS(number).

(** ** Results of code that can throw *)

Inductive result (A : Type) :=
| Ok (a : A)
| Throw (e : JS.thrown).
Arguments Ok {A} a.
Arguments Throw {A} e.

#[global] Instance result_ret : MRet result := fun A a => Ok a.
#[global] Instance result_bind : MBind result := fun A B f m =>
  match m with
  | Ok a => f a
  | Throw e => Throw e
  end.

Definition is_ok {A} (r : result A) : bool :=
  match r with Ok _ => true | Throw _ => false end.

(** ** bn.js *)

Module BN.

(** [toNumber] asserts that the magnitude fits 53 bits. *)
Definition toNumber (z : Z) : result number :=
  if (Z.abs z <? 2 ^ 53)%Z then Ok (JS.number_of_Z z)
  else Throw (JS.JsError "Number can only safely store up to 53 bits").

(** [a.mod(b)]: [divmod] asserts a non-zero divisor; the remainder has the
    sign of the dividend. *)
Definition mod_ (a b : Z) : result Z :=
  if (b =? 0)%Z then Throw (JS.JsError "Assertion failed")
  else Ok (Z.rem a b).

(** [a.div(b)], truncating, with the same assertion. *)
Definition div (a b : Z) : result Z :=
  if (b =? 0)%Z then Throw (JS.JsError "Assertion failed")
  else Ok (Z.quot a b).

End BN.

(** ** Data model *)

Definition LOGOS_MINT : string := "HJUfqXoYjC653f2p33i84zdCC3jc4EuVnbruSe5kpump".
Definition CHAOS_MINT : string := "8SgNwESovnbG1oNEaPVhg6CR9mTMSK7jPvcYRe3wpump".

(** [DCAAccountType]: the account as the SDK returns it. *)
Module Account.
Record t := {
  publicKey : string;
  user : string;
  inputMint : string;
  outputMint : string;
  idx : Z;
  nextCycleAt : Z;
  inDeposited : Z;
  inWithdrawn : Z;
  outWithdrawn : Z;
  inUsed : Z;
  inAmountPerCycle : Z;
  cycleFrequency : Z;
  bump : Z;
  minOutAmount : option Z;
  maxOutAmount : option Z
}.
End Account.

Inductive OrderType := BUY | SELL.

(** [number | "No limit"] *)
Inductive PriceLimit :=
| Limit (p : number)
| NoLimit.

Module CycleProgress.
Record t := {
  total : number;
  used : number;
  remaining : number;
  percentComplete : number
}.
End CycleProgress.

(** [Position] of [types/dca] with the fields [jupiter.ts] adds; an
    optional field that is [undefined] is [None]. *)
Module Position.
Record t := {
  id : string;
  token : string;
  type : OrderType;
  inputToken : string;
  outputToken : string;
  inputAmount : number;
  totalAmount : number;
  amountPerCycle : number;
  remainingCycles : number;
  cycleFrequency : number;
  lastUpdate : number;
  publicKey : string;
  targetPrice : number;
  currentPrice : number;
  priceToken : string;
  estimatedOutput : option number;
  totalCycles : number;
  completedCycles : number;
  isActive : bool;
  executionPrice : number;
  maxPrice : option PriceLimit;
  minPrice : option number;
  remainingAmount : number;
  estimatedTokens : number;
  remainingInCycle : number;
  cycleProgress : option CycleProgress.t
}.
End Position.

Module TokenSummary.
Record t := {
  buyOrders : nat;
  sellOrders : nat;
  buyVolume : number;
  sellVolume : number;
  buyVolumeUSDC : number;
  sellVolumeUSDC : number;
  price : number
}.
End TokenSummary.

Module ChartDataPoint.
Record t := {
  timestamp : Z;
  buyVolume : number;
  sellVolume : number;
  buyOrders : nat;
  sellOrders : nat
}.
End ChartDataPoint.

(** What [parseTransactionAmounts] extracts from the most recent
    transaction of an account ([null] is [None]). *)
Module TxAmounts.
Record t := {
  chaosReceived : number;
  usdcPaid : number
}.
End TxAmounts.

(** ** The position converter *)

Section Converter.

Local Open Scope float_scope.
Import Account.

(** [isOrderActive] *)
Definition isOrderActive (account : Account.t) : bool :=
  negb (inUsed account =? inDeposited account)%Z.

(** The cycle arithmetic of [convertDCAAccount], on the three amounts
    already converted with [toNumber]. *)
Record Cycles := {
  c_totalCycles : number;
  c_completedFullCycles : number;
  c_currentCycleUsed : number;
  c_remainingCycles : number
}.

Definition cycles (deposited used perCycle : number) : Cycles :=
  let totalCycles := JS.Math_ceil (deposited / perCycle) in
  let completedFullCycles := JS.Math_floor (used / perCycle) in
  let currentCycleUsed := JS.rem used perCycle / perCycle in
  {| c_totalCycles := totalCycles;
     c_completedFullCycles := completedFullCycles;
     c_currentCycleUsed := currentCycleUsed;
     c_remainingCycles := totalCycles - completedFullCycles - currentCycleUsed |}.

(** What [convertDCAAccount] computes on the account: every call of bn.js
    and the Position returned, given [amounts], the most recent
    transaction of the account as [parseTransactionAmounts] read it. The
    function as a whole, with the lookups it awaits and what it logs, is
    [Async.convertDCAAccount] below; [convertDCAAccount_result] relates
    the two. *)
Definition convertDCAAccount (account : Account.t) (price : number)
    (token : string) (type : OrderType) (amounts : option TxAmounts.t)
  : result Position.t :=
  (* the log records built first *)
  used ← BN.toNumber (inUsed account);
  perCycle ← BN.toNumber (inAmountPerCycle account);
  deposited ← BN.toNumber (inDeposited account);
  total ← BN.toNumber (inDeposited account - inWithdrawn account)%Z;
  frequency ← BN.toNumber (cycleFrequency account);
  nextCycle ← BN.toNumber (nextCycleAt account);
  (* remaining cycles and completion status *)
  let c := cycles deposited used perCycle in
  let totalCycles := c_totalCycles c in
  let completedFullCycles := c_completedFullCycles c in
  let currentCycleUsed := c_currentCycleUsed c in
  let remainingCycles := c_remainingCycles c in
  (* execution price from the used amounts, the current price as fallback *)
  executionPrice ←
    (if JS.gt0 used
     then out ← BN.toNumber (outWithdrawn account); mret (out / used)
     else mret price);
  let remainingValue := remainingCycles * (perCycle / JS.pow10_6) in
  maxPrice ←
    match type with
    | BUY =>
        match maxOutAmount account with
        | Some maxOut =>
            m ← BN.toNumber maxOut;
            mret (Some (Limit ((perCycle / JS.pow10_6) / (m / JS.pow10_6))))
        | None => mret (Some NoLimit)
        end
    | SELL => mret None
    end;
  minPrice ←
    match type with
    | SELL =>
        match minOutAmount account with
        | Some minOut =>
            m ← BN.toNumber minOut;
            mret (Some ((m / JS.pow10_6) / (perCycle / JS.pow10_6)))
        | None => mret None
        end
    | BUY => mret None
    end;
  (* remaining in cycle, with bn.js *)
  usedInCurrentCycle ← BN.mod_ (inUsed account) (inAmountPerCycle account);
  remainingInCycleRaw ← BN.toNumber (inAmountPerCycle account - usedInCurrentCycle)%Z;
  let remainingInCycle := remainingInCycleRaw / JS.pow10_6 in
  division ← BN.div (inUsed account) (inAmountPerCycle account);
  _ ← BN.toNumber division;
  _ ← BN.toNumber (outWithdrawn account);
  (* cycle progress from the most recent transaction *)
  let cycleAmount := perCycle / JS.pow10_6 in
  let cycleUsed :=
    match amounts with
    | Some a => JS.or_else (TxAmounts.usdcPaid a) 0
    | None => 0
    end in
  estimatedTokens ←
    match type with
    | BUY =>
        match maxPrice with
        | Some (Limit p) => mret (remainingValue / p)
        | _ => mret (remainingValue / price)
        end
    | SELL =>
        match minOutAmount account with
        | Some minOut =>
            m ← BN.toNumber minOut; mret (remainingValue * (m / JS.pow10_6))
        | None => mret (remainingValue * price)
        end
    end;
  mret {|
    Position.id := publicKey account;
    Position.token := token;
    Position.type := type;
    Position.inputToken := match type with BUY => "USDC" | SELL => token end;
    Position.outputToken := match type with BUY => token | SELL => "USDC" end;
    Position.inputAmount := perCycle / JS.pow10_6;
    Position.totalAmount := total / JS.pow10_6;
    Position.amountPerCycle := perCycle / JS.pow10_6;
    Position.remainingCycles := frequency;
    Position.cycleFrequency := frequency;
    Position.lastUpdate := nextCycle * 1000;
    Position.publicKey := publicKey account;
    Position.targetPrice := executionPrice;
    Position.currentPrice := price;
    Position.priceToken := "USDC";
    Position.estimatedOutput :=
      match type with
      | SELL => Some ((perCycle / JS.pow10_6) * executionPrice)
      | BUY => None
      end;
    Position.totalCycles := totalCycles;
    Position.completedCycles := completedFullCycles + currentCycleUsed;
    Position.isActive := JS.gt0 remainingCycles && isOrderActive account;
    Position.executionPrice := executionPrice / JS.pow10_6;
    Position.maxPrice := maxPrice;
    Position.minPrice := minPrice;
    Position.remainingAmount := remainingCycles * (perCycle / JS.pow10_6);
    Position.estimatedTokens := estimatedTokens;
    Position.remainingInCycle := remainingInCycle;
    Position.cycleProgress :=
      Some {| CycleProgress.total := cycleAmount;
              CycleProgress.used := cycleUsed;
              CycleProgress.remaining := cycleAmount - cycleUsed;
              CycleProgress.percentComplete := (cycleUsed / cycleAmount) * 100 |}
  |}.

End Converter.

(** ** The summary aggregator *)

(** An object with one entry per tracked token, as the code spells it out:
    [{ LOGOS: ..., CHAOS: ... }]. *)
Module ByToken.
Record t (A : Type) := { LOGOS : A; CHAOS : A }.
Arguments LOGOS {A} _.
Arguments CHAOS {A} _.
End ByToken.

Module Orders.
Record t := { buys : list Account.t; sells : list Account.t }.
End Orders.

(** [Array.prototype.reduce] with a callback that can throw. *)
Fixpoint reduce {A B : Type} (f : B -> A -> result B) (l : list A) (init : B)
  : result B :=
  match l with
  | [] => Ok init
  | a :: l' => b ← f init a; reduce f l' b
  end.

Section Aggregator.

Local Open Scope float_scope.
Import Account.

(** Remaining whole cycles times the amount per cycle, in USDC: the body
    shared by the [buyVolume] and [buyVolumeUSDC] callbacks. *)
Definition remainingUSDC (acc : Account.t) : result number :=
  deposited ← BN.toNumber (inDeposited acc);
  perCycle ← BN.toNumber (inAmountPerCycle acc);
  used ← BN.toNumber (inUsed acc);
  let totalCycles := JS.Math_ceil (deposited / perCycle) in
  let completedCycles := JS.Math_floor (used / perCycle) in
  let remainingCycles := totalCycles - completedCycles in
  mret (remainingCycles * (perCycle / JS.pow10_6)).

(** [inDeposited.sub(inWithdrawn).toNumber() / Math.pow(10, 6)] *)
Definition sellAmount (acc : Account.t) : result number :=
  raw ← BN.toNumber (inDeposited acc - inWithdrawn acc)%Z;
  mret (raw / JS.pow10_6).

Definition buyVolume_of (buys : list Account.t) (price : number) : result number :=
  total ← reduce (fun sum acc => r ← remainingUSDC acc; mret (sum + r / price))
                 (List.filter isOrderActive buys) 0;
  mret (JS.Math_round total).

Definition sellVolume_of (sells : list Account.t) : result number :=
  reduce (fun sum acc => v ← sellAmount acc; mret (sum + v))
         (List.filter isOrderActive sells) 0.

Definition buyVolumeUSDC_of (buys : list Account.t) : result number :=
  total ← reduce (fun sum acc => r ← remainingUSDC acc; mret (sum + r))
                 (List.filter isOrderActive buys) 0;
  mret (JS.Math_round total).

Definition sellVolumeUSDC_of (sells : list Account.t) (price : number) : result number :=
  total ← reduce (fun sum acc => v ← sellAmount acc; mret (sum + v * price))
                 (List.filter isOrderActive sells) 0;
  mret (JS.Math_round total).

(** One entry of the [summary] object. The source writes this block out
    twice, for LOGOS and for CHAOS, identical up to the token. *)
Definition summarize (orders : Orders.t) (price : number) : result TokenSummary.t :=
  let buyOrders := length (List.filter isOrderActive (Orders.buys orders)) in
  let sellOrders := length (List.filter isOrderActive (Orders.sells orders)) in
  buyVolume ← buyVolume_of (Orders.buys orders) price;
  sellVolume ← sellVolume_of (Orders.sells orders);
  buyVolumeUSDC ← buyVolumeUSDC_of (Orders.buys orders);
  sellVolumeUSDC ← sellVolumeUSDC_of (Orders.sells orders) price;
  mret {| TokenSummary.buyOrders := buyOrders;
          TokenSummary.sellOrders := sellOrders;
          TokenSummary.buyVolume := buyVolume;
          TokenSummary.sellVolume := sellVolume;
          TokenSummary.buyVolumeUSDC := buyVolumeUSDC;
          TokenSummary.sellVolumeUSDC := sellVolumeUSDC;
          TokenSummary.price := price |}.

(** [calculateSummaryFromRawAccounts]. [logosSellVolumeUSDC] and the total
    logged after it run over every LOGOS sell, active or not; their values
    are only logged. *)
Definition calculateSummaryFromRawAccounts
    (accountsByToken : ByToken.t Orders.t) (prices : ByToken.t number)
  : result (gmap string TokenSummary.t) :=
  let logosSells := Orders.sells (ByToken.LOGOS accountsByToken) in
  logosSellVolumeUSDC ←
    (total ← reduce (fun sum acc => volume ← sellAmount acc;
                                    mret (sum + volume * ByToken.LOGOS prices))
                    logosSells 0;
     mret (JS.Math_round total));
  totalSellVolume ← reduce (fun sum acc => v ← sellAmount acc; mret (sum + v))
                           logosSells 0;
  logos ← summarize (ByToken.LOGOS accountsByToken) (ByToken.LOGOS prices);
  chaos ← summarize (ByToken.CHAOS accountsByToken) (ByToken.CHAOS prices);
  mret (<["LOGOS" := logos]> (<["CHAOS" := chaos]> ∅)).

End Aggregator.

(** ** Retry *)

Section Retry.

Context {S T : Type}.

(** [await new Promise(resolve => setTimeout(resolve, ms))] *)
Variable sleep : Z -> S -> S.

(** [operation]: an effectful computation that returns or throws. *)
Variable operation : S -> result T * S.

(** The [for] loop of [withRetry], by the number of iterations left;
    [i] is the loop counter. *)
Fixpoint withRetry_loop (left : nat) (i : Z) (lastError : JS.thrown) (s : S)
  : result T * S :=
  match left with
  | O => (Throw lastError, s)
  | Datatypes.S left' =>
      match operation s with
      | (Ok v, s') => (Ok v, s')
      | (Throw error, s') =>
          withRetry_loop left' (i + 1) error (sleep (1000 * (i + 1)) s')
      end
  end.

Definition withRetry (maxRetries : nat) (s : S) : result T * S :=
  withRetry_loop maxRetries 0 JS.JsUndefined s.

End Retry.

(** [maxRetries = 3] *)
Definition default_maxRetries : nat := 3.

(** [Array.prototype.map] with a callback that can throw; also
    [Promise.all] over conversions that can throw, in list order. *)
Fixpoint mapM {A B : Type} (f : A -> result B) (l : list A) : result (list B) :=
  match l with
  | [] => Ok []
  | a :: l' => b ← f a; bs ← mapM f l'; mret (b :: bs)
  end.

(** ** Parsed JSON

    What [response.json()] resolves to. An object is the list of its
    entries, and the entry read for a key is the first one with that key.
    [undefined], which reading a missing property gives, is [None]. The
    keys the code reads are fixed names and the two mints: none is an
    array index, ["length"] or the name of an inherited property, so that
    reading one from anything but an object gives [undefined]. *)
Module Json.

#[local] Unset Elimination Schemes.
Inductive t :=
| Null
| Bool (b : bool)
| Num (x : number)
| Str (s : string)
| Arr (items : list t)
| Obj (entries : list (string * t)).
#[local] Set Elimination Schemes.

(** A JSON value or [undefined]. *)
Definition value := option t.

Fixpoint field (key : string) (entries : list (string * t)) : value :=
  match entries with
  | [] => None
  | (k, v) :: rest => if String.eqb k key then Some v else field key rest
  end.

Definition cannot_read (what key : string) : JS.thrown :=
  JS.JsError ("Cannot read properties of " ++ what ++ " (reading '" ++ key ++ "')").

(** [v.key]: a [TypeError] on [undefined] and on [null]. *)
Definition get (v : value) (key : string) : result value :=
  match v with
  | None => Throw (cannot_read "undefined" key)
  | Some Null => Throw (cannot_read "null" key)
  | Some (Obj entries) => Ok (field key entries)
  | Some _ => Ok None
  end.

(** [v?.key] *)
Definition get_opt (v : value) (key : string) : value :=
  match v with
  | Some (Obj entries) => field key entries
  | _ => None
  end.

(** [v?.[0]]: the first item of an array, the first character of a
    string. *)
Definition first (v : value) : value :=
  match v with
  | Some (Arr items) => head items
  | Some (Str (String c _)) => Some (Str (String c ""))
  | Some (Obj entries) => field "0" entries
  | _ => None
  end.

(** Truthiness: [undefined], [null], [false], [0], [-0], [NaN] and [""]
    are falsy. *)
Definition truthy (v : value) : bool :=
  match v with
  | None | Some Null | Some (Bool false) | Some (Str "") => false
  | Some (Num x) => JS.truthy x
  | _ => true
  end.

(** [v || d] *)
Definition or_else (v : value) (d : t) : t :=
  match v with
  | Some j => if truthy v then j else d
  | None => d
  end.

(** [v === s] for a string [s] *)
Definition is_string (v : value) (s : string) : bool :=
  match v with
  | Some (Str s') => String.eqb s' s
  | _ => false
  end.

End Json.

(** [Math.max(...values)]: [-Infinity] of no value, [NaN] as soon as one
    value is [NaN], and [+0] above [-0]. *)
Fixpoint Math_max_from (highest : number) (values : list number) : number :=
  match values with
  | [] => highest
  | x :: rest =>
      match Prim2SF x, Prim2SF highest with
      | S754_nan, _ => PrimFloat.nan
      | S754_zero false, S754_zero true => Math_max_from x rest
      | _, _ => if (highest <? x)%float then Math_max_from x rest
                else Math_max_from highest rest
      end
  end.

Definition Math_max (values : list number) : number :=
  Math_max_from PrimFloat.neg_infinity values.

(** [Array.prototype.filter] and [find] with a callback that can throw. *)
Fixpoint filterM {A : Type} (f : A -> result bool) (l : list A) : result (list A) :=
  match l with
  | [] => Ok []
  | a :: l' =>
      keep ← f a; rest ← filterM f l';
      mret (if keep : bool then a :: rest else rest)
  end.

Fixpoint findM {A : Type} (f : A -> result bool) (l : list A) : result (option A) :=
  match l with
  | [] => Ok None
  | a :: l' => found ← f a; if found : bool then Ok (Some a) else findM f l'
  end.

(** ** The price API and the transaction lookup *)

(** [{ price, mint }] *)
Module Quote.
Record t := { price : number; mint : string }.
End Quote.

Section Responses.

Local Open Scope float_scope.

(** [Number(s)] on a string, and [Number(o)] on an array or an object
    (which goes through [toString] and [valueOf], and can throw). *)
Variable StringToNumber : string -> number.
Variable ObjectToNumber : Json.t -> result number.

(** [Number(v)] *)
Definition Number (v : Json.value) : result number :=
  match v with
  | None => Ok PrimFloat.nan
  | Some Json.Null => Ok 0
  | Some (Json.Bool b) => Ok (if b then 1 else 0)
  | Some (Json.Num x) => Ok x
  | Some (Json.Str s) => Ok (StringToNumber s)
  | Some o => ObjectToNumber o
  end.

(** [getCurrentPrice]. [api mint] is what fetching the price of [mint]
    and reading the body as JSON gives. *)
Definition getCurrentPrice (api : string -> result Json.t) (mint : string) : Quote.t :=
  let attempt : result number :=
    data ← api mint;
    entries ← Json.get (Some data) "data";
    let price := Json.or_else (Json.get_opt (Json.get_opt entries mint) "price")
                              (Json.Num 0) in
    Number (Some price) in
  match attempt with
  | Ok price => {| Quote.price := price; Quote.mint := mint |}
  | Throw _ => {| Quote.price := 0; Quote.mint := mint |}
  end.

(** The account the USDC of an order is paid to. *)
Definition USDC_DESTINATION : string := "6zAcFYmxkaH25qWZW5ek4dk4SyQNpSza3ydSoUxjTudD".

Definition not_a_function : JS.thrown :=
  JS.JsError "tx.result.meta.innerInstructions.flatMap is not a function".

(** [innerInstructions.flatMap(inner => inner.instructions)]: only an
    array has [flatMap]; an array returned by the callback is spliced in,
    anything else is kept as one item. *)
Definition flatMap_instructions (innerInstructions : Json.value)
  : result (list Json.value) :=
  match innerInstructions with
  | None => Throw (Json.cannot_read "undefined" "flatMap")
  | Some Json.Null => Throw (Json.cannot_read "null" "flatMap")
  | Some (Json.Arr inners) =>
      chunks ← mapM (fun inner =>
                       instructions ← Json.get (Some inner) "instructions";
                       mret match instructions with
                            | Some (Json.Arr items) => List.map Some items
                            | other => [other]
                            end)
                    inners;
      mret (concat chunks)
  | Some _ => Throw not_a_function
  end.

(** [inst.parsed?.type === 'transfer'] *)
Definition is_transfer (inst : Json.value) : result bool :=
  parsed ← Json.get inst "parsed";
  mret (Json.is_string (Json.get_opt parsed "type") "transfer").

(** [transfers]: the token transfers among the inner instructions. *)
Definition transfers_of (tx : Json.t) : result (list Json.value) :=
  result ← Json.get (Some tx) "result";
  meta ← Json.get result "meta";
  innerInstructions ← Json.get meta "innerInstructions";
  instructions ← flatMap_instructions innerInstructions;
  filterM is_transfer instructions.

(** [t.parsed.info.amount] *)
Definition amount_of (t : Json.value) : result Json.value :=
  parsed ← Json.get t "parsed";
  info ← Json.get parsed "info";
  Json.get info "amount".

(** [t.parsed.info.destination === '6zAc...'] *)
Definition pays_usdc (t : Json.value) : result bool :=
  parsed ← Json.get t "parsed";
  info ← Json.get parsed "info";
  destination ← Json.get info "destination";
  mret (Json.is_string destination USDC_DESTINATION).

(** [parseTransactionAmounts]; [null] is [None]. *)
Definition parseTransactionAmounts (tx : Json.t) : option TxAmounts.t :=
  let attempt : result TxAmounts.t :=
    transfers ← transfers_of tx;
    amounts ← mapM (fun t => amount ← amount_of t; Number amount) transfers;
    let chaosAmount := Math_max amounts in
    found ← findM pays_usdc transfers;
    usdcAmount ← match found with
                 | Some t => amount_of t
                 | None => Ok None
                 end;
    usdc ← Number usdcAmount;
    mret {| TxAmounts.chaosReceived := chaosAmount / 1000000000;
            TxAmounts.usdcPaid := usdc / JS.pow10_6 |} in
  match attempt with
  | Ok amounts => Some amounts
  | Throw _ => None
  end.

(** [getRecentTransactionForAccount]. [rpc accountKey] is what asking for
    the most recent signature of [accountKey] and reading the body as JSON
    gives. *)
Definition getRecentTransactionForAccount (rpc : string -> result Json.t)
    (accountKey : string) : result Json.t :=
  sigData ← rpc accountKey;
  result ← Json.get (Some sigData) "result";
  mret (Json.or_else (Json.get_opt (Json.first result) "signature") (Json.Str "")).

End Responses.

(** ** The converter with its lookups and its console output *)

(** A request posted to the RPC endpoint, by its method and the
    parameters the code sets. *)
Module Rpc.
Inductive request :=
| getSignaturesForAddress (address : string) (limit : Z)
| getTransaction (signature : Json.t).
End Rpc.

(** [getDCATransactions]. [rpc request] is what posting [request] and
    reading the body as JSON gives. *)
Definition getDCATransactions (rpc : Rpc.request -> result Json.t)
    (dcaAccountKey : string) : result Json.t :=
  rpc (Rpc.getSignaturesForAddress dcaAccountKey 20).

(** What [console.log] is given: one entry per call, the list of its
    arguments. A [BN] and a [PublicKey] are logged through [toString]; a
    [Date] is kept by the time value it was built from. *)
Module Console.

#[local] Unset Elimination Schemes.
Inductive value :=
| Null
| Bool (b : bool)
| Num (x : number)
| Str (s : string)
| Date (ms : number)
| Parsed (v : Json.value)
| Rec (fields : list (string * value)).
#[local] Set Elimination Schemes.

Definition entry := list value.

Fixpoint field (key : string) (fields : list (string * value)) : option value :=
  match fields with
  | [] => None
  | (k, v) :: rest => if String.eqb k key then Some v else field key rest
  end.

End Console.

(** A computation that can throw and that writes to the console: its
    outcome and the entries logged, the earliest first. *)
Definition traced (A : Type) : Type := (result A * list Console.entry)%type.

#[global] Instance traced_ret : MRet traced := fun A a => (Ok a, []).
#[global] Instance traced_bind : MBind traced := fun A B f m =>
  match m with
  | (Ok a, logged) => let '(r, logged') := f a in (r, logged ++ logged')
  | (Throw e, logged) => (Throw e, logged)
  end.

(** [console.log(...args)] *)
Definition console_log (args : Console.entry) : traced unit := (Ok tt, [args]).

(** A step that logs nothing. *)
Definition quiet {A : Type} (r : result A) : traced A := (r, []).

Module Async.
Section Async.

Local Open Scope float_scope.
Import Account.

Variable StringToNumber : string -> number.
Variable ObjectToNumber : Json.t -> result number.
Variable rpc : Rpc.request -> result Json.t.

(** [bn.toString()] *)
Definition bn (z : Z) : Console.value := Console.Str (pretty z).

(** [amounts], as logged. *)
Definition logged_amounts (amounts : option TxAmounts.t) : Console.value :=
  match amounts with
  | Some a => Console.Rec [("chaosReceived", Console.Num (TxAmounts.chaosReceived a));
                           ("usdcPaid", Console.Num (TxAmounts.usdcPaid a))]
  | None => Console.Null
  end.

(** [convertDCAAccount], from its first line to its last: the three
    lookups it awaits, none of them caught, the calls of bn.js that can
    throw and the calls of [console.log], in source order. *)
Definition convertDCAAccount (account : Account.t) (price : number)
    (token : string) (type : OrderType) : traced Position.t :=
  let key := Console.Str (publicKey account) in
  (* transaction history check *)
  transactions ← quiet (getDCATransactions rpc (publicKey account));
  _ ← console_log
        [Console.Str "DCA Transactions:";
         Console.Rec
           [("accountKey", key);
            ("transactions", Console.Parsed (Some transactions));
            ("raw", Console.Rec [("inUsed", bn (inUsed account));
                                 ("inAmountPerCycle", bn (inAmountPerCycle account));
                                 ("inDeposited", bn (inDeposited account))])]];
  (* precision debugging *)
  used ← quiet (BN.toNumber (inUsed account));
  perCycle ← quiet (BN.toNumber (inAmountPerCycle account));
  _ ← console_log
        [Console.Str "Precision Analysis:";
         Console.Rec
           [("publicKey", key);
            ("rawInUsed", Console.Num used);
            ("rawAmountPerCycle", Console.Num perCycle);
            ("rawCompletedCycles", Console.Num (used / perCycle));
            ("flooredCompletedCycles", Console.Num (JS.Math_floor (used / perCycle)));
            ("difference", Console.Num (used / perCycle - JS.Math_floor (used / perCycle)));
            ("bnInUsed", bn (inUsed account));
            ("bnAmountPerCycle", bn (inAmountPerCycle account))]];
  (* logged only when completed cycles is greater than total cycles *)
  deposited ← quiet (BN.toNumber (inDeposited account));
  _ ← (if JS.Math_ceil (deposited / perCycle) <? used / perCycle
       then console_log
              [Console.Str "Precision Issue Detected:";
               Console.Rec
                 [("publicKey", key);
                  ("totalCycles", Console.Num (JS.Math_ceil (deposited / perCycle)));
                  ("rawCompletedCycles", Console.Num (used / perCycle));
                  ("rawInUsed", Console.Num used);
                  ("rawAmountPerCycle", Console.Num perCycle);
                  ("bnInUsed", bn (inUsed account));
                  ("bnAmountPerCycle", bn (inAmountPerCycle account));
                  ("inUsedDecimal", Console.Num (used / JS.pow10_6));
                  ("amountPerCycleDecimal", Console.Num (perCycle / JS.pow10_6))]]
       else mret tt);
  (* comprehensive logging *)
  total ← quiet (BN.toNumber (inDeposited account - inWithdrawn account)%Z);
  frequency ← quiet (BN.toNumber (cycleFrequency account));
  nextCycle ← quiet (BN.toNumber (nextCycleAt account));
  _ ← console_log
        [Console.Str "Detailed DCA Account Analysis:";
         Console.Rec
           [("type", Console.Str match type with BUY => "BUY" | SELL => "SELL" end);
            ("token", Console.Str token);
            ("inDeposited", bn (inDeposited account));
            ("inWithdrawn", bn (inWithdrawn account));
            ("inUsed", bn (inUsed account));
            ("outWithdrawn", bn (outWithdrawn account));
            ("inAmountPerCycle", bn (inAmountPerCycle account));
            ("totalAmount", Console.Num (deposited / JS.pow10_6));
            ("remainingAmount", Console.Num (total / JS.pow10_6));
            ("usedAmount", Console.Num (used / JS.pow10_6));
            ("totalCycles", Console.Num (JS.Math_ceil (deposited / perCycle)));
            ("completedCycles", Console.Num (used / perCycle));
            ("cycleFrequency", Console.Num frequency);
            ("nextCycleAt", Console.Date (nextCycle * 1000));
            ("isFullyWithdrawn",
             Console.Bool (inDeposited account =? inWithdrawn account)%Z);
            ("hasOutstandingBalance",
             Console.Bool (inWithdrawn account <? inDeposited account)%Z);
            ("allCyclesExecuted",
             Console.Bool (JS.Math_ceil (deposited / perCycle) <=? used / perCycle))]];
  _ ← console_log
        [Console.Str "Converting account:";
         Console.Rec [("inputMint", Console.Str (inputMint account));
                      ("outputMint", Console.Str (outputMint account))]];
  (* remaining cycles and completion status *)
  let c := cycles deposited used perCycle in
  let totalCycles := c_totalCycles c in
  let completedFullCycles := c_completedFullCycles c in
  let currentCycleUsed := c_currentCycleUsed c in
  let remainingCycles := c_remainingCycles c in
  _ ← console_log
        [Console.Str "Cycles calculation:";
         Console.Rec
           [("totalCycles", Console.Num totalCycles);
            ("rawCompletedCycles", Console.Num (used / perCycle));
            ("completedCycles", Console.Num (used / perCycle));
            ("inUsed", bn (inUsed account));
            ("inAmountPerCycle", bn (inAmountPerCycle account));
            ("raw", Console.Num (used / perCycle))]];
  (* execution price from the used amounts, the current price as fallback *)
  executionPrice ←
    quiet (if JS.gt0 used
           then out ← BN.toNumber (outWithdrawn account); mret (out / used)
           else mret price);
  let remainingValue := remainingCycles * (perCycle / JS.pow10_6) in
  maxPrice ←
    quiet match type with
          | BUY =>
              match maxOutAmount account with
              | Some maxOut =>
                  m ← BN.toNumber maxOut;
                  mret (Some (Limit ((perCycle / JS.pow10_6) / (m / JS.pow10_6))))
              | None => mret (Some NoLimit)
              end
          | SELL => mret None
          end;
  minPrice ←
    quiet match type with
          | SELL =>
              match minOutAmount account with
              | Some minOut =>
                  m ← BN.toNumber minOut;
                  mret (Some ((m / JS.pow10_6) / (perCycle / JS.pow10_6)))
              | None => mret None
              end
          | BUY => mret None
          end;
  (* remaining in cycle, with bn.js *)
  usedInCurrentCycle ← quiet (BN.mod_ (inUsed account) (inAmountPerCycle account));
  remainingInCycleRaw ←
    quiet (BN.toNumber (inAmountPerCycle account - usedInCurrentCycle)%Z);
  let remainingInCycle := remainingInCycleRaw / JS.pow10_6 in
  division ← quiet (BN.div (inUsed account) (inAmountPerCycle account));
  divisionNumber ← quiet (BN.toNumber division);
  _ ← console_log
        [Console.Str "Raw cycle calculation:";
         Console.Rec
           [("inUsed", bn (inUsed account));
            ("amountPerCycle", bn (inAmountPerCycle account));
            ("usedInCurrentCycle", bn usedInCurrentCycle);
            ("remainingInCycle", Console.Num remainingInCycle);
            ("rawCalc", Console.Rec [("modulo", bn usedInCurrentCycle);
                                     ("division", Console.Num divisionNumber)])]];
  totalReceived ← quiet (BN.toNumber (outWithdrawn account));
  _ ← console_log
        [Console.Str "DCA Order Analysis:";
         Console.Rec
           [("publicKey", key);
            ("raw", Console.Rec [("inUsed", bn (inUsed account));
                                 ("inAmountPerCycle", bn (inAmountPerCycle account));
                                 ("inDeposited", bn (inDeposited account));
                                 ("outWithdrawn", bn (outWithdrawn account))]);
            ("calculated",
             Console.Rec
               [("totalCycles", Console.Num totalCycles);
                ("completedCycles", Console.Num (JS.Math_floor (used / perCycle)));
                ("currentCycleUsed", Console.Num (JS.rem used perCycle));
                ("amountPerCycle", Console.Num (perCycle / JS.pow10_6));
                ("totalUsed", Console.Num (used / JS.pow10_6));
                ("totalReceived", Console.Num (totalReceived / JS.pow10_6))])]];
  (* the most recent transaction of the account *)
  txHash ← quiet (getRecentTransactionForAccount
                    (fun accountKey => rpc (Rpc.getSignaturesForAddress accountKey 1))
                    (publicKey account));
  txDetails ← quiet (rpc (Rpc.getTransaction txHash));
  let amounts := parseTransactionAmounts StringToNumber ObjectToNumber txDetails in
  let cycleAmount := perCycle / JS.pow10_6 in
  let cycleUsed :=
    match amounts with
    | Some a => JS.or_else (TxAmounts.usdcPaid a) 0
    | None => 0
    end in
  _ ← console_log [Console.Str "=== CHAOS BUY ORDER DETAILS ==="];
  _ ← console_log [Console.Str "Account:"; key];
  _ ← console_log [Console.Str "Transaction Amounts:"; logged_amounts amounts];
  _ ← console_log
        [Console.Str "Cycle Progress:";
         Console.Rec [("cycleAmount", Console.Num cycleAmount);
                      ("currentCycleUsed", Console.Num cycleUsed);
                      ("remainingInCycle", Console.Num (cycleAmount - cycleUsed))]];
  _ ← console_log [Console.Str "=== END CHAOS BUY ORDER ==="];
  estimatedTokens ←
    quiet match type with
          | BUY =>
              match maxPrice with
              | Some (Limit p) => mret (remainingValue / p)
              | _ => mret (remainingValue / price)
              end
          | SELL =>
              match minOutAmount account with
              | Some minOut =>
                  m ← BN.toNumber minOut; mret (remainingValue * (m / JS.pow10_6))
              | None => mret (remainingValue * price)
              end
          end;
  mret {|
    Position.id := publicKey account;
    Position.token := token;
    Position.type := type;
    Position.inputToken := match type with BUY => "USDC" | SELL => token end;
    Position.outputToken := match type with BUY => token | SELL => "USDC" end;
    Position.inputAmount := perCycle / JS.pow10_6;
    Position.totalAmount := total / JS.pow10_6;
    Position.amountPerCycle := perCycle / JS.pow10_6;
    Position.remainingCycles := frequency;
    Position.cycleFrequency := frequency;
    Position.lastUpdate := nextCycle * 1000;
    Position.publicKey := publicKey account;
    Position.targetPrice := executionPrice;
    Position.currentPrice := price;
    Position.priceToken := "USDC";
    Position.estimatedOutput :=
      match type with
      | SELL => Some ((perCycle / JS.pow10_6) * executionPrice)
      | BUY => None
      end;
    Position.totalCycles := totalCycles;
    Position.completedCycles := completedFullCycles + currentCycleUsed;
    Position.isActive := JS.gt0 remainingCycles && isOrderActive account;
    Position.executionPrice := executionPrice / JS.pow10_6;
    Position.maxPrice := maxPrice;
    Position.minPrice := minPrice;
    Position.remainingAmount := remainingCycles * (perCycle / JS.pow10_6);
    Position.estimatedTokens := estimatedTokens;
    Position.remainingInCycle := remainingInCycle;
    Position.cycleProgress :=
      Some {| CycleProgress.total := cycleAmount;
              CycleProgress.used := cycleUsed;
              CycleProgress.remaining := cycleAmount - cycleUsed;
              CycleProgress.percentComplete := (cycleUsed / cycleAmount) * 100 |}
  |}.

End Async.
End Async.

(** ** The poll *)

(** What the code reads from outside: the SDK client, the price API, the
    RPC endpoint and the clock. [getAll k] is the outcome of the [k]-th
    call of [dca.getAll()]; [slept] lists the delays awaited, the latest
    first; [rpc request] is what posting [request] and reading the body as
    JSON gives, the same for the whole of a poll. [StringToNumber] and
    [ObjectToNumber] are [Number] on a string and on an object, which the
    embedding leaves open. *)
Module World.
Record t := {
  dca_initialized : bool;
  getAll : nat -> result (list Account.t);
  getAll_calls : nat;
  slept : list Z;
  quote : string -> number;
  rpc : Rpc.request -> result Json.t;
  StringToNumber : string -> number;
  ObjectToNumber : Json.t -> result number;
  now : Z
}.

Definition called (w : t) : t :=
  {| dca_initialized := dca_initialized w; getAll := getAll w;
     getAll_calls := Datatypes.S (getAll_calls w); slept := slept w;
     quote := quote w; rpc := rpc w; StringToNumber := StringToNumber w;
     ObjectToNumber := ObjectToNumber w; now := now w |}.

Definition sleep (ms : Z) (w : t) : t :=
  {| dca_initialized := dca_initialized w; getAll := getAll w;
     getAll_calls := getAll_calls w; slept := ms :: slept w;
     quote := quote w; rpc := rpc w; StringToNumber := StringToNumber w;
     ObjectToNumber := ObjectToNumber w; now := now w |}.
End World.

Module PollData.
Record t := {
  positions : list Position.t;
  summary : gmap string TokenSummary.t;
  chartData : gmap string (list ChartDataPoint.t)
}.
End PollData.

(** [{ ...pos, currentPrice }] *)
Definition with_currentPrice (pos : Position.t) (p : number) : Position.t :=
  {| Position.id := Position.id pos;
     Position.token := Position.token pos;
     Position.type := Position.type pos;
     Position.inputToken := Position.inputToken pos;
     Position.outputToken := Position.outputToken pos;
     Position.inputAmount := Position.inputAmount pos;
     Position.totalAmount := Position.totalAmount pos;
     Position.amountPerCycle := Position.amountPerCycle pos;
     Position.remainingCycles := Position.remainingCycles pos;
     Position.cycleFrequency := Position.cycleFrequency pos;
     Position.lastUpdate := Position.lastUpdate pos;
     Position.publicKey := Position.publicKey pos;
     Position.targetPrice := Position.targetPrice pos;
     Position.currentPrice := p;
     Position.priceToken := Position.priceToken pos;
     Position.estimatedOutput := Position.estimatedOutput pos;
     Position.totalCycles := Position.totalCycles pos;
     Position.completedCycles := Position.completedCycles pos;
     Position.isActive := Position.isActive pos;
     Position.executionPrice := Position.executionPrice pos;
     Position.maxPrice := Position.maxPrice pos;
     Position.minPrice := Position.minPrice pos;
     Position.remainingAmount := Position.remainingAmount pos;
     Position.estimatedTokens := Position.estimatedTokens pos;
     Position.remainingInCycle := Position.remainingInCycle pos;
     Position.cycleProgress := Position.cycleProgress pos |}.

Section Poll.

Import Account.

(** The operation handed to [withRetry]: fetch every account, and throw
    on an empty answer. *)
Definition fetchAll (w : World.t) : result (list Account.t) * World.t :=
  let w' := World.called w in
  match World.getAll w (World.getAll_calls w) with
  | Ok accounts =>
      if (length accounts =? 0)%nat
      then (Throw (JS.JsError "No accounts returned"), w')
      else (Ok accounts, w')
  | Throw e => (Throw e, w')
  end.

(** The initial categorization, by mint. *)
Definition categorize (allAccounts : list Account.t) : ByToken.t Orders.t :=
  {| ByToken.LOGOS :=
       {| Orders.buys := List.filter (fun acc => String.eqb (outputMint acc) LOGOS_MINT) allAccounts;
          Orders.sells := List.filter (fun acc => String.eqb (inputMint acc) LOGOS_MINT) allAccounts |};
     ByToken.CHAOS :=
       {| Orders.buys := List.filter (fun acc => String.eqb (outputMint acc) CHAOS_MINT) allAccounts;
          Orders.sells := List.filter (fun acc => String.eqb (inputMint acc) CHAOS_MINT) allAccounts |} |}.

(** [summary.LOGOS], [summary.CHAOS]: reading a field of a missing entry
    is a [TypeError]. *)
Definition entry (summary : gmap string TokenSummary.t) (token : string)
  : result TokenSummary.t :=
  match summary !! token with
  | Some s => Ok s
  | None => Throw (JS.JsError "Cannot read properties of undefined")
  end.

(** The one-point series built for a token at each poll. *)
Definition chartPoint (now : Z) (s : TokenSummary.t) : list ChartDataPoint.t :=
  [ {| ChartDataPoint.timestamp := now;
       ChartDataPoint.buyVolume := TokenSummary.buyVolume s;
       ChartDataPoint.sellVolume := TokenSummary.sellVolume s;
       ChartDataPoint.buyOrders := TokenSummary.buyOrders s;
       ChartDataPoint.sellOrders := TokenSummary.sellOrders s |} ].

(** A conversion against the world of the poll; what it logs is left
    behind. *)
Definition convert (w : World.t) (price : number) (token : string)
    (type : OrderType) (acc : Account.t) : result Position.t :=
  fst (Async.convertDCAAccount (World.StringToNumber w) (World.ObjectToNumber w)
         (World.rpc w) acc price token type).

(** Everything [getDCAAccounts] does once the accounts are fetched.
    [Promise.all] rejects as soon as one conversion does; when several
    fail, the error is here that of the first in list order, where the
    source has that of the first to fail in time. *)
Definition buildPollData (w : World.t) (allAccounts : list Account.t)
  : result PollData.t :=
  let accountsByToken := categorize allAccounts in
  let logosPrice := World.quote w LOGOS_MINT in
  let chaosPrice := World.quote w CHAOS_MINT in
  summary ← calculateSummaryFromRawAccounts accountsByToken
              {| ByToken.LOGOS := logosPrice; ByToken.CHAOS := chaosPrice |};
  let convert price token type := mapM (convert w price token type) in
  let logos := ByToken.LOGOS accountsByToken in
  let chaos := ByToken.CHAOS accountsByToken in
  p1 ← convert logosPrice "LOGOS" BUY (List.filter isOrderActive (Orders.buys logos));
  p2 ← convert logosPrice "LOGOS" SELL (List.filter isOrderActive (Orders.sells logos));
  p3 ← convert chaosPrice "CHAOS" BUY (List.filter isOrderActive (Orders.buys chaos));
  p4 ← convert chaosPrice "CHAOS" SELL (List.filter isOrderActive (Orders.sells chaos));
  let positions := p1 ++ p2 ++ p3 ++ p4 in
  let positionsWithPrices :=
    List.map (fun pos =>
                with_currentPrice pos
                  (if String.eqb (Position.token pos) "LOGOS"
                   then logosPrice else chaosPrice))
             positions in
  logosSummary ← entry summary "LOGOS";
  chaosSummary ← entry summary "CHAOS";
  let chartData : gmap string (list ChartDataPoint.t) :=
    <["LOGOS" := chartPoint (World.now w) logosSummary]>
      (<["CHAOS" := chartPoint (World.now w) chaosSummary]> ∅) in
  mret {| PollData.positions := positionsWithPrices;
          PollData.summary := summary;
          PollData.chartData := chartData |}.

(** [getDCAAccounts] *)
Definition getDCAAccounts (w : World.t) : result PollData.t * World.t :=
  if World.dca_initialized w then
    match withRetry World.sleep fetchAll default_maxRetries w with
    | (Ok allAccounts, w') => (buildPollData w' allAccounts, w')
    | (Throw e, w') => (Throw e, w')
    end
  else (Throw (JS.JsError "DCA SDK not initialized"), w).

End Poll.

(** ** The dashboard's state *)

Module Dashboard.

Record t := {
  chartData : gmap string (list ChartDataPoint.t);
  summaryData : gmap string TokenSummary.t;
  positions : list Position.t;
  loading : bool;
  error : option string;
  lastUpdate : Z;
  (* delays of the [setTimeout(fetchData, ...)] calls made so far *)
  retries : list Z
}.

(** The [useState] initial values. *)
Definition initial (now : Z) : t :=
  {| chartData := ∅; summaryData := ∅; positions := [];
     loading := true; error := None; lastUpdate := now; retries := [] |}.

(** The first lines of [fetchData]: [setLoading(true); setError(null)]. *)
Definition started (st : t) : t :=
  {| chartData := chartData st;
     summaryData := summaryData st;
     positions := positions st;
     loading := true;
     error := None;
     lastUpdate := lastUpdate st;
     retries := retries st |}.

(** What [fetchData] does once [getDCAAccounts] has settled, at the time
    [now]: the setters that follow the [await] when it returned, the
    [catch] block when it threw. *)
Definition settled (st : t) (outcome : result PollData.t) (now : Z) : t :=
  match outcome with
  | Ok data =>
      {| chartData := PollData.chartData data;
         summaryData := PollData.summary data;
         positions := PollData.positions data;
         loading := false;
         error := error st;
         lastUpdate := now;
         retries := retries st |}
  | Throw _ =>
      {| chartData := chartData st;
         summaryData := summaryData st;
         positions := positions st;
         loading := loading st;
         error := Some "Failed to fetch data. Retrying...";
         lastUpdate := lastUpdate st;
         retries := 2000 :: retries st |}
  end.

(** [fetchData], when no other call of it starts or settles between its
    first line and its last. *)
Definition fetchData (st : t) (w : World.t) : t * World.t :=
  let '(outcome, w') := getDCAAccounts w in
  (settled (started st) outcome (World.now w'), w').

(** Successive polls, each against the world as it is at that time and
    each settled before the next starts. *)
Definition polls (st : t) (ws : list World.t) : t :=
  fold_left (fun st w => fst (fetchData st w)) ws st.

(** The calls of [fetchData] overlap: the interval starts one every 5 s
    and each failure one more after 2 s, while a poll whose fetch is
    retried takes 6 s and more. The state then goes through the starts
    and the settlements of the calls in the order they happen; [Settle w]
    is the settlement of a call that polled the world [w]. *)
Inductive event :=
| Start
| Settle (w : World.t).

Definition step (st : t) (ev : event) : t :=
  match ev with
  | Start => started st
  | Settle w => let '(outcome, w') := getDCAAccounts w in
                settled st outcome (World.now w')
  end.

Definition run (st : t) (events : list event) : t :=
  fold_left step events st.

(** [chartData[token]], the series drawn for a token ([undefined] is
    drawn as no points). *)
Definition series (st : t) (token : string) : list ChartDataPoint.t :=
  default [] (chartData st !! token).

End Dashboard.

(** ** The sections of the dashboard *)

(** [positions.filter(position => position.token === token)]: the cards
    of one section. *)
Definition section_positions (token : string) (positions : list Position.t)
  : list Position.t :=
  List.filter (fun position => String.eqb (Position.token position) token) positions.

(** ** The charts of the dashboard *)

(** The [data] of a [Line] chart. *)
Module Chart.
Record Dataset := {
  label : string;
  data : list number;
  borderColor : string;
  backgroundColor : string;
  tension : number;
  fill : bool;
  borderWidth : number
}.
Record t := { labels : list string; datasets : list Dataset }.
End Chart.

Section Charts.

Local Open Scope float_scope.

(** The offset of local time from UTC at a time value, in ms. *)
Variable LocalTZA : Z -> Z.

(** [s.padStart(2, '0')] *)
Definition padStart2 (s : string) : string :=
  match String.length s with
  | 0%nat => "00"
  | 1%nat => "0" ++ s
  | _ => s
  end.

(** [`${date.getHours()}:${date.getMinutes().toString().padStart(2, '0')}`]
    for [date = new Date(timestamp)]; a time value beyond 8.64e15 ms is
    no date, and its hours and minutes are [NaN]. *)
Definition timeLabel (timestamp : Z) : string :=
  if (Z.abs timestamp <=? 8640000000000000)%Z then
    let localTime := (timestamp + LocalTZA timestamp)%Z in
    let hours := ((localTime / 3600000) mod 24)%Z in
    let minutes := ((localTime / 60000) mod 60)%Z in
    pretty hours ++ ":" ++ padStart2 (pretty minutes)
  else "NaN:" ++ padStart2 "NaN".

Definition no_chart : Chart.t := {| Chart.labels := []; Chart.datasets := [] |}.

(** [createChartData], on the state of the dashboard. *)
Definition createChartData (st : Dashboard.t) (token : string) : Chart.t :=
  match Dashboard.chartData st !! token with
  | None | Some [] => no_chart
  | Some points =>
      {| Chart.labels :=
           List.map (fun point => timeLabel (ChartDataPoint.timestamp point)) points;
         Chart.datasets :=
           [ {| Chart.label := "Buy Volume";
                Chart.data := List.map ChartDataPoint.buyVolume points;
                Chart.borderColor := "#4CAF50";
                Chart.backgroundColor := "rgba(76, 175, 80, 0.1)";
                Chart.tension := 0x1.999999999999ap-2;
                Chart.fill := true;
                Chart.borderWidth := 2 |};
             {| Chart.label := "Sell Volume";
                Chart.data := List.map ChartDataPoint.sellVolume points;
                Chart.borderColor := "#f44336";
                Chart.backgroundColor := "rgba(244, 67, 54, 0.1)";
                Chart.tension := 0x1.999999999999ap-2;
                Chart.fill := true;
                Chart.borderWidth := 2 |} ] |}
  end.

End Charts.

(** * Properties *)

(** ** Numbers that are not finite *)

Section NonFinite.

Local Open Scope float_scope.

Lemma finite_false_cases (x : number) :
  JS.finite x = false <-> Prim2SF x = S754_nan \/ exists s, Prim2SF x = S754_infinity s.
Proof.
  unfold JS.finite. destruct (Prim2SF x); split; intros H; try discriminate;
    try reflexivity; eauto.
  all: destruct H as [H | [s' H]]; discriminate.
Qed.

(** Dividing by a zero gives NaN or an infinity, whatever the dividend. *)
Lemma div_zero_not_finite (x y : number) (s : bool) :
  Prim2SF y = S754_zero s -> JS.finite (x / y) = false.
Proof.
  intros Hy. unfold JS.finite. rewrite FloatAxioms.div_spec, Hy.
  destruct (Prim2SF x); reflexivity.
Qed.

Lemma add_not_finite_l (x y : number) :
  JS.finite x = false -> JS.finite (x + y) = false.
Proof.
  unfold JS.finite. rewrite FloatAxioms.add_spec.
  destruct (Prim2SF x) as [| [] | |]; try discriminate; intros _;
    destruct (Prim2SF y) as [| [] | |]; reflexivity.
Qed.

Lemma add_not_finite_r (x y : number) :
  JS.finite y = false -> JS.finite (x + y) = false.
Proof.
  unfold JS.finite. rewrite FloatAxioms.add_spec.
  destruct (Prim2SF y) as [| [] | |]; try discriminate; intros _;
    destruct (Prim2SF x) as [| [] | |]; reflexivity.
Qed.

Lemma opp_not_finite (x : number) :
  JS.finite x = false -> JS.finite (- x) = false.
Proof.
  unfold JS.finite. rewrite FloatAxioms.opp_spec.
  destruct (Prim2SF x); try discriminate; reflexivity.
Qed.

Lemma Math_floor_not_finite (x : number) :
  JS.finite x = false -> JS.Math_floor x = x.
Proof.
  unfold JS.finite, JS.Math_floor.
  destruct (Prim2SF x); try discriminate; reflexivity.
Qed.

Lemma Math_ceil_not_finite (x : number) :
  JS.finite x = false -> JS.finite (JS.Math_ceil x) = false.
Proof.
  intros H. unfold JS.Math_ceil. apply opp_not_finite.
  rewrite Math_floor_not_finite; now apply opp_not_finite.
Qed.

Lemma Math_round_not_finite (x : number) :
  JS.finite x = false -> JS.Math_round x = x.
Proof.
  unfold JS.finite, JS.Math_round.
  destruct (Prim2SF x); try discriminate; reflexivity.
Qed.

End NonFinite.

(** ** Inversion of results *)

(** The 53-bit bound of [toNumber]. *)
Definition fits (z : Z) : bool := (Z.abs z <? 2 ^ 53)%Z.

Definition too_large : JS.thrown :=
  JS.JsError "Number can only safely store up to 53 bits".

Definition assertion_failed : JS.thrown := JS.JsError "Assertion failed".

Lemma toNumber_fits (z : Z) :
  fits z = true -> BN.toNumber z = Ok (JS.number_of_Z z).
Proof. unfold BN.toNumber, fits. now intros ->. Qed.

Lemma toNumber_Ok (z : Z) (n : number) :
  BN.toNumber z = Ok n -> fits z = true /\ n = JS.number_of_Z z.
Proof.
  unfold BN.toNumber, fits. destruct (Z.abs z <? 2 ^ 53)%Z; [|discriminate].
  intros [= <-]. auto.
Qed.

Lemma toNumber_Throw (z : Z) (e : JS.thrown) :
  BN.toNumber z = Throw e -> fits z = false /\ e = too_large.
Proof.
  unfold BN.toNumber, fits. destruct (Z.abs z <? 2 ^ 53)%Z; [discriminate|].
  intros [= <-]. auto.
Qed.

Lemma bind_Ok {A B : Type} (m : result A) (k : A -> result B) (b : B) :
  (m ≫= k) = Ok b -> exists a, m = Ok a /\ k a = Ok b.
Proof. destruct m as [a|e]; [eauto | discriminate]. Qed.

Lemma bind_Throw {A B : Type} (m : result A) (k : A -> result B) (e : JS.thrown) :
  (m ≫= k) = Throw e -> m = Throw e \/ exists a, m = Ok a /\ k a = Throw e.
Proof. destruct m as [a|e']; [eauto | intros [= ->]; auto]. Qed.

Tactic Notation "bind_inv" hyp(H) "as" ident(a) ident(Ha) :=
  apply bind_Ok in H; destruct H as (a & Ha & H).

Ltac throw_inv H :=
  repeat match type of H with
    | (_ ≫= _) = Throw _ =>
        let a := fresh "a" in
        let Ha := fresh "Ha" in
        apply bind_Throw in H; destruct H as [H | (a & Ha & H)]
    | BN.toNumber _ = Throw _ => apply toNumber_Throw in H as [_ ->]
    | mret _ = Throw _ => discriminate H
    | Ok _ = Throw _ => discriminate H
    | (if ?b then _ else _) = Throw _ => destruct b
    | match ?x with _ => _ end = Throw _ => destruct x
    end.

(** ** What a successful conversion returns *)

Section ConverterFacts.

Local Open Scope float_scope.
Import Account.

(** The bound carried by a position of the given direction. *)
Definition maxPrice_of (account : Account.t) (type : OrderType) : option PriceLimit :=
  match type with
  | BUY =>
      Some match maxOutAmount account with
           | Some maxOut =>
               Limit ((JS.number_of_Z (inAmountPerCycle account) / JS.pow10_6)
                      / (JS.number_of_Z maxOut / JS.pow10_6))
           | None => NoLimit
           end
  | SELL => None
  end.

Definition minPrice_of (account : Account.t) (type : OrderType) : option number :=
  match type with
  | SELL =>
      match minOutAmount account with
      | Some minOut =>
          Some ((JS.number_of_Z minOut / JS.pow10_6)
                / (JS.number_of_Z (inAmountPerCycle account) / JS.pow10_6))
      | None => None
      end
  | BUY => None
  end.

Lemma convert_Ok account price token type amounts p :
  convertDCAAccount account price token type amounts = Ok p ->
  let c := cycles (JS.number_of_Z (inDeposited account))
                  (JS.number_of_Z (inUsed account))
                  (JS.number_of_Z (inAmountPerCycle account)) in
  fits (inUsed account) = true /\
  fits (inAmountPerCycle account) = true /\
  fits (inDeposited account) = true /\
  inAmountPerCycle account <> 0%Z /\
  Position.totalCycles p = c_totalCycles c /\
  Position.completedCycles p = c_completedFullCycles c + c_currentCycleUsed c /\
  Position.isActive p = JS.gt0 (c_remainingCycles c) && isOrderActive account /\
  Position.remainingInCycle p =
    JS.number_of_Z (inAmountPerCycle account
                    - Z.rem (inUsed account) (inAmountPerCycle account)) / JS.pow10_6 /\
  Position.maxPrice p = maxPrice_of account type /\
  Position.minPrice p = minPrice_of account type.
Proof.
  intros H. unfold convertDCAAccount in H.
  bind_inv H as used Hu. bind_inv H as perCycle Hp. bind_inv H as deposited Hd.
  apply toNumber_Ok in Hu as [Hu ->], Hp as [Hp ->], Hd as [Hd ->].
  bind_inv H as total Ht. bind_inv H as frequency Hf. bind_inv H as nextCycle Hn.
  bind_inv H as executionPrice He. bind_inv H as maxPrice Hmax.
  bind_inv H as minPrice Hmin. bind_inv H as r Hr.
  unfold BN.mod_ in Hr.
  destruct (inAmountPerCycle account =? 0)%Z eqn:Hz; [discriminate|].
  injection Hr as <-. apply Z.eqb_neq in Hz.
  bind_inv H as raw Hraw. apply toNumber_Ok in Hraw as [_ ->].
  bind_inv H as division Hdiv. bind_inv H as d' Hd'. bind_inv H as o' Ho'.
  bind_inv H as estimatedTokens Hest.
  injection H as <-. cbn [Position.totalCycles Position.completedCycles
    Position.isActive Position.remainingInCycle Position.maxPrice Position.minPrice].
  repeat split; try assumption; try reflexivity.
  - unfold maxPrice_of. destruct type; [|now injection Hmax as <-].
    destruct (maxOutAmount account); [|now injection Hmax as <-].
    bind_inv Hmax as m Hm. apply toNumber_Ok in Hm as [_ ->]. now injection Hmax as <-.
  - unfold minPrice_of. destruct type; [now injection Hmin as <-|].
    destruct (minOutAmount account); [|now injection Hmin as <-].
    bind_inv Hmin as m Hm. apply toNumber_Ok in Hm as [_ ->]. now injection Hmin as <-.
Qed.

(** Every amount [convertDCAAccount] hands to [toNumber] fits 53 bits. *)
Definition amounts_fit (account : Account.t) (type : OrderType) : bool :=
  fits (inUsed account) && fits (inAmountPerCycle account)
  && fits (inDeposited account)
  && fits (inDeposited account - inWithdrawn account)
  && fits (cycleFrequency account) && fits (nextCycleAt account)
  && fits (outWithdrawn account)
  && match type with
     | BUY => from_option fits true (maxOutAmount account)
     | SELL => from_option fits true (minOutAmount account)
     end.

(** The accounts [convertDCAAccount] accepts: the amounts fit and the
    amount per cycle is not zero. *)
Definition convertible (account : Account.t) (type : OrderType) : bool :=
  amounts_fit account type
  && negb (inAmountPerCycle account =? 0)%Z
  && fits (inAmountPerCycle account - Z.rem (inUsed account) (inAmountPerCycle account)).

Lemma fits_quot (a b : Z) : b <> 0%Z -> fits a = true -> fits (Z.quot a b) = true.
Proof.
  unfold fits. intros Hb Ha. apply Z.ltb_lt in Ha. apply Z.ltb_lt.
  rewrite <- Z.quot_abs by assumption.
  assert (0 <= Z.abs a)%Z by apply Z.abs_nonneg.
  assert (0 < Z.abs b)%Z by (apply Z.abs_pos; assumption).
  assert (Z.abs a ÷ Z.abs b <= Z.abs a)%Z by (apply Z.quot_le_upper_bound; nia).
  lia.
Qed.

Lemma convert_total account price token type amounts :
  convertible account type = true ->
  exists p, convertDCAAccount account price token type amounts = Ok p.
Proof.
  unfold convertible, amounts_fit. rewrite !andb_true_iff, negb_true_iff.
  intros (((((((((Hu & Hp) & Hd) & Ht) & Hf) & Hn) & Ho) & Hlim) & Hz) & Hr).
  unfold convertDCAAccount, BN.mod_, BN.div. rewrite Hz.
  rewrite !toNumber_fits by assumption. cbn [mbind result_bind mret result_ret].
  rewrite !toNumber_fits
    by (assumption || (apply fits_quot; [now apply Z.eqb_neq | assumption])).
  cbn [mbind result_bind mret result_ret].
  destruct type; cbn [mbind result_bind mret result_ret].
  all: try (destruct (maxOutAmount account) as [maxOut|]; cbn in Hlim;
            [rewrite (toNumber_fits maxOut) by assumption|]).
  all: try (destruct (minOutAmount account) as [minOut|]; cbn in Hlim;
            [rewrite (toNumber_fits minOut) by assumption|]).
  all: destruct (JS.gt0 (JS.number_of_Z (inUsed account)));
    cbn [mbind result_bind mret result_ret]; eauto.
Qed.

Lemma convert_Ok_convertible account price token type amounts p :
  convertDCAAccount account price token type amounts = Ok p ->
  convertible account type = true.
Proof.
  intros H. unfold convertDCAAccount in H.
  bind_inv H as used Hu. bind_inv H as perCycle Hp. bind_inv H as deposited Hd.
  bind_inv H as total Ht. bind_inv H as frequency Hf. bind_inv H as nextCycle Hn.
  apply toNumber_Ok in Hu as [Hu _], Hp as [Hp _], Hd as [Hd _],
    Ht as [Ht _], Hf as [Hf _], Hn as [Hn _].
  bind_inv H as executionPrice He. bind_inv H as maxPrice Hmax.
  bind_inv H as minPrice Hmin. bind_inv H as r Hr.
  unfold BN.mod_ in Hr.
  destruct (inAmountPerCycle account =? 0)%Z eqn:Hz; [discriminate|].
  injection Hr as <-.
  bind_inv H as raw Hraw. apply toNumber_Ok in Hraw as [Hraw _].
  bind_inv H as division Hdiv. bind_inv H as d' Hd'. bind_inv H as o' Ho'.
  apply toNumber_Ok in Ho' as [Ho' _].
  unfold convertible, amounts_fit.
  rewrite Hu, Hp, Hd, Ht, Hf, Hn, Ho', Hz, Hraw. cbn [andb negb].
  destruct type.
  - destruct (maxOutAmount account) as [maxOut|]; [|reflexivity].
    bind_inv Hmax as m Hm. apply toNumber_Ok in Hm as [Hm _]. cbn. now rewrite Hm.
  - destruct (minOutAmount account) as [minOut|]; [|reflexivity].
    bind_inv Hmin as m Hm. apply toNumber_Ok in Hm as [Hm _]. cbn. now rewrite Hm.
Qed.

(** With a zero amount per cycle and amounts that fit, the conversion gets
    as far as [inUsed.mod(inAmountPerCycle)], which throws. *)
Lemma convert_zero_cycle account price token type amounts :
  inAmountPerCycle account = 0%Z ->
  amounts_fit account type = true ->
  convertDCAAccount account price token type amounts = Throw assertion_failed.
Proof.
  intros Hz. unfold amounts_fit. rewrite !andb_true_iff.
  intros (((((((Hu & Hp) & Hd) & Ht) & Hf) & Hn) & Ho) & Hlim).
  unfold convertDCAAccount, BN.mod_. rewrite Hz in *.
  rewrite !toNumber_fits by assumption. cbn [mbind result_bind mret result_ret].
  rewrite ?toNumber_fits by assumption.
  destruct type; cbn [mbind result_bind mret result_ret].
  all: try (destruct (maxOutAmount account) as [maxOut|]; cbn in Hlim;
            [rewrite (toNumber_fits maxOut) by assumption|]).
  all: try (destruct (minOutAmount account) as [minOut|]; cbn in Hlim;
            [rewrite (toNumber_fits minOut) by assumption|]).
  all: destruct (JS.gt0 (JS.number_of_Z (inUsed account)));
    cbn [mbind result_bind mret result_ret]; reflexivity.
Qed.

(** The only errors a conversion throws are the two bn.js assertions. *)
Lemma convert_Throw account price token type amounts e :
  convertDCAAccount account price token type amounts = Throw e ->
  e = too_large \/ e = assertion_failed.
Proof.
  intros H. unfold convertDCAAccount, BN.mod_, BN.div in H.
  throw_inv H; try (now left);
    try (injection H as <-; now right).
Qed.

End ConverterFacts.

(** ** The converter and its lookups *)

Section AsyncFacts.

Local Open Scope float_scope.
Import Account.

Variable StringToNumber : string -> number.
Variable ObjectToNumber : Json.t -> result number.
Variable rpc : Rpc.request -> result Json.t.

(** Lines 249 to 266: the most recent transaction of an account, parsed. *)
Definition recent_amounts (accountKey : string) : result (option TxAmounts.t) :=
  txHash ← getRecentTransactionForAccount
             (fun accountKey => rpc (Rpc.getSignaturesForAddress accountKey 1))
             accountKey;
  txDetails ← rpc (Rpc.getTransaction txHash);
  mret (parseTransactionAmounts StringToNumber ObjectToNumber txDetails).

Ltac scrutinize r :=
  lazymatch r with
  | match ?r' with Ok _ => _ | Throw _ => _ end => scrutinize r'
  | (if ?c then _ else _) => destruct c
  | match ?t with BUY => _ | SELL => _ end => destruct t
  | match ?o with Some _ => _ | None => _ end => destruct o
  | _ => destruct r as [?|?]
  end.

Ltac run_traced :=
  repeat (lazy beta iota zeta
               delta [mbind mret traced_bind traced_ret result_bind result_ret
                      quiet console_log fst];
          try reflexivity;
          match goal with
          | |- context [match ?r with Ok _ => _ | Throw _ => _ end] => scrutinize r
          | |- context [if ?c then (Ok tt, _) else _] => destruct c
          end).

(** The outcome of [Async.convertDCAAccount] is that of the computation on
    the account, between the lookups: the first lookup is awaited before
    anything is computed, the other two once every call of bn.js has
    returned. *)
Lemma convertDCAAccount_result account price token type :
  fst (Async.convertDCAAccount StringToNumber ObjectToNumber rpc account price token type) =
    (_ ← getDCATransactions rpc (publicKey account);
     _ ← convertDCAAccount account price token type None;
     amounts ← recent_amounts (publicKey account);
     convertDCAAccount account price token type amounts).
Proof.
  unfold Async.convertDCAAccount, convertDCAAccount, recent_amounts.
  run_traced.
Qed.

Lemma async_Ok account price token type p :
  fst (Async.convertDCAAccount StringToNumber ObjectToNumber rpc account price token type)
  = Ok p ->
  exists transactions amounts,
    getDCATransactions rpc (publicKey account) = Ok transactions /\
    recent_amounts (publicKey account) = Ok amounts /\
    convertDCAAccount account price token type amounts = Ok p.
Proof.
  rewrite convertDCAAccount_result. intros H.
  bind_inv H as transactions Ht. bind_inv H as p0 H0. bind_inv H as amounts Ha.
  eauto.
Qed.

Lemma async_total account price token type :
  is_ok (getDCATransactions rpc (publicKey account)) = true ->
  is_ok (recent_amounts (publicKey account)) = true ->
  convertible account type = true ->
  exists p,
    fst (Async.convertDCAAccount StringToNumber ObjectToNumber rpc account price token type)
    = Ok p.
Proof.
  intros Ht Ha Hc. rewrite convertDCAAccount_result.
  destruct (getDCATransactions rpc (publicKey account)) as [t|e]; [|discriminate].
  destruct (recent_amounts (publicKey account)) as [amounts|e]; [|discriminate].
  cbn [mbind result_bind].
  destruct (convert_total account price token type None Hc) as [p0 ->].
  cbn [mbind result_bind]. now apply convert_total.
Qed.

Lemma async_Throw account price token type e :
  fst (Async.convertDCAAccount StringToNumber ObjectToNumber rpc account price token type)
  = Throw e ->
  getDCATransactions rpc (publicKey account) = Throw e \/
  (is_ok (getDCATransactions rpc (publicKey account)) = true /\
   convertible account type = false /\
   (e = too_large \/ e = assertion_failed)) \/
  (is_ok (getDCATransactions rpc (publicKey account)) = true /\
   convertible account type = true /\
   recent_amounts (publicKey account) = Throw e).
Proof.
  rewrite convertDCAAccount_result.
  destruct (getDCATransactions rpc (publicKey account)) as [t|e0];
    [|intros [= ->]; now left].
  cbn [mbind result_bind is_ok]. intros H. right.
  destruct (convertible account type) eqn:Hc.
  - destruct (convert_total account price token type None Hc) as [p0 H0].
    rewrite H0 in H. cbn [mbind result_bind] in H.
    destruct (recent_amounts (publicKey account)) as [amounts|e0].
    + cbn [mbind result_bind] in H.
      destruct (convert_total account price token type amounts Hc) as [p Hp].
      rewrite Hp in H. discriminate H.
    + injection H as ->. right. auto.
  - destruct (convertDCAAccount account price token type None) as [p0|e0] eqn:H0.
    + pose proof (convert_Ok_convertible _ _ _ _ _ _ H0). congruence.
    + injection H as ->. left. apply convert_Throw in H0. auto.
Qed.

End AsyncFacts.

(** ** Concrete accounts *)

(** The account of the spec's scenario: a BUY of CHAOS paid in USDC, one
    cycle of two used up exactly. *)
Definition scenario_account : Account.t := {|
  Account.publicKey := "9xQeWvG816bUx9EPjHmaT23yvVM2ZWbrrpZb9PusVFin";
  Account.user := "5Q544fKrFoe6tsEbD7S8EmxGTJYAKtTVhAW5Q5pge4j1";
  Account.inputMint := "EPjFWdd5AufqSSqeM2qN1xzybapC8G4wEGGkZwyTDt1v";
  Account.outputMint := CHAOS_MINT;
  Account.idx := 0;
  Account.nextCycleAt := 1700000000;
  Account.inDeposited := 1000000000;
  Account.inWithdrawn := 0;
  Account.outWithdrawn := 0;
  Account.inUsed := 607037037;
  Account.inAmountPerCycle := 607037037;
  Account.cycleFrequency := 60;
  Account.bump := 255;
  Account.minOutAmount := None;
  Account.maxOutAmount := None |}.

(** [account] with other amounts. *)
Definition with_amounts (account : Account.t)
    (deposited withdrawn used perCycle : Z) : Account.t := {|
  Account.publicKey := Account.publicKey account;
  Account.user := Account.user account;
  Account.inputMint := Account.inputMint account;
  Account.outputMint := Account.outputMint account;
  Account.idx := Account.idx account;
  Account.nextCycleAt := Account.nextCycleAt account;
  Account.inDeposited := deposited;
  Account.inWithdrawn := withdrawn;
  Account.outWithdrawn := Account.outWithdrawn account;
  Account.inUsed := used;
  Account.inAmountPerCycle := perCycle;
  Account.cycleFrequency := Account.cycleFrequency account;
  Account.bump := Account.bump account;
  Account.minOutAmount := Account.minOutAmount account;
  Account.maxOutAmount := Account.maxOutAmount account |}.

(** The same order with a zero amount per cycle. *)
Definition zero_cycle_account : Account.t :=
  with_amounts scenario_account 1000000000 0 607037037 0.

(** An order that has used twice what was deposited: 2 cycles completed
    of 1. *)
Definition over_used_account : Account.t :=
  with_amounts scenario_account 100000000 0 200000000 100000000.

(** The answer of the RPC node to a request it refuses, and a node that
    refuses every request. *)
Definition rpc_error : Json.t :=
  Json.Obj [("jsonrpc", Json.Str "2.0");
            ("error", Json.Obj [("code", Json.Num (-32602)%float)]);
            ("id", Json.Str "my-id")].

Definition refusing_rpc : Rpc.request -> result Json.t := fun _ => Ok rpc_error.

(** Conversions that know no number. *)
Definition nan_of_string : string -> number := fun _ => PrimFloat.nan.
Definition nan_of_object : Json.t -> result number := fun _ => Ok PrimFloat.nan.

(** ** The spec's scenario *)

Section Scenario.

Local Open Scope float_scope.
Import Account.

(** C1, as the spec states it, fails: the converter returns
    [remainingInCycle = 607.037037], not [0]. *)
Lemma C1_counterexample :
  ~ exists p,
      convertDCAAccount scenario_account 1 "CHAOS" BUY None = Ok p /\
      Position.totalCycles p = 2 /\
      Position.completedCycles p = 1 /\
      Position.remainingInCycle p = 0.
Proof.
  intros (p & Hp & _ & _ & Hr).
  vm_compute in Hp. injection Hp as <-.
  cbn [Position.remainingInCycle] in Hr.
  apply (f_equal (fun x => PrimFloat.eqb x 0)) in Hr.
  vm_compute in Hr. discriminate Hr.
Qed.

(** C1 (amended): for a raw account with [deposited = 1_000_000_000],
    [withdrawn = 0], [used = 607_037_037], [amountPerCycle = 607_037_037]
    and scale [10^6], a conversion that returns gives [totalCycles = 2],
    [completedCycles = 1.0] and [remainingInCycle = 607037037 / 10^6]: at a
    cycle boundary the whole next cycle remains. *)
Theorem C1_scenario_position account price token type amounts p :
  inDeposited account = 1000000000%Z ->
  inWithdrawn account = 0%Z ->
  inUsed account = 607037037%Z ->
  inAmountPerCycle account = 607037037%Z ->
  convertDCAAccount account price token type amounts = Ok p ->
  Position.totalCycles p = 2 /\
  Position.completedCycles p = 1 /\
  Position.remainingInCycle p = 607037037 / 1000000.
Proof.
  intros Hd Hw Hu Ha H.
  apply convert_Ok in H as (_ & _ & _ & _ & -> & -> & _ & -> & _).
  rewrite Hd, Hu, Ha. repeat split; vm_compute; reflexivity.
Qed.

Lemma C1_scenario_position_witness :
  exists p,
    convertDCAAccount scenario_account 1 "CHAOS" BUY None = Ok p /\
    Position.totalCycles p = 2 /\
    Position.completedCycles p = 1 /\
    Position.remainingInCycle p = 607037037 / 1000000.
Proof.
  eexists. split.
  - vm_compute. reflexivity.
  - apply (C1_scenario_position scenario_account 1 "CHAOS" BUY None);
      vm_compute; reflexivity.
Defined.

End Scenario.

(** ** A zero amount per cycle *)

Section ZeroCycle.

Local Open Scope float_scope.
Import Account.

(** The spec's name for the error it asks for; nothing in the code
    throws it. *)
Definition MalformedAccount : JS.thrown := JS.JsError "MalformedAccount".

(** The cycle counts of a zero amount per cycle are NaN or an infinity. *)
Lemma cycles_zero_not_finite (deposited used : number) :
  let c := cycles deposited used (JS.number_of_Z 0) in
  JS.finite (c_totalCycles c) = false /\
  JS.finite (c_completedFullCycles c) = false.
Proof.
  assert (Hz : Prim2SF (JS.number_of_Z 0) = S754_zero false) by reflexivity.
  cbn [cycles c_totalCycles c_completedFullCycles]. split.
  - apply Math_ceil_not_finite. now apply div_zero_not_finite with (s := false).
  - rewrite Math_floor_not_finite; now apply div_zero_not_finite with (s := false).
Qed.

(** What a conversion logs before it throws. *)
Lemma In_logged_earlier {A B : Type} (m : traced A) (f : A -> traced B)
    (entry : Console.entry) :
  In entry (snd m) -> In entry (snd (m ≫= f)).
Proof.
  destruct m as [[a|e] logged]; cbn; [|auto].
  destruct (f a). cbn. intros H. apply in_or_app. now left.
Qed.

Lemma In_logged_later {A B : Type} (m : traced A) (f : A -> traced B)
    (a : A) (entry : Console.entry) :
  fst m = Ok a -> In entry (snd (f a)) -> In entry (snd (m ≫= f)).
Proof.
  destruct m as [r logged]. cbn [fst]. intros ->. cbn.
  destruct (f a). cbn. intros H. apply in_or_app. now right.
Qed.

(** The entry logged under 'Cycles calculation:' shows [totalCycles] and
    the quotient [used / amountPerCycle]. *)
Definition logs_cycles (logged : list Console.entry) (totalCycles completed : number)
  : Prop :=
  exists fields,
    In [Console.Str "Cycles calculation:"; Console.Rec fields] logged /\
    Console.field "totalCycles" fields = Some (Console.Num totalCycles) /\
    Console.field "rawCompletedCycles" fields = Some (Console.Num completed).

Section ZeroCycleRun.

Variable StringToNumber : string -> number.
Variable ObjectToNumber : Json.t -> result number.
Variable rpc : Rpc.request -> result Json.t.

(** Once the first lookup has answered and the first six amounts are
    converted, the cycle counts are computed and logged, whatever follows. *)
Lemma cycles_logged account price token type transactions :
  getDCATransactions rpc (publicKey account) = Ok transactions ->
  fits (inUsed account) = true ->
  fits (inAmountPerCycle account) = true ->
  fits (inDeposited account) = true ->
  fits (inDeposited account - inWithdrawn account) = true ->
  fits (cycleFrequency account) = true ->
  fits (nextCycleAt account) = true ->
  logs_cycles
    (snd (Async.convertDCAAccount StringToNumber ObjectToNumber rpc
            account price token type))
    (c_totalCycles (cycles (JS.number_of_Z (inDeposited account))
                           (JS.number_of_Z (inUsed account))
                           (JS.number_of_Z (inAmountPerCycle account))))
    (JS.number_of_Z (inUsed account) / JS.number_of_Z (inAmountPerCycle account)).
Proof.
  intros Ht Hu Hp Hd Hw Hf Hn. unfold logs_cycles, Async.convertDCAAccount.
  rewrite Ht, (toNumber_fits _ Hu), (toNumber_fits _ Hp), (toNumber_fits _ Hd),
    (toNumber_fits _ Hw), (toNumber_fits _ Hf), (toNumber_fits _ Hn).
  eexists. split.
  - do 6 (eapply In_logged_later; [reflexivity|]).
    eapply In_logged_later; [now destruct (_ <? _)|].
    do 5 (eapply In_logged_later; [reflexivity|]).
    apply In_logged_earlier. now left.
  - split; reflexivity.
Qed.

End ZeroCycleRun.

(** The conversion of the scenario's account with a zero amount per
    cycle, as a BUY of CHAOS at a price of 1, against a node that
    answers. *)
Definition zero_cycle_run : traced Position.t :=
  Async.convertDCAAccount nan_of_string nan_of_object refusing_rpc
    zero_cycle_account 1 "CHAOS" BUY.

(** C2, as the spec states it, fails: for the scenario's account with a
    zero amount per cycle the converter throws bn.js's 'Assertion failed',
    not [MalformedAccount], and it has divided by the zero amount before:
    the [totalCycles] it logged is [Infinity]. *)
Lemma C2_counterexample :
  fst zero_cycle_run = Throw assertion_failed /\
  fst zero_cycle_run <> Throw MalformedAccount /\
  exists completed, logs_cycles (snd zero_cycle_run) infinity completed.
Proof.
  unfold zero_cycle_run. split; [|split].
  - rewrite convertDCAAccount_result. reflexivity.
  - rewrite convertDCAAccount_result. discriminate.
  - eexists.
    apply (cycles_logged nan_of_string nan_of_object refusing_rpc
             zero_cycle_account 1 "CHAOS" BUY rpc_error); reflexivity.
Qed.

(** C2 (amended): for every raw account with [amountPerCycle = 0] the
    converter returns no Position, and the code has no [MalformedAccount]
    error and no guard. When the lookup it starts with fails, it throws
    that error, having logged nothing. When the lookup answers, it throws
    one of the two bn.js assertions; and when, moreover, the amounts fit
    53 bits, it has by then computed and logged the cycle-count divisions
    by zero ('Cycles calculation:' shows a [totalCycles] and a quotient
    [used / amountPerCycle] that are NaN or an infinity), and the error is
    'Assertion failed', from [inUsed.mod(inAmountPerCycle)]. *)
Theorem C2_zero_cycle_amount StringToNumber ObjectToNumber rpc
    account price token type :
  inAmountPerCycle account = 0%Z ->
  let run := Async.convertDCAAccount StringToNumber ObjectToNumber rpc
               account price token type in
  is_ok (fst run) = false /\
  (forall e, getDCATransactions rpc (publicKey account) = Throw e ->
             run = (Throw e, [])) /\
  (is_ok (getDCATransactions rpc (publicKey account)) = true ->
   (fst run = Throw assertion_failed \/ fst run = Throw too_large) /\
   fst run <> Throw MalformedAccount) /\
  (is_ok (getDCATransactions rpc (publicKey account)) = true ->
   amounts_fit account type = true ->
   fst run = Throw assertion_failed /\
   exists totalCycles completed,
     logs_cycles (snd run) totalCycles completed /\
     JS.finite totalCycles = false /\ JS.finite completed = false).
Proof.
  intros Hz. cbn zeta.
  assert (Hnc : convertible account type = false).
  { unfold convertible. rewrite Hz. cbn. now rewrite andb_false_r. }
  split; [|split; [|split]].
  - destruct (fst (Async.convertDCAAccount StringToNumber ObjectToNumber rpc
                     account price token type)) as [p|e] eqn:H; [|reflexivity].
    apply async_Ok in H as (_ & amounts & _ & _ & H).
    apply convert_Ok_convertible in H. congruence.
  - intros e He. unfold Async.convertDCAAccount. rewrite He. reflexivity.
  - intros Ht.
    destruct (fst (Async.convertDCAAccount StringToNumber ObjectToNumber rpc
                     account price token type)) as [p|e] eqn:H.
    + apply async_Ok in H as (_ & amounts & _ & _ & H).
      apply convert_Ok_convertible in H. congruence.
    + apply async_Throw in H as [H | [(_ & _ & [-> | ->]) | (_ & Hc & _)]].
      * rewrite H in Ht. discriminate Ht.
      * split; [now right | discriminate].
      * split; [now left | discriminate].
      * congruence.
  - intros Ht Hfit.
    destruct (getDCATransactions rpc (publicKey account)) as [transactions|e] eqn:Hl;
      [|discriminate Ht].
    split.
    + rewrite convertDCAAccount_result, Hl. cbn [mbind result_bind].
      now rewrite (convert_zero_cycle account price token type None Hz Hfit).
    + pose proof Hfit as Hfit'. unfold amounts_fit in Hfit'.
      rewrite !andb_true_iff in Hfit'.
      destruct Hfit' as (((((((Hu & Hp) & Hd) & Hw) & Hf) & Hn) & _) & _).
      do 2 eexists. split; [|split].
      * now apply (cycles_logged StringToNumber ObjectToNumber rpc
                     account price token type transactions).
      * rewrite Hz. now apply cycles_zero_not_finite.
      * rewrite Hz. now apply div_zero_not_finite with (s := false).
Qed.

Lemma C2_zero_cycle_amount_witness :
  inAmountPerCycle zero_cycle_account = 0%Z /\
  is_ok (getDCATransactions refusing_rpc (publicKey zero_cycle_account)) = true /\
  amounts_fit zero_cycle_account BUY = true /\
  fst zero_cycle_run = Throw assertion_failed /\
  exists totalCycles completed,
    logs_cycles (snd zero_cycle_run) totalCycles completed /\
    JS.finite totalCycles = false /\ JS.finite completed = false.
Proof.
  split; [reflexivity|]. split; [reflexivity|]. split; [reflexivity|].
  apply (C2_zero_cycle_amount nan_of_string nan_of_object refusing_rpc
           zero_cycle_account 1 "CHAOS" BUY); reflexivity.
Defined.

End ZeroCycle.

(** ** Price bounds *)

Section PriceBounds.

Local Open Scope float_scope.
Import Account.

(** An order of 1 raw unit per cycle, with both bounds set to 5 raw units
    of output. *)
Definition bounded_account : Account.t := {|
  Account.publicKey := Account.publicKey scenario_account;
  Account.user := Account.user scenario_account;
  Account.inputMint := Account.inputMint scenario_account;
  Account.outputMint := Account.outputMint scenario_account;
  Account.idx := 3;
  Account.nextCycleAt := 1700000000;
  Account.inDeposited := 10;
  Account.inWithdrawn := 0;
  Account.outWithdrawn := 0;
  Account.inUsed := 0;
  Account.inAmountPerCycle := 1;
  Account.cycleFrequency := 60;
  Account.bump := 255;
  Account.minOutAmount := Some 5%Z;
  Account.maxOutAmount := Some 5%Z |}.

(** C7, as the spec states it, fails: [maxPrice] is not the quotient of
    the amount per cycle by [maxOutAmount]. For 1 and 5 the converter
    returns [0.19999999999999998], the quotient of [1 / 10^6] by
    [5 / 10^6], where [1 / 5] is [0.2]. *)
Lemma C7_counterexample :
  exists p,
    convertDCAAccount bounded_account 1 "CHAOS" BUY None = Ok p /\
    Position.maxPrice p = Some (Limit 0x1.9999999999999p-3) /\
    Position.maxPrice p
    <> Some (Limit (JS.number_of_Z (inAmountPerCycle bounded_account) / JS.number_of_Z 5)).
Proof.
  eexists. split; [vm_compute; reflexivity|].
  cbn [Position.maxPrice]. split; [reflexivity|].
  intros H.
  apply (f_equal (fun bound => match bound with
                               | Some (Limit x) => PrimFloat.eqb x 0x1.999999999999ap-3
                               | _ => false
                               end)) in H.
  vm_compute in H. discriminate H.
Qed.

(** C7 (amended): the converted Position carries a price bound only for
    its own direction. For BUY, [maxPrice] is the amount per cycle over
    [maxOutAmount] when [maxOutAmount] is present and "No limit"
    otherwise, and [minPrice] is absent; for SELL, [minPrice] is
    [minOutAmount] over the amount per cycle when [minOutAmount] is
    present and absent otherwise, and [maxPrice] is absent. The quotients
    are taken between the amounts in token units: each raw amount is first
    divided by [10^6], so that the amount per cycle is the one the
    Position shows, and the bound can differ from the quotient of the raw
    amounts. *)
Theorem C7_price_bound_by_direction account price token type amounts p :
  convertDCAAccount account price token type amounts = Ok p ->
  let perCycle := JS.number_of_Z (inAmountPerCycle account) / JS.pow10_6 in
  Position.amountPerCycle p = perCycle /\
  match type with
  | BUY =>
      Position.maxPrice p =
        Some match maxOutAmount account with
             | Some maxOut => Limit (perCycle / (JS.number_of_Z maxOut / JS.pow10_6))
             | None => NoLimit
             end /\
      Position.minPrice p = None
  | SELL =>
      Position.minPrice p =
        match minOutAmount account with
        | Some minOut => Some ((JS.number_of_Z minOut / JS.pow10_6) / perCycle)
        | None => None
        end /\
      Position.maxPrice p = None
  end.
Proof.
  intros H. cbn zeta. unfold convertDCAAccount in H.
  bind_inv H as used Hu. bind_inv H as perCycle Hp. bind_inv H as deposited Hd.
  apply toNumber_Ok in Hp as [_ ->].
  bind_inv H as total Ht. bind_inv H as frequency Hf. bind_inv H as nextCycle Hn.
  bind_inv H as executionPrice He. bind_inv H as maxPrice Hmax.
  bind_inv H as minPrice Hmin. bind_inv H as r Hr.
  bind_inv H as raw Hraw. bind_inv H as division Hdiv.
  bind_inv H as d' Hd'. bind_inv H as o' Ho'.
  bind_inv H as estimatedTokens Hest.
  injection H as <-.
  cbn [Position.amountPerCycle Position.maxPrice Position.minPrice].
  split; [reflexivity|].
  destruct type.
  - injection Hmin as <-. split; [|reflexivity].
    destruct (maxOutAmount account) as [maxOut|]; [|now injection Hmax as <-].
    bind_inv Hmax as m Hm. apply toNumber_Ok in Hm as [_ ->]. now injection Hmax as <-.
  - injection Hmax as <-. split; [|reflexivity].
    destruct (minOutAmount account) as [minOut|]; [|now injection Hmin as <-].
    bind_inv Hmin as m Hm. apply toNumber_Ok in Hm as [_ ->]. now injection Hmin as <-.
Qed.

Lemma C7_price_bound_by_direction_witness :
  (exists p,
     convertDCAAccount bounded_account 1 "CHAOS" BUY None = Ok p /\
     Position.maxPrice p = Some (Limit 0x1.9999999999999p-3) /\
     Position.minPrice p = None) /\
  (exists p,
     convertDCAAccount bounded_account 1 "CHAOS" SELL None = Ok p /\
     Position.minPrice p = Some 0x1.4000000000001p+2 /\
     Position.maxPrice p = None) /\
  (exists p,
     convertDCAAccount scenario_account 1 "CHAOS" BUY None = Ok p /\
     Position.maxPrice p = Some NoLimit /\
     Position.minPrice p = None).
Proof.
  split; [|split]; eexists; (split; [vm_compute; reflexivity|]).
  - exact (proj2 (C7_price_bound_by_direction bounded_account 1 "CHAOS" BUY None _ eq_refl)).
  - exact (proj2 (C7_price_bound_by_direction bounded_account 1 "CHAOS" SELL None _ eq_refl)).
  - exact (proj2 (C7_price_bound_by_direction scenario_account 1 "CHAOS" BUY None _ eq_refl)).
Defined.

End PriceBounds.

(** ** Facts about the aggregator *)

Section AggregatorFacts.

Local Open Scope float_scope.
Import Account.

Context {A : Type}.
Variable g : A -> result number.
Variable h : number -> number -> number.

(** The shape of every [reduce] callback in the aggregator. *)
Definition step (sum : number) (a : A) : result number :=
  v ← g a; mret (h sum v).

Lemma reduce_cons (a : A) (l : list A) (init : number) :
  reduce step (a :: l) init =
  match g a with
  | Ok v => reduce step l (h init v)
  | Throw e => Throw e
  end.
Proof. unfold step. cbn. destruct (g a); reflexivity. Qed.

Lemma reduce_is_ok (l : list A) (init : number) :
  is_ok (reduce step l init) = forallb (fun a => is_ok (g a)) l.
Proof.
  revert init. induction l as [|a l IH]; intros init; [reflexivity|].
  rewrite reduce_cons. cbn [forallb].
  destruct (g a) as [v|e]; cbn; [apply IH | reflexivity].
Qed.

Lemma reduce_Throw (l : list A) (init : number) (e : JS.thrown) :
  reduce step l init = Throw e -> exists a, In a l /\ g a = Throw e.
Proof.
  revert init. induction l as [|a l IH]; intros init; [discriminate|].
  rewrite reduce_cons.
  destruct (g a) as [v|e'] eqn:Hg.
  - intros H. apply IH in H as (a' & Hin & Ha'). exists a'. split; [now right | assumption].
  - intros [= ->]. exists a. split; [now left | assumption].
Qed.

(** A property of the running sum that every step establishes, and keeps,
    holds of the result as soon as there is one step. *)
Lemma reduce_establishes (P : number -> Prop) (l : list A) (init : number) (r : number) :
  (forall sum a v, In a l -> g a = Ok v -> P (h sum v)) ->
  l <> [] ->
  reduce step l init = Ok r -> P r.
Proof.
  revert init. induction l as [|a l IH]; intros init Hstep Hne; [contradiction|].
  rewrite reduce_cons.
  destruct (g a) as [v|e] eqn:Hg; [|discriminate].
  destruct l as [|a' l'].
  - cbn. intros [= <-]. apply (Hstep init a v); [now left | assumption].
  - apply IH; [|discriminate].
    intros sum a0 v0 Hin. apply Hstep. now right.
Qed.

(** A property of the running sum that holds at the start and that every
    step keeps holds of the result. *)
Lemma reduce_preserves (P : number -> Prop) (l : list A) (init : number) (r : number) :
  (forall sum a v, In a l -> g a = Ok v -> P sum -> P (h sum v)) ->
  P init ->
  reduce step l init = Ok r -> P r.
Proof.
  revert init. induction l as [|a l IH]; intros init Hstep Hinit.
  - cbn. now intros [= <-].
  - rewrite reduce_cons.
    destruct (g a) as [v|e] eqn:Hg; [|discriminate].
    apply IH.
    + intros sum a0 v0 Hin. apply Hstep. now right.
    + apply (Hstep init a v); [now left | assumption | assumption].
Qed.

End AggregatorFacts.

Section SummaryFacts.

Local Open Scope float_scope.
Import Account.

Lemma remainingUSDC_Throw acc e : remainingUSDC acc = Throw e -> e = too_large.
Proof. unfold remainingUSDC. intros H. throw_inv H; reflexivity. Qed.

Lemma sellAmount_Throw acc e : sellAmount acc = Throw e -> e = too_large.
Proof. unfold sellAmount. intros H. throw_inv H; reflexivity. Qed.

(** The four amounts the aggregator converts. *)
Definition summable (acc : Account.t) : bool :=
  fits (inDeposited acc) && fits (inAmountPerCycle acc) && fits (inUsed acc)
  && fits (inDeposited acc - inWithdrawn acc).

Lemma remainingUSDC_summable acc : summable acc = true -> is_ok (remainingUSDC acc) = true.
Proof.
  unfold summable. rewrite !andb_true_iff. intros (((Hd & Ha) & Hu) & _).
  unfold remainingUSDC. now rewrite !toNumber_fits by assumption.
Qed.

Lemma sellAmount_summable acc : summable acc = true -> is_ok (sellAmount acc) = true.
Proof.
  unfold summable. rewrite !andb_true_iff. intros (_ & Hs).
  unfold sellAmount. now rewrite !toNumber_fits by assumption.
Qed.

Lemma summarize_Ok orders price s :
  summarize orders price = Ok s ->
  buyVolume_of (Orders.buys orders) price = Ok (TokenSummary.buyVolume s) /\
  sellVolume_of (Orders.sells orders) = Ok (TokenSummary.sellVolume s) /\
  buyVolumeUSDC_of (Orders.buys orders) = Ok (TokenSummary.buyVolumeUSDC s) /\
  sellVolumeUSDC_of (Orders.sells orders) price = Ok (TokenSummary.sellVolumeUSDC s) /\
  TokenSummary.buyOrders s = length (List.filter isOrderActive (Orders.buys orders)) /\
  TokenSummary.sellOrders s = length (List.filter isOrderActive (Orders.sells orders)) /\
  TokenSummary.price s = price.
Proof.
  unfold summarize. intros H.
  bind_inv H as bv Hbv. bind_inv H as sv Hsv.
  bind_inv H as bu Hbu. bind_inv H as su Hsu.
  injection H as <-. cbn. auto 10.
Qed.

Lemma summarize_Throw orders price e :
  summarize orders price = Throw e -> e = too_large.
Proof.
  unfold summarize, buyVolume_of, sellVolume_of, buyVolumeUSDC_of, sellVolumeUSDC_of.
  intros H. throw_inv H.
  all: match goal with
       | H : reduce _ _ _ = Throw _ |- _ =>
           apply reduce_Throw in H as (acc & _ & H)
       end.
  all: first [ now apply remainingUSDC_Throw in H | now apply sellAmount_Throw in H ].
Qed.

Lemma calculateSummary_Ok accountsByToken prices summary :
  calculateSummaryFromRawAccounts accountsByToken prices = Ok summary ->
  exists logos chaos,
    summarize (ByToken.LOGOS accountsByToken) (ByToken.LOGOS prices) = Ok logos /\
    summarize (ByToken.CHAOS accountsByToken) (ByToken.CHAOS prices) = Ok chaos /\
    summary = <["LOGOS" := logos]> (<["CHAOS" := chaos]> ∅).
Proof.
  unfold calculateSummaryFromRawAccounts. intros H.
  bind_inv H as x Hx. bind_inv H as y Hy.
  bind_inv H as logos Hl. bind_inv H as chaos Hc.
  injection H as <-. eauto.
Qed.

Lemma calculateSummary_Throw accountsByToken prices e :
  calculateSummaryFromRawAccounts accountsByToken prices = Throw e -> e = too_large.
Proof.
  unfold calculateSummaryFromRawAccounts. intros H. throw_inv H.
  all: try match goal with
       | H : reduce _ _ _ = Throw _ |- _ =>
           apply reduce_Throw in H as (acc & _ & H);
           now apply sellAmount_Throw in H
       end.
  all: now apply summarize_Throw in H.
Qed.

End SummaryFacts.

(** [x[token]] for the two tracked tokens. *)
Definition by_token {A : Type} (x : ByToken.t A) (token : string) : option A :=
  if String.eqb token "LOGOS" then Some (ByToken.LOGOS x)
  else if String.eqb token "CHAOS" then Some (ByToken.CHAOS x)
  else None.

Lemma by_token_cases {A : Type} (x : ByToken.t A) (token : string) (a : A) :
  by_token x token = Some a ->
  (token = "LOGOS" /\ a = ByToken.LOGOS x) \/ (token = "CHAOS" /\ a = ByToken.CHAOS x).
Proof.
  unfold by_token.
  destruct (String.eqb_spec token "LOGOS") as [-> | _]; [intros [= <-]; auto|].
  destruct (String.eqb_spec token "CHAOS") as [-> | _]; [intros [= <-]; auto|].
  discriminate.
Qed.

(** Every account of the four lists can be summed. *)
Definition all_summable (accountsByToken : ByToken.t Orders.t) : bool :=
  forallb summable (Orders.buys (ByToken.LOGOS accountsByToken))
  && forallb summable (Orders.sells (ByToken.LOGOS accountsByToken))
  && forallb summable (Orders.buys (ByToken.CHAOS accountsByToken))
  && forallb summable (Orders.sells (ByToken.CHAOS accountsByToken)).

Section SummaryTotal.

Local Open Scope float_scope.

Lemma forallb_filter_ok {A : Type} (p q : A -> bool) (l : list A) :
  forallb p l = true -> forallb p (List.filter q l) = true.
Proof.
  induction l as [|a l IH]; [reflexivity|]. cbn.
  rewrite andb_true_iff. intros [Ha Hl].
  destruct (q a); cbn; [rewrite Ha|]; auto.
Qed.

Lemma forallb_impl {A : Type} (p q : A -> bool) (l : list A) :
  (forall a, p a = true -> q a = true) -> forallb p l = true -> forallb q l = true.
Proof.
  intros Hpq. induction l as [|a l IH]; [reflexivity|]. cbn.
  rewrite !andb_true_iff. intros [Ha Hl]. auto.
Qed.

Lemma is_ok_true {A : Type} (r : result A) : is_ok r = true -> exists a, r = Ok a.
Proof. destruct r; [eauto | discriminate]. Qed.

Lemma reduce_summable (g : Account.t -> result number) h l init :
  (forall acc, summable acc = true -> is_ok (g acc) = true) ->
  forallb summable l = true ->
  exists r, reduce (step g h) l init = Ok r.
Proof.
  intros Hg Hl. apply is_ok_true. rewrite reduce_is_ok.
  now apply forallb_impl with (p := summable).
Qed.

Lemma summarize_total orders price :
  forallb summable (Orders.buys orders) = true ->
  forallb summable (Orders.sells orders) = true ->
  exists s, summarize orders price = Ok s.
Proof.
  intros Hb Hs.
  apply forallb_filter_ok with (q := isOrderActive) in Hb, Hs.
  unfold summarize, buyVolume_of, sellVolume_of, buyVolumeUSDC_of, sellVolumeUSDC_of.
  destruct (reduce_summable remainingUSDC (fun sum r => sum + r / price) _ 0
              remainingUSDC_summable Hb) as [bv Hbv].
  destruct (reduce_summable sellAmount (fun sum v => sum + v) _ 0
              sellAmount_summable Hs) as [sv Hsv].
  destruct (reduce_summable remainingUSDC (fun sum r => sum + r) _ 0
              remainingUSDC_summable Hb) as [bu Hbu].
  destruct (reduce_summable sellAmount (fun sum v => sum + v * price) _ 0
              sellAmount_summable Hs) as [su Hsu].
  unfold step in Hbv, Hsv, Hbu, Hsu.
  rewrite Hbv, Hsv, Hbu, Hsu. cbn. eauto.
Qed.

Lemma calculateSummary_total accountsByToken prices :
  all_summable accountsByToken = true ->
  exists summary, calculateSummaryFromRawAccounts accountsByToken prices = Ok summary.
Proof.
  unfold all_summable. rewrite !andb_true_iff. intros (((Hlb & Hls) & Hcb) & Hcs).
  unfold calculateSummaryFromRawAccounts.
  destruct (reduce_summable sellAmount (fun sum v => sum + v * ByToken.LOGOS prices) _ 0
              sellAmount_summable Hls) as [x Hx].
  destruct (reduce_summable sellAmount (fun sum v => sum + v) _ 0
              sellAmount_summable Hls) as [y Hy].
  destruct (summarize_total (ByToken.LOGOS accountsByToken) (ByToken.LOGOS prices) Hlb Hls)
    as [logos Hl].
  destruct (summarize_total (ByToken.CHAOS accountsByToken) (ByToken.CHAOS prices) Hcb Hcs)
    as [chaos Hc].
  unfold step in Hx, Hy. rewrite Hx, Hy, Hl, Hc. cbn. eauto.
Qed.

(** The summary, from its two entries. *)
Lemma calculateSummary_entries accountsByToken prices logos chaos :
  forallb summable (Orders.sells (ByToken.LOGOS accountsByToken)) = true ->
  summarize (ByToken.LOGOS accountsByToken) (ByToken.LOGOS prices) = Ok logos ->
  summarize (ByToken.CHAOS accountsByToken) (ByToken.CHAOS prices) = Ok chaos ->
  calculateSummaryFromRawAccounts accountsByToken prices =
    Ok (<["LOGOS" := logos]> (<["CHAOS" := chaos]> ∅)).
Proof.
  intros Hls Hl Hc. unfold calculateSummaryFromRawAccounts.
  destruct (reduce_summable sellAmount (fun sum v => sum + v * ByToken.LOGOS prices) _ 0
              sellAmount_summable Hls) as [x Hx].
  destruct (reduce_summable sellAmount (fun sum v => sum + v) _ 0
              sellAmount_summable Hls) as [y Hy].
  unfold step in Hx, Hy. rewrite Hx, Hy, Hl, Hc. reflexivity.
Qed.

End SummaryTotal.

(** ** A zero price *)

Section ZeroPrice.

Local Open Scope float_scope.
Import Account.

(** The spec's name for the error it asks for; nothing in the code
    throws it. *)
Definition PriceUnavailable : JS.thrown := JS.JsError "PriceUnavailable".

(** [x == 0] holds of the two zeros only. *)
Lemma eqb_zero (x : number) : (x =? 0) = true -> exists s, Prim2SF x = S754_zero s.
Proof.
  rewrite FloatAxioms.eqb_spec. change (Prim2SF 0) with (S754_zero false).
  destruct (Prim2SF x) as [s | s | | s m e]; cbn; try discriminate; eauto.
  - destruct s; discriminate.
  - destruct s; discriminate.
Qed.

Lemma filter_nonempty {A : Type} (p : A -> bool) (l : list A) (a : A) :
  In a l -> p a = true -> List.filter p l <> [].
Proof.
  intros Hin Hp Hnil.
  assert (H : In a (List.filter p l)) by (apply filter_In; auto).
  rewrite Hnil in H. contradiction.
Qed.

Lemma buyVolume_zero_price buys price v acc :
  (price =? 0) = true ->
  In acc buys -> isOrderActive acc = true ->
  buyVolume_of buys price = Ok v ->
  JS.finite v = false.
Proof.
  intros Hz Hin Hact H. apply eqb_zero in Hz as [s Hs].
  unfold buyVolume_of in H. bind_inv H as total Ht. injection H as <-.
  assert (Hnf : JS.finite total = false).
  { apply (reduce_establishes remainingUSDC (fun sum r => sum + r / price)
             (fun x => JS.finite x = false) (List.filter isOrderActive buys) 0 total);
      [| |exact Ht].
    - intros sum a r _ _. apply add_not_finite_r.
      now apply div_zero_not_finite with (s := s).
    - now apply filter_nonempty with (a := acc). }
  now rewrite Math_round_not_finite.
Qed.

(** The CHAOS buy of the scenario, quoted at [0]. *)
Definition zero_price_accounts : ByToken.t Orders.t :=
  {| ByToken.LOGOS := {| Orders.buys := []; Orders.sells := [] |};
     ByToken.CHAOS := {| Orders.buys := [scenario_account]; Orders.sells := [] |} |}.

Definition zero_prices : ByToken.t number :=
  {| ByToken.LOGOS := 0; ByToken.CHAOS := 0 |}.

(** C3, as the spec states it, fails: with a price of [0] and an active
    BUY the aggregator returns a summary; it does not throw
    [PriceUnavailable]. *)
Lemma C3_counterexample :
  (ByToken.CHAOS zero_prices =? 0) = true /\
  isOrderActive scenario_account = true /\
  calculateSummaryFromRawAccounts zero_price_accounts zero_prices <> Throw PriceUnavailable /\
  exists summary s,
    calculateSummaryFromRawAccounts zero_price_accounts zero_prices = Ok summary /\
    summary !! "CHAOS" = Some s /\
    TokenSummary.buyVolume s = infinity.
Proof.
  split; [reflexivity|]. split; [reflexivity|]. split.
  - intros H. apply calculateSummary_Throw in H. discriminate H.
  - eexists. eexists. split; [|split].
    + apply calculateSummary_entries; [reflexivity | |]; vm_compute; reflexivity.
    + now simplify_map_eq.
    + reflexivity.
Qed.

(** C3 (amended): for every token whose current price is [0] and that has
    at least one active BUY account, the Summary Aggregator throws no
    [PriceUnavailable] error (the only error it can throw is bn.js's
    53-bit assertion, and it throws none when the amounts fit): the
    summary it returns has, for that token, a [buyVolume] that is
    [Infinity] or [NaN]. *)
Theorem C3_zero_price_buy_volume accountsByToken prices token orders price acc :
  by_token accountsByToken token = Some orders ->
  by_token prices token = Some price ->
  (price =? 0) = true ->
  In acc (Orders.buys orders) -> isOrderActive acc = true ->
  calculateSummaryFromRawAccounts accountsByToken prices <> Throw PriceUnavailable /\
  (all_summable accountsByToken = true ->
   is_ok (calculateSummaryFromRawAccounts accountsByToken prices) = true) /\
  (forall summary,
     calculateSummaryFromRawAccounts accountsByToken prices = Ok summary ->
     exists s, summary !! token = Some s /\ JS.finite (TokenSummary.buyVolume s) = false).
Proof.
  intros Ho Hp Hz Hin Hact. split; [|split].
  - intros H. apply calculateSummary_Throw in H. discriminate H.
  - intros Hs. destruct (calculateSummary_total accountsByToken prices Hs) as [s ->].
    reflexivity.
  - intros summary H.
    apply calculateSummary_Ok in H as (logos & chaos & Hl & Hc & ->).
    apply by_token_cases in Ho as [[-> ->] | [-> ->]];
      apply by_token_cases in Hp as [[Ht ->] | [Ht ->]]; try discriminate Ht.
    + exists logos. split; [now simplify_map_eq|].
      apply summarize_Ok in Hl as (Hbv & _).
      now apply (buyVolume_zero_price _ _ _ acc) in Hbv.
    + exists chaos. split; [now simplify_map_eq|].
      apply summarize_Ok in Hc as (Hbv & _).
      now apply (buyVolume_zero_price _ _ _ acc) in Hbv.
Qed.

Lemma C3_zero_price_buy_volume_witness :
  exists summary s,
    calculateSummaryFromRawAccounts zero_price_accounts zero_prices = Ok summary /\
    summary !! "CHAOS" = Some s /\
    JS.finite (TokenSummary.buyVolume s) = false.
Proof.
  eexists.
  assert (Hs : calculateSummaryFromRawAccounts zero_price_accounts zero_prices = Ok _)
    by (apply calculateSummary_entries; [reflexivity | |]; vm_compute; reflexivity).
  destruct (C3_zero_price_buy_volume zero_price_accounts zero_prices "CHAOS"
              (ByToken.CHAOS zero_price_accounts) 0 scenario_account)
    as (_ & _ & H);
    [reflexivity | reflexivity | reflexivity | now left | reflexivity |].
  destruct (H _ Hs) as (s & Hl & Hf).
  exists s. split; [exact Hs|]. split; assumption.
Defined.

End ZeroPrice.

(** ** Inactive accounts *)

(** The accounts with [used <> deposited] alone. *)
Definition activeOnly (orders : Orders.t) : Orders.t :=
  {| Orders.buys := List.filter isOrderActive (Orders.buys orders);
     Orders.sells := List.filter isOrderActive (Orders.sells orders) |}.

Definition activeOnlyByToken (accountsByToken : ByToken.t Orders.t) : ByToken.t Orders.t :=
  {| ByToken.LOGOS := activeOnly (ByToken.LOGOS accountsByToken);
     ByToken.CHAOS := activeOnly (ByToken.CHAOS accountsByToken) |}.

Section Inactive.

Local Open Scope float_scope.
Import Account.

Lemma filter_idem {A : Type} (p : A -> bool) (l : list A) :
  List.filter p (List.filter p l) = List.filter p l.
Proof.
  induction l as [|a l IH]; [reflexivity|]. cbn.
  destruct (p a) eqn:Hp; cbn; [rewrite Hp, IH|]; auto.
Qed.

Lemma isOrderActive_false (account : Account.t) :
  isOrderActive account = false <-> inUsed account = inDeposited account.
Proof.
  unfold isOrderActive. rewrite negb_false_iff. apply Z.eqb_eq.
Qed.

(** An entry of the summary only depends on the active accounts. *)
Lemma summarize_activeOnly orders price :
  summarize (activeOnly orders) price = summarize orders price.
Proof.
  unfold summarize, buyVolume_of, sellVolume_of, buyVolumeUSDC_of,
    sellVolumeUSDC_of, activeOnly. cbn [Orders.buys Orders.sells].
  now rewrite !filter_idem.
Qed.

Lemma reduce_Ok_filter (g : Account.t -> result number) h h' l init init' r :
  reduce (step g h) l init = Ok r ->
  exists r', reduce (step g h') (List.filter isOrderActive l) init' = Ok r'.
Proof.
  intros H. apply is_ok_true. rewrite reduce_is_ok.
  apply forallb_filter_ok. rewrite <- (reduce_is_ok g h l init), H. reflexivity.
Qed.

Lemma calculateSummary_activeOnly accountsByToken prices summary :
  calculateSummaryFromRawAccounts accountsByToken prices = Ok summary ->
  calculateSummaryFromRawAccounts (activeOnlyByToken accountsByToken) prices = Ok summary.
Proof.
  unfold calculateSummaryFromRawAccounts. intros H.
  bind_inv H as x Hx. bind_inv Hx as x' Hx'. bind_inv H as y Hy.
  cbn [activeOnlyByToken ByToken.LOGOS ByToken.CHAOS].
  rewrite !summarize_activeOnly. cbn [activeOnly Orders.sells].
  destruct (reduce_Ok_filter sellAmount _
              (fun sum v => sum + v * ByToken.LOGOS prices) _ _ 0 _ Hx') as [x1 Hx1].
  destruct (reduce_Ok_filter sellAmount _ (fun sum v => sum + v) _ _ 0 _ Hy) as [y1 Hy1].
  unfold step in Hx1, Hy1. rewrite Hx1, Hy1. exact H.
Qed.

End Inactive.

(** ** Retries *)

Section RetryFacts.

Context {S T : Type}.
Variable sleep : Z -> S -> S.
Variable operation : S -> result T * S.

(** [operation], keeping a log of the outcome of every invocation, the
    latest first. *)
Definition logged (sl : S * list (result T)) : result T * (S * list (result T)) :=
  let '(r, s') := operation (fst sl) in (r, (s', r :: snd sl)).

Definition sleep_logged (ms : Z) (sl : S * list (result T)) : S * list (result T) :=
  (sleep ms (fst sl), snd sl).

Definition threw (r : result T) : Prop := is_ok r = false.

(** The outcome the loop ends with when every invocation threw. *)
Definition last_thrown (lastError : JS.thrown) (log : list (result T)) : result T :=
  match log with
  | [] => Throw lastError
  | r :: _ => r
  end.

Lemma withRetry_loop_logged (left : nat) :
  forall i lastError s log,
    let '(r, (s', log')) :=
      withRetry_loop sleep_logged logged left i lastError (s, log) in
    (r, s') = withRetry_loop sleep operation left i lastError s /\
    exists new,
      log' = new ++ log /\
      (length new <= left)%nat /\
      match r with
      | Ok v => exists earlier, new = Ok v :: earlier /\ Forall threw earlier
      | Throw e =>
          length new = left /\ Forall threw new /\
          last_thrown lastError new = Throw e
      end.
Proof.
  induction left as [|left IH]; intros i lastError s log.
  - cbn. split; [reflexivity|]. exists []. repeat split; auto.
  - cbn [withRetry_loop]. unfold logged at 1. cbn [fst snd].
    destruct (operation s) as [[v|e] s1] eqn:Hop.
    + split; [reflexivity|]. exists [Ok v]. repeat split; [cbn; lia|].
      exists []. split; [reflexivity | constructor].
    + specialize (IH (i + 1)%Z e (sleep (1000 * (i + 1)) s1) (Throw e :: log)).
      change (sleep_logged (1000 * (i + 1)) (s1, Throw e :: log))
        with (sleep (1000 * (i + 1)) s1, Throw e :: log).
      destruct (withRetry_loop sleep_logged logged left (i + 1) e
                  (sleep (1000 * (i + 1)) s1, Throw e :: log)) as [r [s' log']].
      destruct IH as [Heq (new & -> & Hlen & Hr)].
      split; [exact Heq|].
      exists (new ++ [Throw e]). rewrite <- app_assoc. split; [reflexivity|].
      rewrite length_app. cbn [length]. split; [lia|].
      destruct r as [v|e'].
      * destruct Hr as (earlier & -> & Hall).
        exists (earlier ++ [Throw e]). split; [reflexivity|].
        apply Forall_app. split; [assumption | repeat constructor].
      * destruct Hr as (Hn & Hall & Hlast).
        split; [lia|]. split.
        { apply Forall_app. split; [assumption | repeat constructor]. }
        destruct new; cbn in *; assumption.
Qed.

End RetryFacts.

Section PollRetries.

(** Each invocation of the fetch is one call of [dca.getAll()]. *)
Lemma fetchAll_calls (w : World.t) :
  World.getAll_calls (snd (fetchAll w)) = Datatypes.S (World.getAll_calls w).
Proof.
  unfold fetchAll. destruct (World.getAll w _) as [l|e]; [|reflexivity].
  destruct (length l =? 0)%nat; reflexivity.
Qed.

Lemma withRetry_loop_calls (left : nat) :
  forall i lastError w,
    (World.getAll_calls (snd (withRetry_loop World.sleep fetchAll left i lastError w))
     <= World.getAll_calls w + left)%nat.
Proof.
  induction left as [|left IH]; intros i lastError w; cbn [withRetry_loop].
  - cbn. lia.
  - pose proof (fetchAll_calls w) as Hc.
    destruct (fetchAll w) as [[l|e] w1]; cbn [snd] in *.
    + lia.
    + specialize (IH (i + 1)%Z e (World.sleep (1000 * (i + 1)) w1)).
      cbn [World.sleep World.getAll_calls] in IH. lia.
Qed.

Lemma getDCAAccounts_calls (w : World.t) :
  (World.getAll_calls (snd (getDCAAccounts w)) <= World.getAll_calls w + 3)%nat.
Proof.
  unfold getDCAAccounts. destruct (World.dca_initialized w); [|cbn; lia].
  pose proof (withRetry_loop_calls default_maxRetries 0 JS.JsUndefined w) as H.
  unfold withRetry.
  destruct (withRetry_loop World.sleep fetchAll default_maxRetries 0 JS.JsUndefined w)
    as [[l|e] w']; exact H.
Qed.

End PollRetries.

(** C10: [withRetry] invokes its operation at most [maxRetries] times (3
    by default, which is what [getDCAAccounts] passes, so that a poll
    calls [dca.getAll()] at most 3 times). In the log of the invocations
    (latest first): when it returns [v], the last invocation returned [v]
    and every earlier one threw; when it throws, there were exactly
    [maxRetries] invocations, each one threw, and the error is the one of
    the last invocation ([undefined] when [maxRetries] is 0). Keeping the
    log changes neither the result nor the final state. *)
Theorem C10_withRetry_bounded {S T : Type} (sleep : Z -> S -> S)
    (operation : S -> result T * S) (maxRetries : nat) (s : S) :
  let '(r, (s', log)) :=
    withRetry (sleep_logged sleep) (logged operation) maxRetries (s, []) in
  (r, s') = withRetry sleep operation maxRetries s /\
  (length log <= maxRetries)%nat /\
  match r with
  | Ok v => exists earlier, log = Ok v :: earlier /\ Forall threw earlier
  | Throw e =>
      length log = maxRetries /\ Forall threw log /\
      last_thrown JS.JsUndefined log = Throw e
  end /\
  default_maxRetries = 3%nat /\
  forall w, (World.getAll_calls (snd (getDCAAccounts w)) <= World.getAll_calls w + 3)%nat.
Proof.
  unfold withRetry.
  pose proof (withRetry_loop_logged sleep operation maxRetries 0 JS.JsUndefined s []) as H.
  destruct (withRetry_loop (sleep_logged sleep) (logged operation) maxRetries 0
              JS.JsUndefined (s, [])) as [r [s' log]].
  destruct H as [Heq (new & -> & Hlen & Hr)]. rewrite app_nil_r.
  repeat split; try assumption; try reflexivity.
  apply getDCAAccounts_calls.
Qed.

(** ** Tracked tokens *)

Section Tracked.

Import Account.

(** Neither mint of the account is a tracked mint. *)
Definition untracked (acc : Account.t) : bool :=
  negb (String.eqb (inputMint acc) LOGOS_MINT) && negb (String.eqb (inputMint acc) CHAOS_MINT)
  && negb (String.eqb (outputMint acc) LOGOS_MINT) && negb (String.eqb (outputMint acc) CHAOS_MINT).

Lemma filter_drop {A : Type} (p : A -> bool) (l1 l2 : list A) (a : A) :
  p a = false -> List.filter p (l1 ++ a :: l2) = List.filter p (l1 ++ l2).
Proof.
  intros Hp. rewrite !List.filter_app. cbn. now rewrite Hp.
Qed.

Lemma categorize_untracked (l1 l2 : list Account.t) (acc : Account.t) :
  untracked acc = true -> categorize (l1 ++ acc :: l2) = categorize (l1 ++ l2).
Proof.
  unfold untracked. rewrite !andb_true_iff, !negb_true_iff.
  intros (((Hil & Hic) & Hol) & Hoc).
  unfold categorize. now rewrite !filter_drop by assumption.
Qed.

Lemma buildPollData_untracked w (l1 l2 : list Account.t) (acc : Account.t) :
  untracked acc = true -> buildPollData w (l1 ++ acc :: l2) = buildPollData w (l1 ++ l2).
Proof.
  intros H. unfold buildPollData. now rewrite categorize_untracked.
Qed.

Lemma buildPollData_Ok w allAccounts data :
  buildPollData w allAccounts = Ok data ->
  exists logos chaos,
    PollData.summary data = <["LOGOS" := logos]> (<["CHAOS" := chaos]> ∅) /\
    PollData.chartData data =
      <["LOGOS" := chartPoint (World.now w) logos]>
        (<["CHAOS" := chartPoint (World.now w) chaos]> ∅).
Proof.
  unfold buildPollData. intros H.
  bind_inv H as summary Hs.
  apply calculateSummary_Ok in Hs as (logos & chaos & _ & _ & ->).
  bind_inv H as p1 H1. bind_inv H as p2 H2. bind_inv H as p3 H3. bind_inv H as p4 H4.
  bind_inv H as l Hl. bind_inv H as c Hc.
  unfold entry in Hl, Hc. simplify_map_eq.
  injection H as <-. cbn. eauto.
Qed.

(** What a poll returns was built from a non-empty list of accounts that
    the provider returned. *)
Lemma getDCAAccounts_Ok w data w' :
  getDCAAccounts w = (Ok data, w') ->
  exists k allAccounts,
    World.getAll w k = Ok allAccounts /\ allAccounts <> [] /\
    buildPollData w' allAccounts = Ok data.
Proof.
  unfold getDCAAccounts. destruct (World.dca_initialized w); [|discriminate].
  unfold withRetry.
  assert (Hloop : forall left i e w0 l w1,
            World.getAll w0 = World.getAll w ->
            withRetry_loop World.sleep fetchAll left i e w0 = (Ok l, w1) ->
            exists k, World.getAll w k = Ok l /\ l <> []).
  { induction left as [|left IH]; intros i e w0 l w1 Hg; cbn [withRetry_loop]; [discriminate|].
    unfold fetchAll at 1.
    destruct (World.getAll w0 (World.getAll_calls w0)) as [l0|e0] eqn:Hk.
    - destruct (length l0 =? 0)%nat eqn:Hlen.
      + apply IH. exact Hg.
      + intros [= <- <-]. exists (World.getAll_calls w0). rewrite <- Hg. split; [exact Hk|].
        intros ->. discriminate Hlen.
    - apply IH. exact Hg. }
  destruct (withRetry_loop World.sleep fetchAll default_maxRetries 0 JS.JsUndefined w)
    as [[l|e] w1] eqn:Hr; [|discriminate].
  intros [= Hb <-].
  destruct (Hloop _ _ _ _ _ _ eq_refl Hr) as (k & Hk & Hne). eauto.
Qed.

(** C9: for every list of raw accounts returned by the provider, the
    emitted summary map contains exactly the two keys LOGOS and CHAOS,
    and an account neither of whose mints is a tracked mint contributes
    nothing: without it the poll builds the same positions, summary and
    chart data. *)
Theorem C9_tracked_tokens_only (w : World.t) (data : PollData.t) (w' : World.t) :
  getDCAAccounts w = (Ok data, w') ->
  exists k allAccounts,
    World.getAll w k = Ok allAccounts /\
    buildPollData w' allAccounts = Ok data /\
    dom (PollData.summary data) = ({["LOGOS"; "CHAOS"]} : gset string) /\
    forall l1 acc l2,
      allAccounts = l1 ++ acc :: l2 -> untracked acc = true ->
      buildPollData w' (l1 ++ l2) = Ok data.
Proof.
  intros H. apply getDCAAccounts_Ok in H as (k & allAccounts & Hk & _ & Hb).
  exists k, allAccounts. split; [exact Hk|]. split; [exact Hb|]. split.
  - apply buildPollData_Ok in Hb as (logos & chaos & -> & _).
    rewrite !dom_insert_L, dom_empty_L. set_solver.
  - intros l1 acc l2 -> Hu. now rewrite <- (buildPollData_untracked w' l1 l2 acc Hu).
Qed.

End Tracked.

(** ** Polls that return *)

Section PollTotal.

Import Account.

Lemma mapM_total {A B : Type} (f : A -> result B) (l : list A) :
  forallb (fun a => is_ok (f a)) l = true -> exists bs, mapM f l = Ok bs.
Proof.
  induction l as [|a l IH]; cbn [forallb mapM]; [eauto|].
  rewrite andb_true_iff. intros [Ha Hl].
  destruct (f a) as [b|e]; [|discriminate Ha].
  destruct (IH Hl) as [bs ->]. cbn. eauto.
Qed.

(** Both lookups of the converter answer for the account. *)
Definition lookups_ok (w : World.t) (acc : Account.t) : bool :=
  is_ok (getDCATransactions (World.rpc w) (publicKey acc))
  && is_ok (recent_amounts (World.StringToNumber w) (World.ObjectToNumber w)
              (World.rpc w) (publicKey acc)).

Definition ready (w : World.t) (type : OrderType) (acc : Account.t) : bool :=
  convertible acc type && lookups_ok w acc.

Lemma ready_is_ok w type price token l :
  forallb (ready w type) l = true ->
  forallb (fun acc => is_ok (convert w price token type acc)) l = true.
Proof.
  apply forallb_impl. intros acc. unfold ready, lookups_ok. rewrite !andb_true_iff.
  intros (Hc & Ht & Ha). unfold convert.
  destruct (async_total _ _ _ acc price token type Ht Ha Hc) as [p ->].
  reflexivity.
Qed.

(** The accounts from which a poll builds its data without an error. *)
Definition poll_ready (w : World.t) (allAccounts : list Account.t) : bool :=
  let logos := ByToken.LOGOS (categorize allAccounts) in
  let chaos := ByToken.CHAOS (categorize allAccounts) in
  all_summable (categorize allAccounts)
  && forallb (ready w BUY) (List.filter isOrderActive (Orders.buys logos))
  && forallb (ready w SELL) (List.filter isOrderActive (Orders.sells logos))
  && forallb (ready w BUY) (List.filter isOrderActive (Orders.buys chaos))
  && forallb (ready w SELL) (List.filter isOrderActive (Orders.sells chaos)).

Lemma buildPollData_total w allAccounts :
  poll_ready w allAccounts = true -> exists data, buildPollData w allAccounts = Ok data.
Proof.
  unfold poll_ready. rewrite !andb_true_iff.
  intros ((((Hs & H1) & H2) & H3) & H4).
  unfold buildPollData.
  destruct (calculateSummary_total (categorize allAccounts)
              {| ByToken.LOGOS := World.quote w LOGOS_MINT;
                 ByToken.CHAOS := World.quote w CHAOS_MINT |} Hs) as [summary Hsum].
  rewrite Hsum. cbn [mbind result_bind].
  apply calculateSummary_Ok in Hsum as (logos & chaos & _ & _ & ->).
  destruct (mapM_total _ _ (ready_is_ok w BUY (World.quote w LOGOS_MINT) "LOGOS" _ H1))
    as [p1 ->].
  destruct (mapM_total _ _ (ready_is_ok w SELL (World.quote w LOGOS_MINT) "LOGOS" _ H2))
    as [p2 ->].
  destruct (mapM_total _ _ (ready_is_ok w BUY (World.quote w CHAOS_MINT) "CHAOS" _ H3))
    as [p3 ->].
  destruct (mapM_total _ _ (ready_is_ok w SELL (World.quote w CHAOS_MINT) "CHAOS" _ H4))
    as [p4 ->].
  cbn [mbind result_bind]. unfold entry. simplify_map_eq. cbn. eauto.
Qed.

(** A poll whose first fetch answers with accounts that are ready returns
    after that one call. *)
Lemma getDCAAccounts_total w allAccounts :
  World.dca_initialized w = true ->
  World.getAll w (World.getAll_calls w) = Ok allAccounts ->
  allAccounts <> [] ->
  poll_ready w allAccounts = true ->
  exists data, getDCAAccounts w = (Ok data, World.called w).
Proof.
  intros Hi Hg Hne Hr. unfold getDCAAccounts, withRetry. rewrite Hi.
  cbn [default_maxRetries withRetry_loop]. unfold fetchAll. rewrite Hg.
  destruct allAccounts as [|a l]; [contradiction|]. cbn [length Nat.eqb].
  destruct (buildPollData_total (World.called w) (a :: l) Hr) as [data ->]. eauto.
Qed.

End PollTotal.

(** A world whose provider answers with the scenario's account next to
    an account of another pair of tokens. *)
Definition other_account : Account.t := {|
  Account.publicKey := "3uetDDizgTtadDHZzyy9BqxrjQcozMEkxzbKhfZF4tG3";
  Account.user := "5Q544fKrFoe6tsEbD7S8EmxGTJYAKtTVhAW5Q5pge4j1";
  Account.inputMint := "EPjFWdd5AufqSSqeM2qN1xzybapC8G4wEGGkZwyTDt1v";
  Account.outputMint := "So11111111111111111111111111111111111111112";
  Account.idx := 1;
  Account.nextCycleAt := 1700000000;
  Account.inDeposited := 9007199254740993;
  Account.inWithdrawn := 0;
  Account.outWithdrawn := 0;
  Account.inUsed := 0;
  Account.inAmountPerCycle := 0;
  Account.cycleFrequency := 60;
  Account.bump := 254;
  Account.minOutAmount := None;
  Account.maxOutAmount := None |}.

Definition poll_world : World.t := {|
  World.dca_initialized := true;
  World.getAll := fun _ => Ok [other_account; scenario_account];
  World.getAll_calls := 0;
  World.slept := [];
  World.quote := fun _ => 0x1p-10%float;
  World.rpc := refusing_rpc;
  World.StringToNumber := nan_of_string;
  World.ObjectToNumber := nan_of_object;
  World.now := 1700000000000 |}.

Lemma poll_world_returns :
  exists data, getDCAAccounts poll_world = (Ok data, World.called poll_world).
Proof.
  apply (getDCAAccounts_total poll_world [other_account; scenario_account]);
    [reflexivity | reflexivity | discriminate | reflexivity].
Defined.

Lemma C9_tracked_tokens_only_witness :
  exists data w' k allAccounts,
    getDCAAccounts poll_world = (Ok data, w') /\
    World.getAll poll_world k = Ok allAccounts /\
    buildPollData w' allAccounts = Ok data /\
    dom (PollData.summary data) = ({["LOGOS"; "CHAOS"]} : gset string).
Proof.
  destruct poll_world_returns as [data Hd].
  exists data, (World.called poll_world).
  destruct (C9_tracked_tokens_only poll_world data _ Hd)
    as (k & allAccounts & Hk & Hb & Hdom & _).
  exists k, allAccounts. split; [exact Hd|].
  split; [exact Hk|]. split; [exact Hb | exact Hdom].
Defined.

(** ** The published time series *)

Section TimeSeries.

(** A poll that returns replaces the published series of both tokens by
    the one-point series it built. *)
Lemma fetchData_series st w data w' token :
  getDCAAccounts w = (Ok data, w') ->
  token = "LOGOS" \/ token = "CHAOS" ->
  exists point, Dashboard.series (fst (Dashboard.fetchData st w)) token = [point].
Proof.
  intros H Ht. unfold Dashboard.fetchData, Dashboard.series. rewrite H.
  cbn [fst Dashboard.chartData Dashboard.settled].
  apply getDCAAccounts_Ok in H as (k & allAccounts & _ & _ & Hb).
  apply buildPollData_Ok in Hb as (logos & chaos & _ & ->).
  destruct Ht as [-> | ->]; simplify_map_eq; cbn; eauto.
Qed.

(** Every poll of the list returns. *)
Definition all_succeed (ws : list World.t) : Prop :=
  Forall (fun w => is_ok (fst (getDCAAccounts w)) = true) ws.

(** C8, as the spec states it, fails: after two polls that both return,
    the series of a token has one point, not two. *)
Lemma C8_counterexample :
  all_succeed [poll_world; poll_world] /\
  length (Dashboard.series
            (Dashboard.polls (Dashboard.initial 0) [poll_world; poll_world]) "CHAOS")
  <> 2%nat.
Proof.
  destruct poll_world_returns as [data Hd]. split.
  - unfold all_succeed. rewrite !Forall_cons, Hd. repeat split; constructor.
  - unfold Dashboard.polls. cbn [fold_left].
    destruct (fetchData_series (fst (Dashboard.fetchData (Dashboard.initial 0) poll_world))
                poll_world data _ "CHAOS" Hd ltac:(now right)) as [point ->].
    discriminate.
Qed.

(** C8 (amended): across successive polls that return, the published
    series of each tracked token is replaced, not extended: each poll
    publishes the one-point series it built, so after [n >= 1] polls the
    series contains exactly one point. *)
Theorem C8_series_replaced (st : Dashboard.t) (ws : list World.t) (token : string) :
  all_succeed ws -> ws <> [] ->
  token = "LOGOS" \/ token = "CHAOS" ->
  length (Dashboard.series (Dashboard.polls st ws) token) = 1%nat.
Proof.
  intros Hall Hne Ht. unfold Dashboard.polls.
  destruct (exists_last Hne) as (ws' & w & ->).
  rewrite fold_left_app. cbn [fold_left].
  apply Forall_app in Hall as [_ Hw]. inversion Hw as [|? ? Hok _]; subst.
  destruct (getDCAAccounts w) as [[data|e] w'] eqn:Hg; [|discriminate Hok].
  destruct (fetchData_series (fold_left (fun st w => fst (Dashboard.fetchData st w)) ws' st)
              w data w' token Hg Ht) as [point ->].
  reflexivity.
Qed.

Lemma C8_series_replaced_witness :
  all_succeed [poll_world; poll_world] /\
  length (Dashboard.series
            (Dashboard.polls (Dashboard.initial 0) [poll_world; poll_world]) "CHAOS")
  = 1%nat.
Proof.
  assert (H : all_succeed [poll_world; poll_world]).
  { destruct poll_world_returns as [data Hd].
    unfold all_succeed. rewrite !Forall_cons, Hd. repeat split; constructor. }
  split; [exact H|].
  apply (C8_series_replaced (Dashboard.initial 0) [poll_world; poll_world] "CHAOS" H);
    [discriminate | now right].
Defined.

End TimeSeries.

(** * Binary64 arithmetic on amounts

    The amounts the code divides are integers below [2^53], which
    [toNumber] converts exactly. This part derives, from the specification
    of the binary64 operations ([SpecFloat]), what the divisions, the
    roundings and the sums of the code compute on them. *)

(** ** Bit lengths *)
Section Digits.

Definition bitlen (p : positive) : Z := Zpos (digits2_pos p).

Lemma digits2_pos_size p : digits2_pos p = Pos.size p.
Proof. induction p; cbn; congruence. Qed.

Lemma bitlen_pos p : 0 < bitlen p.
Proof. reflexivity. Qed.

Lemma bitlen_bounds p : 2 ^ (bitlen p - 1) <= Zpos p < 2 ^ bitlen p.
Proof.
  unfold bitlen. rewrite digits2_pos_size. split.
  - pose proof (Pos.size_le p) as H.
    assert (H2 : (2 ^ Zpos (Pos.size p) <= 2 * Zpos p)).
    { rewrite <- Pos2Z.inj_pow. change 2 with (Zpos 2). rewrite <- Pos2Z.inj_mul.  apply Pos2Z.pos_le_pos. exact H. } 
    replace (Zpos (Pos.size p)) with (Zpos (Pos.size p) - 1 + 1) in H2 by lia.
    rewrite Z.pow_add_r in H2 by lia. lia.
  - pose proof (Pos.size_gt p) as H.
    rewrite <- Pos2Z.inj_pow. apply Pos2Z.pos_lt_pos. exact H.
Qed.

Lemma bitlen_unique p d : 2 ^ (d - 1) <= Zpos p < 2 ^ d -> bitlen p = d.
Proof.
  intros [Hl Hu]. pose proof (bitlen_bounds p) as [Hl' Hu']. pose proof (bitlen_pos p).
  assert (0 < d). { destruct (Z_lt_le_dec 0 d); [assumption|]. 
    assert (2 ^ d <= 2 ^ 0) by (destruct (Z.eq_dec d 0); [subst; lia| rewrite Z.pow_neg_r by lia; lia]). lia. } 
  destruct (Z.lt_trichotomy (bitlen p) d) as [H1 | [H1 | H1]]; [|assumption|].
  - assert (2 ^ bitlen p <= 2 ^ (d - 1)) by (apply Z.pow_le_mono_r; lia). lia.
  - assert (2 ^ d <= 2 ^ (bitlen p - 1)) by (apply Z.pow_le_mono_r; lia). lia.
Qed.

End Digits.

(** ** Shifts *)

Section Shift.

Lemma shr_1_m (r : shr_record) :
  0 <= shr_m r -> shr_m (shr_1 r) = shr_m r / 2.
Proof.
  destruct r as [m rr s]. cbn [shr_m]. intros Hm.
  destruct m as [|[p|p|]|p]; cbn [shr_1 shr_m].
  - reflexivity.
  - apply Z.div_unique with (r := 1); lia.
  - apply Z.div_unique with (r := 0); lia.
  - reflexivity.
  - lia.
Qed.

Lemma pow2_xO (n : positive) : 2 ^ Zpos n~0 = 2 ^ Zpos n * 2 ^ Zpos n.
Proof.
  change (Zpos n~0) with (2 * Zpos n). apply Z.pow_twice_r.
Qed.

Lemma pow2_xI (n : positive) : 2 ^ Zpos n~1 = 2 * (2 ^ Zpos n * 2 ^ Zpos n).
Proof.
  change (Zpos n~1) with (Z.succ (Zpos n~0)).
  rewrite Z.pow_succ_r by lia. now rewrite pow2_xO.
Qed.

Lemma iter_shr_m (n : positive) :
  forall r, 0 <= shr_m r -> shr_m (SpecFloat.iter_pos shr_1 n r) = shr_m r / 2 ^ Zpos n.
Proof.
  induction n as [n IH | n IH |]; intros r Hr; cbn [SpecFloat.iter_pos].
  - assert (H1 : 0 <= shr_m (shr_1 r)) by (rewrite shr_1_m by assumption; apply Z.div_pos; lia).
    assert (H2 : 0 <= shr_m (SpecFloat.iter_pos shr_1 n (shr_1 r)))
      by (rewrite IH by assumption; apply Z.div_pos; lia).
    rewrite IH, IH, shr_1_m by assumption.
    rewrite !Z.div_div by lia. now rewrite pow2_xI.
  - assert (H2 : 0 <= shr_m (SpecFloat.iter_pos shr_1 n r))
      by (rewrite IH by assumption; apply Z.div_pos; lia).
    rewrite IH, IH by assumption.
    rewrite !Z.div_div by lia. now rewrite pow2_xO.
  - rewrite shr_1_m by assumption. reflexivity.
Qed.

Lemma shr_record_of_loc_m m l : shr_m (shr_record_of_loc m l) = m.
Proof. destruct l as [|[]]; reflexivity. Qed.

Lemma loc_of_shr_record_of_loc m l : loc_of_shr_record (shr_record_of_loc m l) = l.
Proof. destruct l as [|[]]; reflexivity. Qed.

(** The mantissa and the exponent after [shr]. *)
Lemma shr_m_e (r : shr_record) (e n : Z) :
  0 <= shr_m r ->
  shr_m (fst (shr r e n)) = shr_m r / 2 ^ Z.max 0 n /\
  snd (shr r e n) = e + Z.max 0 n.
Proof.
  intros Hr. destruct n as [|n|n]; cbn [shr fst snd].
  - rewrite Z.div_1_r. lia.
  - rewrite iter_shr_m by assumption. rewrite Z.max_r by lia. lia.
  - rewrite Z.max_l by lia. rewrite Z.div_1_r. lia.
Qed.

Lemma round_nearest_even_bounds m l :
  m <= round_nearest_even m l <= m + 1.
Proof.
  destruct l as [|[]]; cbn; try lia. destruct (Z.even m); lia.
Qed.

End Shift.

(** ** Rounding *)

Abbreviation fexp64 := (fexp prec emax).

Section Rounding.

Lemma fexp64_eq k : fexp64 k = Z.max (k - 53) (-1074).
Proof. reflexivity. Qed.

Lemma div_pow2_nonneg m k : 0 <= m -> 0 <= m / 2 ^ k.
Proof. intros Hm. apply Z_div_nonneg_nonneg; [assumption | apply Z.pow_nonneg; lia]. Qed.

(** By how much [shr_fexp] shifts [m * 2^e]. *)
Definition shift_of (m e : Z) : Z := Z.max 0 (fexp64 (Zdigits2 m + e) - e).

Lemma Zdigits2_pos p : Zdigits2 (Zpos p) = bitlen p.
Proof. reflexivity. Qed.

Lemma shr_fexp_m_e m e l :
  0 <= m ->
  shr_m (fst (shr_fexp prec emax m e l)) = m / 2 ^ shift_of m e /\
  snd (shr_fexp prec emax m e l) = e + shift_of m e.
Proof.
  intros Hm. unfold shr_fexp, shift_of.
  pose proof (shr_m_e (shr_record_of_loc m l) e (fexp64 (Zdigits2 m + e) - e)) as H.
  rewrite shr_record_of_loc_m in H. now apply H.
Qed.

(** The shape of what [binary_round_aux] returns: the mantissa shifted,
    rounded to itself or its successor, and shifted again. *)
Lemma binary_round_aux_shape s m e l :
  0 <= m ->
  exists m2,
    m / 2 ^ shift_of m e <= m2 <= m / 2 ^ shift_of m e + 1 /\
    let e1 := e + shift_of m e in
    binary_round_aux prec emax s m e l =
      match m2 / 2 ^ shift_of m2 e1 with
      | Z0 => S754_zero s
      | Zpos p =>
          if e1 + shift_of m2 e1 <=? emax - prec
          then S754_finite s p (e1 + shift_of m2 e1) else S754_infinity s
      | Zneg _ => S754_nan
      end.
Proof.
  intros Hm. unfold binary_round_aux.
  pose proof (shr_fexp_m_e m e l Hm) as [H1 H1e].
  destruct (shr_fexp prec emax m e l) as [r1 e1]. cbn [fst snd] in H1, H1e.
  set (m2 := round_nearest_even (shr_m r1) (loc_of_shr_record r1)).
  assert (Hm2 : shr_m r1 <= m2 <= shr_m r1 + 1) by apply round_nearest_even_bounds.
  assert (Hr1 : 0 <= shr_m r1) by (rewrite H1; now apply div_pow2_nonneg).
  assert (Hm2' : 0 <= m2) by lia.
  pose proof (shr_fexp_m_e m2 e1 loc_Exact Hm2') as [H2 H2e].
  destruct (shr_fexp prec emax m2 e1 loc_Exact) as [r2 e2]. cbn [fst snd] in H2, H2e.
  exists m2. split; [now rewrite <- H1|].
  cbn zeta. rewrite <- H1e, <- H2, <- H2e. reflexivity.
Qed.

Definition SFsign (x : spec_float) (s : bool) : Prop :=
  match x with
  | S754_zero s' | S754_infinity s' | S754_finite s' _ _ => s' = s
  | S754_nan => False
  end.

Lemma binary_round_aux_sign s m e l :
  0 <= m -> SFsign (binary_round_aux prec emax s m e l) s.
Proof.
  intros Hm. destruct (binary_round_aux_shape s m e l Hm) as (m2 & Hm2 & ->).
  assert (0 <= m / 2 ^ shift_of m e) by now apply div_pow2_nonneg.
  assert (0 <= m2 / 2 ^ shift_of m2 (e + shift_of m e)) by (apply div_pow2_nonneg; lia).
  destruct (m2 / 2 ^ shift_of m2 (e + shift_of m e)); [reflexivity | | lia].
  destruct (_ <=? _); reflexivity.
Qed.

(** Shifting a positive mantissa whose exponent is not below [emin]
    leaves a positive mantissa. *)
Lemma shift_positive m e :
  0 < m -> -1074 <= e -> 0 < m / 2 ^ shift_of m e.
Proof.
  intros Hm He. destruct m as [|p|p]; try lia.
  unfold shift_of. rewrite Zdigits2_pos, fexp64_eq.
  pose proof (bitlen_bounds p) as [Hl Hu]. pose proof (bitlen_pos p).
  destruct (Z.max_spec 0 (Z.max (bitlen p + e - 53) (-1074) - e)) as [[Hlt ->] | [Hge ->]].
  - assert (Heq : Z.max (bitlen p + e - 53) (-1074) - e = bitlen p - 53) by lia.
    rewrite Heq. apply Z.div_str_pos. split; [apply Z.pow_pos_nonneg; lia|].
    transitivity (2 ^ (bitlen p - 1)); [apply Z.pow_le_mono_r; lia | assumption].
  - rewrite Z.div_1_r. lia.
Qed.

Lemma binary_round_aux_nonzero s m e l :
  0 < m -> -1074 <= e ->
  forall s', binary_round_aux prec emax s m e l <> S754_zero s'.
Proof.
  intros Hm He s'. destruct (binary_round_aux_shape s m e l ltac:(lia)) as (m2 & Hm2 & ->).
  pose proof (shift_positive m e Hm He) as H1.
  assert (He1 : -1074 <= e + shift_of m e) by (unfold shift_of; lia).
  pose proof (shift_positive m2 _ ltac:(lia) He1) as H2.
  destruct (m2 / 2 ^ shift_of m2 (e + shift_of m e)); [lia | | lia].
  destruct (_ <=? _); discriminate.
Qed.

(** A canonical mantissa is returned as it is. *)
Lemma binary_round_aux_canonical s p e :
  fexp64 (bitlen p + e) = e -> e <= emax - prec ->
  binary_round_aux prec emax s (Zpos p) e loc_Exact = S754_finite s p e.
Proof.
  intros Hc He. unfold binary_round_aux, shr_fexp.
  rewrite Zdigits2_pos, Hc, Z.sub_diag. cbn [shr shr_record_of_loc shr_m loc_of_shr_record
    round_nearest_even].
  rewrite Zdigits2_pos, Hc, Z.sub_diag. cbn [shr shr_record_of_loc shr_m].
  apply Z.leb_le in He. now rewrite He.
Qed.

End Rounding.

(** ** Integers as numbers *)

Section Integers.

Lemma iter_xO p d : Zpos (Pos.iter xO p d) = Zpos p * 2 ^ Zpos d.
Proof.
  induction d as [|d IH] using Pos.peano_ind.
  - cbn. lia.
  - rewrite Pos.iter_succ, Pos2Z.inj_xO, IH, Pos2Z.inj_succ, Z.pow_succ_r by lia. lia.
Qed.

Lemma shl_align_spec p e e' :
  e' <= e ->
  snd (shl_align p e e') = e' /\ Zpos (fst (shl_align p e e')) = Zpos p * 2 ^ (e - e').
Proof.
  intros He. unfold shl_align.
  destruct (e' - e) as [|d|d] eqn:Hd; cbn [fst snd].
  - replace (e - e') with 0 by lia. lia.
  - lia.
  - rewrite iter_xO. replace (e - e') with (Zpos d) by lia. lia.
Qed.

Lemma bitlen_shift p k q :
  0 <= k -> Zpos q = Zpos p * 2 ^ k -> bitlen q = bitlen p + k.
Proof.
  intros Hk Hq. apply bitlen_unique. rewrite Hq.
  pose proof (bitlen_bounds p) as [Hl Hu]. pose proof (bitlen_pos p).
  replace (bitlen p + k - 1) with (bitlen p - 1 + k) by lia.
  rewrite !Z.pow_add_r by lia.
  assert (0 < 2 ^ k) by (apply Z.pow_pos_nonneg; lia). nia.
Qed.

(** The canonical float of [p * 2^e], for a [p] of at most 53 bits and
    an exponent in the normal range. *)
Definition SFpos (p : positive) (e : Z) : spec_float :=
  S754_finite false (fst (shl_align p e (bitlen p + e - 53)))
                    (snd (shl_align p e (bitlen p + e - 53))).

Lemma SFpos_eq p e :
  bitlen p <= 53 ->
  exists m, SFpos p e = S754_finite false m (bitlen p + e - 53) /\
            Zpos m = Zpos p * 2 ^ (53 - bitlen p) /\ bitlen m = 53.
Proof.
  intros Hp. unfold SFpos.
  destruct (shl_align_spec p e (bitlen p + e - 53) ltac:(lia)) as [He Hm].
  exists (fst (shl_align p e (bitlen p + e - 53))). rewrite He.
  replace (e - (bitlen p + e - 53)) with (53 - bitlen p) in Hm by lia.
  split; [reflexivity|]. split; [assumption|].
  rewrite (bitlen_shift p (53 - bitlen p)) by (lia || assumption). lia.
Qed.

Lemma normalize_pos p e :
  bitlen p <= 53 -> -1074 <= bitlen p + e - 53 <= 971 ->
  binary_normalize prec emax (Zpos p) e false = SFpos p e.
Proof.
  intros Hp He. cbn [binary_normalize]. unfold binary_round.
  replace (fexp64 (Zpos (digits2_pos p) + e)) with (bitlen p + e - 53)
    by (rewrite fexp64_eq; unfold bitlen in *; lia).
  destruct (SFpos_eq p e Hp) as (m & Heq & Hm & Hd). unfold SFpos in *.
  destruct (shl_align p e (bitlen p + e - 53)) as [mz ez]. cbn [fst snd] in *.
  injection Heq as -> ->.
  apply binary_round_aux_canonical.
  - rewrite Hd, fexp64_eq. lia.
  - change (emax - prec) with 971. lia.
Qed.

(** The float of an integer below [2^53] in magnitude. *)
Definition SFint (z : Z) : spec_float :=
  match z with
  | Z0 => S754_zero false
  | Zpos p => SFpos p 0
  | Zneg p => SFopp (SFpos p 0)
  end.

Lemma bitlen_le_53 p : Zpos p < 2 ^ 53 -> bitlen p <= 53.
Proof.
  intros Hp. pose proof (bitlen_bounds p) as [Hl _]. pose proof (bitlen_pos p).
  destruct (Z_le_gt_dec (bitlen p) 53); [assumption|].
  assert (2 ^ 53 <= 2 ^ (bitlen p - 1)) by (apply Z.pow_le_mono_r; lia). lia.
Qed.

Lemma of_uint63_int z :
  0 <= z < 2 ^ 53 -> Prim2SF (of_uint63 (Uint63.of_Z z)) = SFint z.
Proof.
  intros Hz. rewrite of_uint63_spec, Uint63.of_Z_spec.
  rewrite Z.mod_small by (change wB with (2 ^ 63); lia).
  destruct z as [|p|p]; [reflexivity | | lia].
  cbn [SFint]. pose proof (bitlen_le_53 p ltac:(lia)). pose proof (bitlen_pos p).
  apply normalize_pos; lia.
Qed.

End Integers.

(** ** Division *)

Section Division.

(** What a location says about a remainder [R] of a division by [a]. *)
Definition loc_ok (l : location) (a R : Z) : Prop :=
  match l with
  | loc_Exact => R = 0
  | loc_Inexact Lt => 0 < R /\ 2 * R < a
  | loc_Inexact Eq => 2 * R = a
  | loc_Inexact Gt => a < 2 * R
  end.

Lemma new_location_ok a R : 0 <= R < a -> loc_ok (new_location a R) a R.
Proof.
  intros HR. unfold new_location.
  destruct (Z.even a) eqn:Hev.
  - unfold new_location_even. destruct (Z.eqb_spec R 0) as [-> | Hne]; [reflexivity|].
    cbn. destruct (Z.compare_spec (2 * R) a); lia.
  - unfold new_location_odd. destruct (Z.eqb_spec R 0) as [-> | Hne]; [reflexivity|].
    assert (Hodd : Z.odd a = true) by (rewrite <- Z.negb_even, Hev; reflexivity).
    apply Z.odd_spec in Hodd as [k Hk].
    cbn. destruct (Z.compare_spec (2 * R + 1) a); lia.
Qed.

(** The last step of [binary_round_aux] on a rounded 53-bit mantissa. *)
Definition renormalized (m2 e1 : Z) : spec_float :=
  if m2 =? 2 ^ 53 then S754_finite false (Z.to_pos (2 ^ 52)) (e1 + 1)
  else S754_finite false (Z.to_pos m2) e1.

Lemma shr_fexp_renormalize m2 e1 :
  2 ^ 52 <= m2 <= 2 ^ 53 -> -1074 <= e1 -> e1 + 1 <= 971 ->
  match shr_m (fst (shr_fexp prec emax m2 e1 loc_Exact)) with
  | Z0 => S754_zero false
  | Zpos m =>
      if snd (shr_fexp prec emax m2 e1 loc_Exact) <=? emax - prec
      then S754_finite false m (snd (shr_fexp prec emax m2 e1 loc_Exact))
      else S754_infinity false
  | Zneg _ => S754_nan
  end = renormalized m2 e1.
Proof.
  intros Hm He Hemax. unfold renormalized.
  destruct (Z.eqb_spec m2 (2 ^ 53)) as [-> | Hne].
  - unfold shr_fexp. change (Zdigits2 (2 ^ 53)) with 54. rewrite fexp64_eq.
    replace (Z.max (54 + e1 - 53) (-1074) - e1) with 1 by lia.
    change (2 ^ 53) with 9007199254740992. change (2 ^ 52) with 4503599627370496.
    cbn [shr shr_record_of_loc SpecFloat.iter_pos shr_1 shr_m fst snd Z.to_pos].
    replace (e1 + 1 <=? emax - prec) with true
      by (symmetry; apply Z.leb_le; change (emax - prec) with 971; lia).
    reflexivity.
  - destruct m2 as [|p|p]; try lia.
    assert (Hd : bitlen p = 53) by (apply bitlen_unique; change (53 - 1) with 52; lia).
    unfold shr_fexp. rewrite Zdigits2_pos, Hd, fexp64_eq.
    replace (Z.max (53 + e1 - 53) (-1074) - e1) with 0 by lia.
    cbn -[Z.leb]. replace (e1 <=? emax - prec) with true
      by (symmetry; apply Z.leb_le; change (emax - prec) with 971; lia).
    reflexivity.
Qed.

Lemma binary_round_aux_unfold s m e l :
  binary_round_aux prec emax s m e l =
  let r1 := shr_fexp prec emax m e l in
  let r2 := shr_fexp prec emax
              (round_nearest_even (shr_m (fst r1)) (loc_of_shr_record (fst r1)))
              (snd r1) loc_Exact in
  match shr_m (fst r2) with
  | Z0 => S754_zero s
  | Zpos p =>
      if snd r2 <=? emax - prec then S754_finite s p (snd r2) else S754_infinity s
  | Zneg _ => S754_nan
  end.
Proof.
  unfold binary_round_aux. destruct (shr_fexp prec emax m e l) as [r1 e1].
  cbn [fst snd]. destruct (shr_fexp prec emax _ e1 loc_Exact) as [r2 e2]. reflexivity.
Qed.

(** Rounding a quotient [Q] of 53 or 54 bits, with remainder [R] of a
    division by [a]: the result is within half a unit in the last place of
    the exact quotient. *)
Lemma round_quotient Q R a e' l :
  2 ^ 52 <= Q < 2 ^ 54 -> 0 <= R < a -> loc_ok l a R ->
  -1074 <= e' -> e' + 2 <= 971 ->
  exists n m1 m2,
    (n = 0 \/ n = 1) /\
    2 ^ 52 <= m1 < 2 ^ 53 /\
    m1 * 2 ^ n <= Q < (m1 + 1) * 2 ^ n /\
    (m2 = m1 \/ m2 = m1 + 1) /\
    - (a * 2 ^ n) <= 2 * m2 * a * 2 ^ n - 2 * (Q * a + R) <= a * 2 ^ n /\
    binary_round_aux prec emax false Q e' l = renormalized m2 (e' + n).
Proof.
  intros HQ HR Hl He Hemax. rewrite binary_round_aux_unfold.
  destruct (Z_lt_le_dec Q (2 ^ 53)) as [Hlt | Hge].
  - (* 53 bits: no shift *)
    destruct Q as [|p|p]; try lia.
    assert (Hd : bitlen p = 53) by (apply bitlen_unique; change (53 - 1) with 52; lia).
    exists 0, (Zpos p), (round_nearest_even (Zpos p) l).
    assert (Hs : shr_fexp prec emax (Zpos p) e' l = (shr_record_of_loc (Zpos p) l, e')).
    { unfold shr_fexp. rewrite Zdigits2_pos, Hd, fexp64_eq.
      replace (Z.max (53 + e' - 53) (-1074) - e') with 0 by lia. reflexivity. }
    rewrite Hs. cbn [fst snd]. rewrite shr_record_of_loc_m, loc_of_shr_record_of_loc.
    pose proof (round_nearest_even_bounds (Zpos p) l) as Hb.
    split; [now left|]. split; [lia|]. split; [lia|]. split; [lia|]. split.
    + change (2 ^ 0) with 1.
      destruct l as [|[]]; cbn [round_nearest_even loc_ok] in *; try lia.
      destruct (Z.even (Zpos p)); lia.
    + rewrite Z.add_0_r. apply shr_fexp_renormalize; lia.
  - (* 54 bits: one shift *)
    destruct Q as [|p|p]; try lia.
    assert (Hd : bitlen p = 54) by (apply bitlen_unique; change (54 - 1) with 53; lia).
    assert (Hs : shr_fexp prec emax (Zpos p) e' l =
                 (shr_1 (shr_record_of_loc (Zpos p) l), e' + 1)).
    { unfold shr_fexp. rewrite Zdigits2_pos, Hd, fexp64_eq.
      replace (Z.max (54 + e' - 53) (-1074) - e') with 1 by lia. reflexivity. }
    rewrite Hs. cbn [fst snd].
    set (r1 := shr_1 (shr_record_of_loc (Zpos p) l)).
    exists 1, (shr_m r1), (round_nearest_even (shr_m r1) (loc_of_shr_record r1)).
    pose proof (round_nearest_even_bounds (shr_m r1) (loc_of_shr_record r1)) as Hb.
    change (2 ^ 1) with 2.
    assert (Hm1 : Zpos p = 2 * shr_m r1 + (if shr_r r1 then 1 else 0)).
    { subst r1. destruct l as [|[]], p as [p|p|]; cbn; lia. }
    assert (Hrange : 2 ^ 52 <= shr_m r1 < 2 ^ 53) by (destruct (shr_r r1); lia).
    split; [now right|]. split; [assumption|].
    split; [destruct (shr_r r1); lia|]. split; [lia|]. split.
    + subst r1. destruct l as [|[]], p as [p|p|];
        cbn [shr_record_of_loc shr_1 shr_m shr_r shr_s loc_of_shr_record orb
             round_nearest_even loc_ok] in *;
        try (destruct (Z.even (Zpos p))); nia.
    + apply shr_fexp_renormalize; lia.
Qed.

Lemma scale_bounds P a X : 0 < P -> - (a * P) <= X * P <= a * P -> - a <= X <= a.
Proof.
  intros HP [H1 H2]. split; apply (Z.mul_le_mono_pos_r _ _ P HP); lia.
Qed.

Lemma div_eucl_eq a b : Z.div_eucl a b = (a / b, a mod b).
Proof. unfold Z.div, Z.modulo. now destruct (Z.div_eucl a b). Qed.

Lemma SFdiv_core_normal mu eu ma ea :
  bitlen mu = 53 -> bitlen ma = 53 -> -1021 <= eu - ea ->
  SFdiv_core_binary prec emax (Zpos mu) eu (Zpos ma) ea =
  (Zpos mu * 2 ^ 53 / Zpos ma, eu - ea - 53,
   new_location (Zpos ma) ((Zpos mu * 2 ^ 53) mod Zpos ma)).
Proof.
  intros Hu Ha He. unfold SFdiv_core_binary.
  rewrite !Zdigits2_pos, Hu, Ha, fexp64_eq.
  replace (Z.min (Z.max (53 + eu - (53 + ea) - 53) (-1074)) (eu - ea)) with (eu - ea - 53)
    by lia.
  replace (eu - ea - (eu - ea - 53)) with 53 by lia.
  rewrite Z.shiftl_mul_pow2 by lia. now rewrite div_eucl_eq.
Qed.

(** The quotient of two integers below [2^53], as [SFdiv] rounds it:
    [m2 / 2^E], within half a unit in the last place of [u / a]. *)
Lemma SFdiv_int (u a : positive) :
  Zpos u < 2 ^ 53 -> Zpos a < 2 ^ 53 ->
  exists m2 E,
    0 <= E <= 105 /\ 2 ^ 52 <= m2 <= 2 ^ 53 /\
    - Zpos a <= 2 * m2 * Zpos a - 2 * (Zpos u * 2 ^ E) <= Zpos a /\
    Zpos a < 2 * 2 ^ E /\
    SFdiv prec emax (SFint (Zpos u)) (SFint (Zpos a)) = renormalized m2 (- E).
Proof.
  intros Hu Ha. cbn [SFint].
  pose proof (bitlen_le_53 u Hu) as Hdu. pose proof (bitlen_le_53 a Ha) as Hda.
  pose proof (bitlen_pos u) as Hdu0. pose proof (bitlen_pos a) as Hda0.
  destruct (SFpos_eq u 0 Hdu) as (mu & -> & Hmu & Hbu).
  destruct (SFpos_eq a 0 Hda) as (ma & -> & Hma & Hba).
  cbn [SFdiv xorb].
  rewrite SFdiv_core_normal by (assumption || lia).
  set (U := Zpos mu * 2 ^ 53). set (Q := U / Zpos ma). set (R := U mod Zpos ma).
  assert (HU : U = Q * Zpos ma + R)
    by (subst Q R; rewrite Z.mul_comm; apply Z.div_mod; lia).
  assert (HR : 0 <= R < Zpos ma) by (subst R; apply Z.mod_pos_bound; lia).
  pose proof (bitlen_bounds mu) as Bu. pose proof (bitlen_bounds ma) as Ba.
  rewrite Hbu in Bu. rewrite Hba in Ba. change (53 - 1) with 52 in *.
  assert (HQ : 2 ^ 52 <= Q < 2 ^ 54).
  { assert (H53 : 2 ^ 53 = 2 * 2 ^ 52) by reflexivity.
    assert (H54 : 2 ^ 54 = 4 * 2 ^ 52) by reflexivity.
    subst Q U. split.
    - apply Z.div_le_lower_bound; [lia|]. nia.
    - apply Z.div_lt_upper_bound; [lia|]. nia. }
  assert (HUdef : U = Zpos mu * 2 ^ 53) by reflexivity.
  clearbody Q R U.
  destruct (round_quotient Q R (Zpos ma) (bitlen u + 0 - 53 - (bitlen a + 0 - 53) - 53)
              (new_location (Zpos ma) R) HQ HR (new_location_ok _ _ HR)
              ltac:(lia) ltac:(lia))
    as (n & m1 & m2 & Hn & Hm1 & HQm & Hm2 & Hnear & ->).
  set (E := 53 + bitlen a - bitlen u - n).
  set (P := 2 ^ (53 - bitlen a + n)).
  assert (HP : 0 < P) by (apply Z.pow_pos_nonneg; lia).
  assert (HE0 : 0 <= E) by (subst E; lia).
  assert (HW : 0 < 2 ^ E) by (apply Z.pow_pos_nonneg; lia).
  assert (HaP : Zpos ma * 2 ^ n = Zpos a * P).
  { subst P. rewrite Hma, Z.pow_add_r by lia. lia. }
  assert (HuP : U = Zpos u * 2 ^ E * P).
  { rewrite HUdef. subst P E. rewrite Hmu. rewrite <- !Z.mul_assoc, <- !Z.pow_add_r by lia.
    f_equal. f_equal. lia. }
  exists m2, E. split; [subst E; lia|]. split; [lia|]. split; [|split].
  - rewrite <- HU in Hnear.
    replace (2 * m2 * Zpos ma * 2 ^ n) with (2 * m2 * (Zpos a * P)) in Hnear
      by (rewrite <- HaP; ring).
    rewrite HaP, HuP in Hnear.
    apply (scale_bounds P); [assumption|].
    replace ((2 * m2 * Zpos a - 2 * (Zpos u * 2 ^ E)) * P)
      with (2 * m2 * (Zpos a * P) - 2 * (Zpos u * 2 ^ E * P)) by ring.
    exact Hnear.
  - assert (Hlow : m1 * Zpos a * P <= Zpos u * 2 ^ E * P).
    { rewrite <- HuP, HU. rewrite <- Z.mul_assoc, <- HaP.
      destruct HQm as [HQm _].
      assert (m1 * 2 ^ n * Zpos ma <= Q * Zpos ma)
        by (apply Z.mul_le_mono_nonneg_r; [apply Pos2Z.is_nonneg | exact HQm]).
      lia. }
    apply Z.mul_le_mono_pos_r in Hlow; [|assumption].
    assert (H53 : 2 ^ 53 = 2 * 2 ^ 52) by reflexivity.
    assert (HT : 0 < 2 ^ 52) by reflexivity.
    destruct Hm1 as [Hm1 _]. revert HT Hm1 Hlow Hu HW H53.
    generalize (2 ^ 52) (2 ^ 53) (2 ^ E) (Zpos u) (Zpos a) (Pos2Z.is_pos a).
    clear. intros T T2 W u a Ha HT Hm1 Hlow Hu HW ->.
    assert (a * T <= m1 * a) by nia.
    assert (u * W < 2 * T * W) by nia.
    nia.
  - f_equal. subst E. lia.
Qed.

End Division.

(** ** [Math.floor] and [Math.ceil] *)

Section FloorCeil.

Lemma number_of_Z_nonneg z : 0 <= z < 2 ^ 53 -> Prim2SF (JS.number_of_Z z) = SFint z.
Proof.
  intros Hz. unfold JS.number_of_Z.
  replace (z <? 0) with false by (symmetry; apply Z.ltb_ge; lia).
  now apply of_uint63_int.
Qed.

Lemma number_of_Z_neg z :
  0 < z < 2 ^ 53 -> JS.number_of_Z (- z) = PrimFloat.opp (JS.number_of_Z z).
Proof.
  intros Hz. unfold JS.number_of_Z.
  replace (- z <? 0) with true by (symmetry; apply Z.ltb_lt; lia).
  replace (z <? 0) with false by (symmetry; apply Z.ltb_ge; lia).
  now rewrite Z.opp_involutive.
Qed.

Lemma opp_involutive (x : float) : PrimFloat.opp (PrimFloat.opp x) = x.
Proof.
  apply Prim2SF_inj. rewrite !FloatAxioms.opp_spec.
  destruct (Prim2SF x) as [[]|[]| |[] m e]; reflexivity.
Qed.

(** A valid mantissa with exponent [0] has exactly 53 bits. *)
Lemma valid_exponent_0 x s m :
  Prim2SF x = S754_finite s m 0 -> bitlen m = 53.
Proof.
  intros H. pose proof (Prim2SF_valid x) as Hv. rewrite H in Hv.
  cbn [SpecFloat.valid_binary] in Hv. unfold bounded, canonical_mantissa in Hv.
  apply andb_true_iff in Hv as [Hc _]. apply Z.eqb_eq in Hc.
  rewrite fexp64_eq in Hc. unfold bitlen. lia.
Qed.

Lemma SFint_53 m : bitlen m = 53 -> SFint (Zpos m) = S754_finite false m 0.
Proof.
  intros Hd. cbn [SFint]. destruct (SFpos_eq m 0 ltac:(lia)) as (m' & -> & Hm & _).
  rewrite Hd in *. change (2 ^ (53 - 53)) with 1 in Hm. f_equal; lia.
Qed.

Lemma div_between m W q : 0 < W -> q * W <= m < (q + 1) * W -> m / W = q.
Proof.
  intros HW [Hl Hu]. symmetry. apply Z.div_unique with (r := m - q * W); lia.
Qed.

(** [Math.floor] of a positive number between two consecutive integers. *)
Lemma Math_floor_between x m e q :
  Prim2SF x = S754_finite false m e -> e <= 0 ->
  q * 2 ^ (- e) <= Zpos m < (q + 1) * 2 ^ (- e) ->
  JS.Math_floor x = JS.number_of_Z q.
Proof.
  intros Hx He Hq. unfold JS.Math_floor. rewrite Hx.
  destruct (Z.leb_spec 0 e) as [He0 | He0].
  - assert (e = 0) by lia. subst e. change (2 ^ (- 0)) with 1 in Hq.
    assert (q = Zpos m) by lia. subst q.
    pose proof (valid_exponent_0 x false m Hx) as Hd.
    pose proof (bitlen_bounds m) as Hb. rewrite Hd in Hb.
    apply Prim2SF_inj. rewrite Hx, number_of_Z_nonneg by lia.
    symmetry. now apply SFint_53.
  - cbn [cond_Zopp]. rewrite Z.shiftr_div_pow2 by lia.
    assert (HW : 0 < 2 ^ (- e)) by (apply Z.pow_pos_nonneg; lia).
    rewrite (div_between _ _ q HW Hq).
    destruct (Z.eqb_spec q 0) as [-> | Hne]; reflexivity.
Qed.

End FloorCeil.

Section Quotients.

(** Within half a unit of [u / a], between the integers around it. *)
Lemma near_quotient (u a q r m2 W : Z) :
  0 < a -> 0 < W -> u = a * q + r -> 0 <= r < a ->
  - a <= 2 * m2 * a - 2 * (u * W) <= a -> a < 2 * W ->
  (r = 0 -> m2 = q * W) /\ (0 < r -> q * W < m2 < (q + 1) * W).
Proof.
  intros Ha HW -> Hr Hnear HaW. split.
  - intros ->. nia.
  - intros Hr0. split.
    + destruct (Z_lt_le_dec (q * W) m2) as [|Hle]; [assumption|exfalso].
      assert (2 * m2 * a <= 2 * (q * W) * a) by nia.
      assert (2 * W <= 2 * (r * W)) by nia. nia.
    + destruct (Z_lt_le_dec m2 ((q + 1) * W)) as [|Hle]; [assumption|exfalso].
      assert (2 * ((q + 1) * W) * a <= 2 * m2 * a) by nia.
      assert (2 * W <= 2 * ((a - r) * W)) by nia. nia.
Qed.

Lemma SFdiv_int_between (u a : positive) :
  Zpos u < 2 ^ 53 -> Zpos a < 2 ^ 53 ->
  exists m e,
    SFdiv prec emax (SFint (Zpos u)) (SFint (Zpos a)) = S754_finite false m e /\
    -105 <= e <= 0 /\ bitlen m = 53 /\
    (Zpos u mod Zpos a = 0 -> Zpos m = Zpos u / Zpos a * 2 ^ (- e)) /\
    (0 < Zpos u mod Zpos a ->
     Zpos u / Zpos a * 2 ^ (- e) < Zpos m < (Zpos u / Zpos a + 1) * 2 ^ (- e)).
Proof.
  intros Hu Ha.
  destruct (SFdiv_int u a Hu Ha) as (m2 & E & HE & Hm2 & Hnear & HaW & ->).
  assert (HW : 0 < 2 ^ E) by (apply Z.pow_pos_nonneg; lia).
  pose proof (Z.div_mod (Zpos u) (Zpos a) ltac:(lia)) as Hdm.
  pose proof (Z.mod_pos_bound (Zpos u) (Zpos a) ltac:(lia)) as Hr.
  assert (Hq0 : 0 <= Zpos u / Zpos a) by (apply Z.div_pos; lia).
  destruct (near_quotient (Zpos u) (Zpos a) (Zpos u / Zpos a) (Zpos u mod Zpos a) m2 (2 ^ E)
              ltac:(lia) HW Hdm Hr Hnear HaW) as [Hex Hin].
  unfold renormalized. destruct (Z.eqb_spec m2 (2 ^ 53)) as [-> | Hne].
  - (* the rounding carried into the next binade *)
    assert (HE1 : 1 <= E).
    { destruct (Z.eq_dec E 0) as [-> |]; [|lia]. exfalso.
      change (2 ^ 0) with 1 in *.
      pose proof (Pos2Z.is_pos a) as Hapos.
      assert (HT : 0 < 2 ^ 53) by reflexivity.
      revert HT Hapos Hu Hnear. generalize (2 ^ 53) (Zpos u) (Zpos a).
      clear. intros T u0 a0 HT Ha0 Hu0 Hnear0. nia. }
    assert (HW2 : 2 ^ E = 2 * 2 ^ (E - 1)).
    { replace E with (1 + (E - 1)) at 1 by lia. now rewrite Z.pow_add_r by lia. }
    exists (Z.to_pos (2 ^ 52)), (- E + 1).
    replace (- (- E + 1)) with (E - 1) by lia.
    assert (H53 : 2 ^ 53 = 2 * 2 ^ 52) by reflexivity.
    split; [reflexivity|]. split; [lia|]. split; [reflexivity|].
    change (Zpos (Z.to_pos (2 ^ 52))) with (2 ^ 52). rewrite HW2, H53 in *.
    split; [intros H0; specialize (Hex H0) | intros H0; specialize (Hin H0)]; lia.
  - destruct m2 as [|p|p]; try lia.
    exists p, (- E). rewrite Z.opp_involutive. cbn [Z.to_pos].
    split; [reflexivity|]. split; [lia|].
    split; [apply bitlen_unique; change (53 - 1) with 52; lia|].
    split; assumption.
Qed.

End Quotients.

Section IntegerDivision.

Local Abbreviation N := JS.number_of_Z.

(** [Math.ceil] of a positive number between two consecutive integers. *)
Lemma Math_ceil_between x m e t :
  Prim2SF x = S754_finite false m e -> e <= 0 -> t < 2 ^ 53 ->
  (t - 1) * 2 ^ (- e) < Zpos m <= t * 2 ^ (- e) ->
  JS.Math_ceil x = N t.
Proof.
  intros Hx He Ht Hq. unfold JS.Math_ceil, JS.Math_floor.
  rewrite FloatAxioms.opp_spec, Hx. cbn [SFopp negb].
  assert (HW : 0 < 2 ^ (- e)) by (apply Z.pow_pos_nonneg; lia).
  destruct (Z.leb_spec 0 e) as [He0 | He0].
  - rewrite opp_involutive.
    assert (e = 0) by lia. subst e. change (2 ^ (- 0)) with 1 in Hq.
    assert (t = Zpos m) by lia. subst t.
    pose proof (valid_exponent_0 x false m Hx) as Hd.
    apply Prim2SF_inj. rewrite Hx, number_of_Z_nonneg by lia.
    symmetry. now apply SFint_53.
  - cbn [cond_Zopp]. rewrite Z.shiftr_div_pow2 by lia.
    assert (Hdiv : - Zpos m / 2 ^ (- e) = - t) by (apply div_between; lia).
    change (Zneg m) with (- Zpos m). rewrite Hdiv.
    assert (0 < t) by nia.
    destruct (Z.eqb_spec (- t) 0) as [|_]; [lia|].
    rewrite number_of_Z_neg by lia. apply opp_involutive.
Qed.

Lemma div_int_spec u a :
  0 <= u < 2 ^ 53 -> 0 <= a < 2 ^ 53 ->
  Prim2SF (N u / N a)%float = SFdiv prec emax (SFint u) (SFint a).
Proof.
  intros Hu Ha. now rewrite FloatAxioms.div_spec, !number_of_Z_nonneg.
Qed.

(** For integers below [2^53], [Math.floor(u / a)] is the integer
    quotient. *)
Lemma Math_floor_div u a :
  0 <= u < 2 ^ 53 -> 0 < a < 2 ^ 53 ->
  JS.Math_floor (N u / N a)%float = N (u / a).
Proof.
  intros Hu Ha. pose proof (div_int_spec u a Hu ltac:(lia)) as Hx.
  destruct a as [|a|a]; try lia. destruct u as [|u|u]; try lia.
  - unfold SFint, SFpos in Hx. cbn [SFdiv xorb] in Hx. unfold JS.Math_floor. rewrite Hx.
    apply Prim2SF_inj. now rewrite Hx.
  - destruct (SFdiv_int_between u a ltac:(lia) ltac:(lia))
      as (m & e & Heq & He & _ & Hex & Hin).
    rewrite Heq in Hx. apply (Math_floor_between _ m e); [assumption | lia |].
    pose proof (Z.mod_pos_bound (Zpos u) (Zpos a) ltac:(lia)) as Hr.
    assert (HW : 0 < 2 ^ (- e)) by (apply Z.pow_pos_nonneg; lia).
    destruct (Z.eq_dec (Zpos u mod Zpos a) 0) as [H0 | H0].
    + rewrite (Hex H0). nia.
    + specialize (Hin ltac:(lia)). lia.
Qed.

(** The integer ceiling of [d / a]. *)
Definition ceil_div (d a : Z) : Z := (d + a - 1) / a.

Lemma ceil_div_exact d a : 0 < a -> d mod a = 0 -> ceil_div d a = d / a.
Proof.
  intros Ha H0. unfold ceil_div. apply div_between; [assumption|].
  pose proof (Z.div_mod d a ltac:(lia)). nia.
Qed.

Lemma ceil_div_inexact d a : 0 < a -> 0 < d mod a -> ceil_div d a = d / a + 1.
Proof.
  intros Ha H0. unfold ceil_div. apply div_between; [assumption|].
  pose proof (Z.div_mod d a ltac:(lia)).
  pose proof (Z.mod_pos_bound d a ltac:(lia)). nia.
Qed.

Lemma ceil_div_bounds d a : 0 <= d -> 0 < a -> d / a <= ceil_div d a <= d.
Proof.
  intros Hd Ha. pose proof (Z.mod_pos_bound d a ltac:(lia)) as Hr.
  pose proof (Z.div_mod d a ltac:(lia)) as Hdm.
  assert (0 <= d / a) by (apply Z.div_pos; lia).
  destruct (Z.eq_dec (d mod a) 0) as [H0 | H0].
  - rewrite ceil_div_exact by assumption. nia.
  - rewrite ceil_div_inexact by lia. nia.
Qed.

(** For integers below [2^53], [Math.ceil(d / a)] is the integer
    ceiling. *)
Lemma Math_ceil_div d a :
  0 <= d < 2 ^ 53 -> 0 < a < 2 ^ 53 ->
  JS.Math_ceil (N d / N a)%float = N (ceil_div d a).
Proof.
  intros Hd Ha. pose proof (div_int_spec d a Hd ltac:(lia)) as Hx.
  pose proof (ceil_div_bounds d a ltac:(lia) ltac:(lia)) as Hb.
  destruct a as [|a|a]; try lia. destruct d as [|d|d]; try lia.
  - unfold SFint, SFpos in Hx. cbn [SFdiv xorb] in Hx. unfold JS.Math_ceil, JS.Math_floor.
    rewrite FloatAxioms.opp_spec, Hx. cbn [SFopp]. rewrite opp_involutive.
    assert (H0 : ceil_div 0 (Zpos a) = 0) by (unfold ceil_div; apply div_between; lia).
    rewrite H0. apply Prim2SF_inj. now rewrite Hx.
  - destruct (SFdiv_int_between d a ltac:(lia) ltac:(lia))
      as (m & e & Heq & He & _ & Hex & Hin).
    rewrite Heq in Hx. apply (Math_ceil_between _ m e); [assumption | lia | lia |].
    pose proof (Z.mod_pos_bound (Zpos d) (Zpos a) ltac:(lia)) as Hr.
    assert (HW : 0 < 2 ^ (- e)) by (apply Z.pow_pos_nonneg; lia).
    destruct (Z.eq_dec (Zpos d mod Zpos a) 0) as [H0 | H0].
    + rewrite ceil_div_exact, (Hex H0) by (lia || assumption). nia.
    + rewrite ceil_div_inexact by lia. specialize (Hin ltac:(lia)).
      replace (Zpos d / Zpos a + 1 - 1) with (Zpos d / Zpos a) by lia. lia.
Qed.

End IntegerDivision.

(** ** The remainder *)

Section Remainder.

Local Abbreviation N := JS.number_of_Z.

Lemma SFpos_scale p q k e :
  0 <= k -> Zpos q = Zpos p * 2 ^ k -> bitlen q <= 53 ->
  SFpos q (e - k) = SFpos p e.
Proof.
  intros Hk Hq Hd. pose proof (bitlen_shift p k q Hk Hq) as Hs.
  pose proof (bitlen_pos p).
  destruct (SFpos_eq q (e - k) Hd) as (m1 & -> & Hm1 & _).
  destruct (SFpos_eq p e ltac:(lia)) as (m2 & -> & Hm2 & _).
  f_equal; [|lia]. apply Pos2Z.inj. rewrite Hm1, Hm2, Hq, Hs.
  rewrite <- Z.mul_assoc, <- Z.pow_add_r by lia. f_equal. f_equal. lia.
Qed.

(** For integers below [2^53], [%] on numbers is the integer remainder. *)
Lemma rem_int u a :
  0 <= u < 2 ^ 53 -> 0 < a < 2 ^ 53 ->
  JS.rem (N u) (N a) = N (u mod a).
Proof.
  intros Hu Ha. unfold JS.rem. rewrite !number_of_Z_nonneg by lia.
  destruct a as [|a|a]; try lia. destruct u as [|u|u]; try lia.
  - reflexivity.
  - cbn [SFint].
    pose proof (bitlen_le_53 u ltac:(lia)) as Hdu. pose proof (bitlen_le_53 a ltac:(lia)) as Hda.
    pose proof (bitlen_pos u) as Hdu0. pose proof (bitlen_pos a) as Hda0.
    destruct (SFpos_eq u 0 Hdu) as (mu & -> & Hmu & Hbu).
    destruct (SFpos_eq a 0 Hda) as (ma & -> & Hma & Hba).
    cbv zeta.
    set (e := Z.min (bitlen u + 0 - 53) (bitlen a + 0 - 53)).
    assert (He : -52 <= e <= 0) by (subst e; lia).
    assert (HW : 0 < 2 ^ (- e)) by (apply Z.pow_pos_nonneg; lia).
    rewrite !Z.shiftl_mul_pow2 by (subst e; lia).
    assert (HuW : Zpos mu * 2 ^ (bitlen u + 0 - 53 - e) = Zpos u * 2 ^ (- e)).
    { rewrite Hmu, <- Z.mul_assoc, <- Z.pow_add_r by (subst e; lia).
      f_equal. f_equal. lia. }
    assert (HaW : Zpos ma * 2 ^ (bitlen a + 0 - 53 - e) = Zpos a * 2 ^ (- e)).
    { rewrite Hma, <- Z.mul_assoc, <- Z.pow_add_r by (subst e; lia).
      f_equal. f_equal. lia. }
    assert (Hsmall : Zpos u * 2 ^ (- e) < 2 ^ 53 \/ Zpos a * 2 ^ (- e) < 2 ^ 53).
    { pose proof (bitlen_bounds mu) as Bu. pose proof (bitlen_bounds ma) as Ba.
      rewrite Hbu in Bu. rewrite Hba in Ba.
      destruct (Z.min_spec (bitlen u + 0 - 53) (bitlen a + 0 - 53)) as [[_ Hm] | [_ Hm]];
        fold e in Hm.
      - left. rewrite <- HuW, <- Hm, Z.sub_diag. change (2 ^ 0) with 1. lia.
      - right. rewrite <- HaW, <- Hm, Z.sub_diag. change (2 ^ 0) with 1. lia. }
    rewrite HuW, HaW, Zmult_mod_distr_r.
    pose proof (Z.mod_pos_bound (Zpos u) (Zpos a) ltac:(lia)) as Hr.
    pose proof (Z.mod_le (Zpos u) (Zpos a) ltac:(lia) ltac:(lia)) as Hle.
    destruct (Zpos u mod Zpos a) as [|rho|rho] eqn:Hrho; try lia.
    + reflexivity.
    + assert (Hprod : exists pr, Zpos rho * 2 ^ (- e) = Zpos pr).
      { exists (Z.to_pos (Zpos rho * 2 ^ (- e))). rewrite Z2Pos.id; [reflexivity | nia]. }
      destruct Hprod as [pr Hpr]. rewrite Hpr. cbn [cond_Zopp].
      assert (Hdpr : bitlen pr <= 53) by (apply bitlen_le_53; nia).
      pose proof (bitlen_shift rho (- e) pr ltac:(lia) ltac:(lia)) as Hs.
      pose proof (bitlen_pos rho).
      rewrite normalize_pos by lia.
      replace e with (0 - - e) by lia.
      rewrite (SFpos_scale rho pr (- e) 0) by (lia || assumption).
      change (SFpos rho 0) with (SFint (Zpos rho)).
      rewrite <- number_of_Z_nonneg by lia. apply SF2Prim_Prim2SF.
Qed.

End Remainder.

(** ** Order and sums *)

Section Order.

Local Abbreviation N := JS.number_of_Z.

(** A normal number of value at most [t] is below the float of [t]. *)
Lemma SFleb_le_int mc ec t :
  bitlen mc = 53 -> ec <= 0 -> 0 < t < 2 ^ 53 ->
  Zpos mc <= t * 2 ^ (- ec) ->
  SFleb (S754_finite false mc ec) (SFint t) = true.
Proof.
  intros Hc He Ht Hle. destruct t as [|t|t]; try lia. cbn [SFint].
  pose proof (bitlen_le_53 t ltac:(lia)) as Hdt. pose proof (bitlen_pos t) as Hdt0.
  destruct (SFpos_eq t 0 Hdt) as (mt & -> & Hmt & Hbt).
  unfold SFleb, SFcompare.
  destruct (Z.compare_spec ec (bitlen t + 0 - 53)) as [Heq | Hlt | Hgt].
  - fold (Pos.compare mc mt).
    destruct (Pos.compare_spec mc mt) as [| |Hgt]; try reflexivity.
    exfalso. subst ec. replace (- (bitlen t + 0 - 53)) with (53 - bitlen t) in Hle by lia.
    lia.
  - reflexivity.
  - exfalso. pose proof (bitlen_bounds mc) as [Hmc _]. rewrite Hc in Hmc.
    pose proof (bitlen_bounds t) as [_ Htu].
    assert (HW : 0 < 2 ^ (- ec)) by (apply Z.pow_pos_nonneg; lia).
    assert (Hlt : Zpos mc < 2 ^ bitlen t * 2 ^ (- ec)) by nia.
    rewrite <- Z.pow_add_r in Hlt by lia.
    assert (2 ^ (bitlen t + - ec) <= 2 ^ 52) by (apply Z.pow_le_mono_r; lia).
    change (53 - 1) with 52 in Hmc. lia.
Qed.

Lemma SFleb_int q t :
  0 <= q <= t -> t < 2 ^ 53 -> SFleb (SFint q) (SFint t) = true.
Proof.
  intros Hq Ht. destruct q as [|q|q]; try lia.
  - destruct t as [|t|t]; try lia; reflexivity.
  - pose proof (bitlen_le_53 q ltac:(lia)) as Hdq. pose proof (bitlen_pos q) as Hdq0.
    cbn [SFint]. destruct (SFpos_eq q 0 Hdq) as (mq & -> & Hmq & Hbq).
    apply SFleb_le_int; try lia.
    replace (- (bitlen q + 0 - 53)) with (53 - bitlen q) by lia.
    assert (0 < 2 ^ (53 - bitlen q)) by (apply Z.pow_pos_nonneg; lia). nia.
Qed.

(** Rounding an exact value of at least 53 bits. *)
Lemma binary_round_aux_exact_renormalized p e :
  53 <= bitlen p -> -1074 <= e -> e + (bitlen p - 53) + 1 <= 971 ->
  exists m2,
    Zpos p / 2 ^ (bitlen p - 53) <= m2 <= Zpos p / 2 ^ (bitlen p - 53) + 1 /\
    2 ^ 52 <= Zpos p / 2 ^ (bitlen p - 53) < 2 ^ 53 /\
    binary_round_aux prec emax false (Zpos p) e loc_Exact
    = renormalized m2 (e + (bitlen p - 53)).
Proof.
  intros Hd He Hemax. rewrite binary_round_aux_unfold.
  pose proof (shr_fexp_m_e (Zpos p) e loc_Exact ltac:(lia)) as [H1 H1e].
  assert (Hs : shift_of (Zpos p) e = bitlen p - 53).
  { unfold shift_of. rewrite Zdigits2_pos, fexp64_eq. lia. }
  rewrite Hs in H1, H1e.
  destruct (shr_fexp prec emax (Zpos p) e loc_Exact) as [r1 e1]. cbn [fst snd] in *.
  subst e1. set (m2 := round_nearest_even (shr_m r1) (loc_of_shr_record r1)).
  pose proof (round_nearest_even_bounds (shr_m r1) (loc_of_shr_record r1)) as Hb.
  fold m2 in Hb. rewrite H1 in Hb.
  assert (Hm1 : 2 ^ 52 <= Zpos p / 2 ^ (bitlen p - 53) < 2 ^ 53).
  { pose proof (bitlen_bounds p) as [Hl Hu].
    assert (HP : 0 < 2 ^ (bitlen p - 53)) by (apply Z.pow_pos_nonneg; lia).
    assert (E1 : 2 ^ (bitlen p - 1) = 2 ^ 52 * 2 ^ (bitlen p - 53))
      by (rewrite <- Z.pow_add_r by lia; f_equal; lia).
    assert (E2 : 2 ^ bitlen p = 2 ^ 53 * 2 ^ (bitlen p - 53))
      by (rewrite <- Z.pow_add_r by lia; f_equal; lia).
    split.
    - apply Z.div_le_lower_bound; lia.
    - apply Z.div_lt_upper_bound; lia. }
  exists m2. split; [exact Hb|]. split; [exact Hm1|].
  apply shr_fexp_renormalize; lia.
Qed.

End Order.

Section Addition.

Local Abbreviation N := JS.number_of_Z.

(** An integer plus a fraction below 1 does not round past the next
    integer. *)
Lemma SFadd_int_fraction_le q mf ef t :
  0 <= q -> q + 1 <= t -> t < 2 ^ 53 ->
  bitlen mf = 53 -> -1074 <= ef -> Zpos mf < 2 ^ (- ef) ->
  SFleb (SFadd prec emax (SFint q) (S754_finite false mf ef)) (SFint t) = true.
Proof.
  intros Hq Hqt Ht Hbf Hef Hf.
  pose proof (bitlen_bounds mf) as [Hmf _]. rewrite Hbf in Hmf. change (53 - 1) with 52 in Hmf.
  assert (Hef53 : ef <= -53).
  { destruct (Z_le_gt_dec ef (-53)); [assumption|exfalso].
    assert (2 ^ (- ef) <= 2 ^ 52) by (apply Z.pow_le_mono_r; lia). lia. }
  assert (HW : 0 < 2 ^ (- ef)) by (apply Z.pow_pos_nonneg; lia).
  destruct q as [|q|q]; try lia.
  - (* 0 + f = f *)
    cbn [SFint SFadd]. apply SFleb_le_int; try lia. nia.
  - cbn [SFint].
    pose proof (bitlen_le_53 q ltac:(lia)) as Hdq. pose proof (bitlen_pos q) as Hdq0.
    destruct (SFpos_eq q 0 Hdq) as (mq & -> & Hmq & Hbq).
    cbn [SFadd cond_Zopp].
    replace (Z.min (bitlen q + 0 - 53) ef) with ef by lia.
    destruct (shl_align_spec mq (bitlen q + 0 - 53) ef ltac:(lia)) as [_ Hsq].
    destruct (shl_align_spec mf ef ef ltac:(lia)) as [_ Hsf].
    rewrite Z.sub_diag in Hsf. change (2 ^ 0) with 1 in Hsf.
    set (M := Zpos (fst (shl_align mq (bitlen q + 0 - 53) ef))
              + Zpos (fst (shl_align mf ef ef))).
    assert (HM : M = Zpos q * 2 ^ (- ef) + Zpos mf).
    { subst M. rewrite Hsq, Hsf, Hmq, <- Z.mul_assoc, <- Z.pow_add_r by lia.
      f_equal; [|lia]. f_equal. f_equal. lia. }
    assert (HMpos : 0 < M) by (subst M; lia).
    clearbody M. destruct M as [|pm|pm]; try lia.
    cbn [binary_normalize]. unfold binary_round.
    pose proof (bitlen_bounds pm) as [Hpl Hpu].
    assert (H53 : 2 ^ 53 <= 2 ^ (- ef)) by (apply Z.pow_le_mono_r; lia).
    assert (Hdm : 54 <= bitlen pm).
    { destruct (Z_le_gt_dec 54 (bitlen pm)); [assumption|exfalso].
      assert (2 ^ bitlen pm <= 2 ^ 53) by (apply Z.pow_le_mono_r; lia). nia. }
    assert (Hdm2 : bitlen pm <= 53 - ef).
    { destruct (Z_le_gt_dec (bitlen pm) (53 - ef)); [assumption|exfalso].
      assert (Hge : 2 ^ (53 + - ef) <= 2 ^ (bitlen pm - 1)) by (apply Z.pow_le_mono_r; lia).
      rewrite Z.pow_add_r in Hge by lia.
      assert (Zpos pm < (Zpos q + 1) * 2 ^ (- ef)) by lia.
      assert ((Zpos q + 1) * 2 ^ (- ef) <= 2 ^ 53 * 2 ^ (- ef))
        by (apply Z.mul_le_mono_nonneg_r; lia).
      lia. }
    assert (Hfx : fexp64 (Zpos (digits2_pos pm) + ef) = bitlen pm + ef - 53)
      by (rewrite fexp64_eq; unfold bitlen in *; lia).
    rewrite Hfx.
    assert (Hal : shl_align pm ef (bitlen pm + ef - 53) = (pm, ef)).
    { unfold shl_align. destruct (bitlen pm + ef - 53 - ef) eqn:Hd; try reflexivity. lia. }
    rewrite Hal.
    destruct (binary_round_aux_exact_renormalized pm ef ltac:(lia) Hef ltac:(lia))
      as (m2 & Hm2 & Hm1 & ->).
    set (s := bitlen pm - 53) in *. set (e1 := ef + s).
    assert (He1 : e1 <= 0) by (subst e1 s; lia).
    assert (Hs0 : 0 <= s) by (subst s; lia).
    assert (HWs : 2 ^ (- ef) = 2 ^ (- e1) * 2 ^ s).
    { rewrite <- Z.pow_add_r by lia. f_equal. subst e1. lia. }
    assert (HP : 0 < 2 ^ s) by (apply Z.pow_pos_nonneg; lia).
    assert (HW1 : 0 < 2 ^ (- e1)) by (apply Z.pow_pos_nonneg; lia).
    assert (Hm1lt : Zpos pm / 2 ^ s < (Zpos q + 1) * 2 ^ (- e1)).
    { apply Z.div_lt_upper_bound; [assumption|]. rewrite HM, HWs in *. nia. }
    assert (Hval : m2 <= t * 2 ^ (- e1)) by nia.
    unfold renormalized. destruct (Z.eqb_spec m2 (2 ^ 53)) as [Heq | Hne].
    + assert (He1' : e1 <= -1).
      { destruct (Z.eq_dec e1 0) as [E0|]; [|lia]. exfalso.
        rewrite E0 in Hval. change (2 ^ (- 0)) with 1 in Hval. lia. }
      apply SFleb_le_int; try lia; [reflexivity|].
      change (Zpos (Z.to_pos (2 ^ 52))) with (2 ^ 52).
      assert (E : 2 ^ (- e1) = 2 * 2 ^ (- (e1 + 1))).
      { replace (- e1) with (1 + - (e1 + 1)) by lia. now rewrite Z.pow_add_r by lia. }
      assert (H53' : 2 ^ 53 = 2 * 2 ^ 52) by reflexivity.
      lia.
    + destruct m2 as [|p2|p2]; try lia.
      apply SFleb_le_int; try lia.
      apply bitlen_unique. change (53 - 1) with 52. cbn [Z.to_pos]. lia.
Qed.

End Addition.

Section CompletedCycles.

Local Abbreviation N := JS.number_of_Z.
Local Open Scope float_scope.

(** The cycle counts of amounts below [2^53]: the completed cycles,
    fraction included, do not exceed the total cycles. *)
Lemma cycles_completed_le_total (d u a : Z) :
  (0 <= u <= d)%Z -> (d < 2 ^ 53)%Z -> (0 < a < 2 ^ 53)%Z ->
  let c := cycles (N d) (N u) (N a) in
  (c_completedFullCycles c + c_currentCycleUsed c <=? c_totalCycles c) = true.
Proof.
  intros Hu Hd Ha. cbn [cycles c_completedFullCycles c_currentCycleUsed c_totalCycles].
  rewrite Math_ceil_div, Math_floor_div, rem_int by lia.
  pose proof (Z.mod_pos_bound u a ltac:(lia)) as Hr.
  pose proof (ceil_div_bounds d a ltac:(lia) ltac:(lia)) as Ht.
  assert (Hq0 : (0 <= u / a)%Z) by (apply Z.div_pos; lia).
  assert (Hqd : (u / a <= d / a)%Z) by (apply Z.div_le_mono; lia).
  assert (Hqu : (u / a <= u)%Z) by (apply Z.div_le_upper_bound; nia).
  rewrite FloatAxioms.leb_spec, FloatAxioms.add_spec. unfold SF64add.
  rewrite (number_of_Z_nonneg (ceil_div d a)), (number_of_Z_nonneg (u / a)) by lia.
  rewrite div_int_spec by lia.
  destruct (Z.eq_dec (u mod a) 0%Z) as [H0 | H0].
  - rewrite H0. destruct a as [|a|a]; try lia.
    unfold SFint at 2 3, SFpos. cbn [SFdiv xorb].
    assert (Hadd : SFadd prec emax (SFint (u / Zpos a)) (S754_zero false) = SFint (u / Zpos a)).
    { destruct (u / Zpos a)%Z as [|q|q]; try lia; reflexivity. }
    rewrite Hadd. apply SFleb_int; lia.
  - destruct a as [|a|a]; try lia.
    destruct (u mod Zpos a)%Z as [|r|r] eqn:Hrm; try lia.
    destruct (SFdiv_int_between r a ltac:(lia) ltac:(lia))
      as (mf & ef & -> & Hef & Hbf & _ & Hin).
    assert (Hsmall : (Zpos r mod Zpos a = Zpos r)%Z) by (apply Z.mod_small; lia).
    assert (Hsmall' : (Zpos r / Zpos a = 0)%Z) by (apply Z.div_small; lia).
    rewrite Hsmall, Hsmall' in Hin. specialize (Hin ltac:(lia)).
    apply SFadd_int_fraction_le; try lia.
    assert (Hcu : (ceil_div u (Zpos a) = u / Zpos a + 1)%Z)
      by (apply ceil_div_inexact; lia).
    assert (Hmono : (ceil_div u (Zpos a) <= ceil_div d (Zpos a))%Z)
      by (unfold ceil_div; apply Z.div_le_mono; lia).
    lia.
Qed.

End CompletedCycles.

(** ** Signs *)

Section Signs.

(** Zero (of either sign), a positive finite number or [+Infinity]:
    the numbers [x] with [x >= 0]. *)
Definition SFnonneg (x : spec_float) : Prop :=
  match x with
  | S754_zero _ | S754_finite false _ _ | S754_infinity false => True
  | _ => False
  end.

(** A positive finite number of exponent at least [lo], or [+Infinity]. *)
Definition SFpositive (lo : Z) (x : spec_float) : Prop :=
  match x with
  | S754_finite false _ e => lo <= e
  | S754_infinity false => True
  | _ => False
  end.

(** [+0] or a positive finite number. *)
Definition SFfinite_nonneg (x : spec_float) : Prop :=
  match x with
  | S754_zero false | S754_finite false _ _ => True
  | _ => False
  end.

Lemma SFsign_nonneg x : SFsign x false -> SFnonneg x.
Proof. destruct x as [| | |[] m e]; cbn; intros H; subst; auto; discriminate. Qed.

Lemma SFpositive_nonneg lo x : SFpositive lo x -> SFnonneg x.
Proof. destruct x as [|[]| |[] m e]; cbn; auto. Qed.

Lemma SFpositive_weaken lo lo' x : lo' <= lo -> SFpositive lo x -> SFpositive lo' x.
Proof. destruct x as [|[]| |[] m e]; cbn; auto. lia. Qed.

Lemma SFfinite_nonneg_nonneg x : SFfinite_nonneg x -> SFnonneg x.
Proof. destruct x as [[]|[]| |[] m e]; cbn; auto. Qed.

Lemma binary_round_aux_positive m e l :
  0 < m -> -1074 <= e -> SFpositive e (binary_round_aux prec emax false m e l).
Proof.
  intros Hm He. destruct (binary_round_aux_shape false m e l ltac:(lia)) as (m2 & Hm2 & ->).
  pose proof (shift_positive m e Hm He) as H1.
  assert (He1 : -1074 <= e + shift_of m e) by (unfold shift_of; lia).
  pose proof (shift_positive m2 _ ltac:(lia) He1) as H2.
  destruct (m2 / 2 ^ shift_of m2 (e + shift_of m e)); [lia | | lia].
  destruct (_ <=? _); cbn; [|exact I]. unfold shift_of. lia.
Qed.

Lemma binary_round_positive p e :
  -1074 <= e ->
  SFpositive (Z.min e (fexp64 (bitlen p + e))) (binary_round prec emax false p e).
Proof.
  intros He. unfold binary_round. fold (bitlen p).
  set (e' := fexp64 (bitlen p + e)).
  assert (He' : -1074 <= e') by (subst e'; rewrite fexp64_eq; lia).
  assert (Hal : Z.min e e' <= snd (shl_align p e e') /\ -1074 <= snd (shl_align p e e')).
  { unfold shl_align. destruct (e' - e) eqn:Hd; cbn [snd]; lia. }
  destruct (shl_align p e e') as [mz ez]. cbn [snd] in Hal.
  apply SFpositive_weaken with (lo := ez); [lia|].
  apply binary_round_aux_positive; lia.
Qed.

Lemma binary_round_sign s p e : SFsign (binary_round prec emax s p e) s.
Proof.
  unfold binary_round. destruct (shl_align p e _) as [mz ez].
  apply binary_round_aux_sign. lia.
Qed.

Lemma SFadd_nonneg x y : SFnonneg x -> SFnonneg y -> SFnonneg (SFadd prec emax x y).
Proof.
  destruct x as [[]|[]| |[] mx ex], y as [[]|[]| |[] my ey]; cbn [SFnonneg];
    try contradiction; intros _ _; try exact I.
  cbn [SFadd cond_Zopp].
  match goal with
  | |- SFnonneg (binary_normalize _ _ (Zpos ?a + Zpos ?b) _ _) =>
      change (Zpos a + Zpos b) with (Zpos (a + b))
  end.
  cbn [binary_normalize]. apply SFsign_nonneg, binary_round_sign.
Qed.

Lemma SFmul_positive lo1 lo2 x y :
  SFpositive lo1 x -> SFpositive lo2 y -> -1074 <= lo1 + lo2 ->
  SFpositive (lo1 + lo2) (SFmul prec emax x y).
Proof.
  destruct x as [[]|[]| |[] mx ex], y as [[]|[]| |[] my ey]; cbn [SFpositive];
    try contradiction; intros Hx Hy Hlo; try exact I.
  cbn [SFmul xorb]. apply SFpositive_weaken with (lo := ex + ey); [lia|].
  apply binary_round_aux_positive; lia.
Qed.

Lemma SFmul_finite_nonneg x y :
  SFfinite_nonneg x -> SFfinite_nonneg y -> SFnonneg (SFmul prec emax x y).
Proof.
  destruct x as [[]|[]| |[] mx ex], y as [[]|[]| |[] my ey]; cbn [SFfinite_nonneg];
    try contradiction; intros _ _; try exact I.
  cbn [SFmul xorb]. apply SFsign_nonneg, binary_round_aux_sign. lia.
Qed.

Lemma SFdiv_core_nonneg m1 e1 m2 e2 :
  0 <= m1 -> 0 < m2 ->
  0 <= fst (fst (SFdiv_core_binary prec emax m1 e1 m2 e2)).
Proof.
  intros H1 H2. unfold SFdiv_core_binary. cbv zeta.
  set (s := e1 - e2 - _).
  set (m' := match s with Zpos _ => Z.shiftl m1 s | Z0 => m1 | Zneg _ => 0 end).
  assert (Hm' : 0 <= m').
  { subst m'. destruct s; try lia. apply Z.shiftl_nonneg. assumption. }
  rewrite div_eucl_eq. cbn [fst]. apply Z.div_pos; lia.
Qed.

(** A positive number over a price that is [+0] or positive. *)
Lemma SFdiv_positive_nonneg lo x p :
  SFpositive lo x -> SFfinite_nonneg p -> SFnonneg (SFdiv prec emax x p).
Proof.
  destruct x as [[]|[]| |[] mx ex], p as [[]|[]| |[] mp ep];
    cbn [SFpositive SFfinite_nonneg]; try contradiction; intros _ _; try exact I.
  cbn [SFdiv xorb].
  pose proof (SFdiv_core_nonneg (Zpos mx) ex (Zpos mp) ep ltac:(lia) ltac:(lia)) as HQ.
  destruct (SFdiv_core_binary prec emax (Zpos mx) ex (Zpos mp) ep) as [[Q e'] l].
  cbn [fst] in HQ. now apply SFsign_nonneg, binary_round_aux_sign.
Qed.

End Signs.

Section Volumes.

Local Abbreviation N := JS.number_of_Z.
Local Open Scope float_scope.
Import Account.

Lemma ge0_nonneg (x : number) : SFnonneg (Prim2SF x) -> JS.ge0 x = true.
Proof.
  unfold JS.ge0. rewrite FloatAxioms.leb_spec. change (Prim2SF PrimFloat.zero) with (S754_zero false).
  destruct (Prim2SF x) as [[]|[]| |[] m e]; cbn; try contradiction; reflexivity.
Qed.

Lemma of_uint63_nonneg n : SFnonneg (Prim2SF (of_uint63 n)).
Proof.
  rewrite of_uint63_spec. pose proof (Uint63.to_Z_bounded n) as [Hn _].
  destruct (Uint63.to_Z n) as [|p|p]; try lia; cbn [binary_normalize]; [exact I|].
  apply SFsign_nonneg, binary_round_sign.
Qed.

Lemma Math_round_nonneg (x : number) :
  SFnonneg (Prim2SF x) -> SFnonneg (Prim2SF (JS.Math_round x)).
Proof.
  intros Hx. unfold JS.Math_round.
  destruct (Prim2SF x) as [s|s| |s m e] eqn:Hp; try (rewrite Hp; exact Hx).
  destruct s; [contradiction|].
  destruct (0 <=? e)%Z; [rewrite Hp; exact Hx|].
  cbn [cond_Zopp].
  set (z := Z.shiftr (2 * Zpos m + Z.shiftl 1 (- e)) (1 - e)).
  assert (Hz : (0 <= z)%Z).
  { subst z. apply Z.shiftr_nonneg.
    assert (0 <= Z.shiftl 1 (- e))%Z by (apply Z.shiftl_nonneg; lia). lia. }
  destruct (Z.eqb_spec z 0) as [_ | Hne]; [exact I|].
  unfold JS.number_of_Z. replace (z <? 0)%Z with false by (symmetry; apply Z.ltb_ge; lia).
  apply of_uint63_nonneg.
Qed.

Lemma pow10_6_int : JS.pow10_6 = N 1000000.
Proof. reflexivity. Qed.

(** An amount in token units: [+0] or a positive finite number. *)
Lemma scaled_amount k :
  (0 <= k < 2 ^ 53)%Z -> SFfinite_nonneg (Prim2SF (N k / JS.pow10_6)).
Proof.
  intros Hk. rewrite pow10_6_int, div_int_spec by lia.
  destruct k as [|k|k]; try lia; [exact I|].
  destruct (SFdiv_int_between k 1000000 ltac:(lia) ltac:(lia)) as (m & e & -> & _).
  exact I.
Qed.

Lemma scaled_amount_positive k :
  (0 < k < 2 ^ 53)%Z -> SFpositive (-105) (Prim2SF (N k / JS.pow10_6)).
Proof.
  intros Hk. rewrite pow10_6_int, div_int_spec by lia.
  destruct k as [|k|k]; try lia.
  destruct (SFdiv_int_between k 1000000 ltac:(lia) ltac:(lia)) as (m & e & -> & He & _).
  cbn. lia.
Qed.

Lemma ceil_div_ge d a : (0 < a)%Z -> (d <= ceil_div d a * a)%Z.
Proof.
  intros Ha. pose proof (Z.div_mod d a ltac:(lia)) as Hdm.
  pose proof (Z.mod_pos_bound d a ltac:(lia)) as Hr.
  destruct (Z.eq_dec (d mod a) 0%Z) as [H0 | H0].
  - rewrite ceil_div_exact by assumption. nia.
  - rewrite ceil_div_inexact by lia. nia.
Qed.

(** The difference of two integers, the larger first. *)
Lemma SFsub_int_positive q t :
  (0 <= q < t)%Z -> (t < 2 ^ 53)%Z ->
  SFpositive (-104) (SFsub prec emax (SFint t) (SFint q)).
Proof.
  intros Hq Ht. destruct t as [|t|t]; try lia.
  pose proof (bitlen_le_53 t ltac:(lia)) as Hdt. pose proof (bitlen_pos t) as Hdt0.
  cbn [SFint]. destruct (SFpos_eq t 0 Hdt) as (mt & -> & Hmt & Hbt).
  destruct q as [|q|q]; try lia.
  - cbn. lia.
  - pose proof (bitlen_le_53 q ltac:(lia)) as Hdq. pose proof (bitlen_pos q) as Hdq0.
    cbn [SFint]. destruct (SFpos_eq q 0 Hdq) as (mq & -> & Hmq & Hbq).
    cbn [SFsub cond_Zopp].
    set (ez := Z.min (bitlen t + 0 - 53) (bitlen q + 0 - 53)).
    assert (Hez : (-52 <= ez <= 0)%Z) by (subst ez; lia).
    destruct (shl_align_spec mt (bitlen t + 0 - 53) ez ltac:(subst ez; lia)) as [_ Hst].
    destruct (shl_align_spec mq (bitlen q + 0 - 53) ez ltac:(subst ez; lia)) as [_ Hsq].
    set (M := (Zpos (fst (shl_align mt (bitlen t + 0 - 53) ez))
               - Zpos (fst (shl_align mq (bitlen q + 0 - 53) ez)))%Z).
    assert (HM : M = ((Zpos t - Zpos q) * 2 ^ (- ez))%Z).
    { subst M. rewrite Hst, Hsq, Hmt, Hmq, <- !Z.mul_assoc, <- !Z.pow_add_r by lia.
      replace (53 - bitlen t + (bitlen t + 0 - 53 - ez))%Z with (- ez)%Z by lia.
      replace (53 - bitlen q + (bitlen q + 0 - 53 - ez))%Z with (- ez)%Z by lia. lia. }
    assert (HW : (0 < 2 ^ (- ez))%Z) by (apply Z.pow_pos_nonneg; lia).
    assert (HMpos : (0 < M)%Z) by nia.
    clearbody M. destruct M as [|pm|pm]; try lia.
    cbn [binary_normalize].
    pose proof (binary_round_positive pm ez ltac:(lia)) as H.
    apply SFpositive_weaken with (lo' := (-104)%Z) in H; [exact H|].
    rewrite fexp64_eq. pose proof (bitlen_pos pm). lia.
Qed.

End Volumes.

(** ** Exact differences *)

Section ExactShift.

Definition exact_record (m : Z) : shr_record :=
  {| shr_m := m; shr_r := false; shr_s := false |}.

Lemma shr_1_exact (K : Z) : 0 <= K -> shr_1 (exact_record (2 * K)) = exact_record K.
Proof.
  intros HK. destruct K as [|p|p]; try lia; reflexivity.
Qed.

Lemma iter_shr_exact (n : positive) :
  forall K, 0 <= K ->
    SpecFloat.iter_pos shr_1 n (exact_record (K * 2 ^ Zpos n)) = exact_record K.
Proof.
  induction n as [n IH | n IH |]; intros K HK; cbn [SpecFloat.iter_pos].
  - rewrite pow2_xI.
    replace (K * (2 * (2 ^ Zpos n * 2 ^ Zpos n))) with (2 * (K * 2 ^ Zpos n * 2 ^ Zpos n)) by ring.
    assert (0 < 2 ^ Zpos n) by (apply Z.pow_pos_nonneg; lia).
    rewrite shr_1_exact by nia. rewrite IH by nia. now apply IH.
  - rewrite pow2_xO. rewrite Z.mul_assoc.
    assert (0 < 2 ^ Zpos n) by (apply Z.pow_pos_nonneg; lia).
    rewrite IH by nia. now apply IH.
  - change (2 ^ 1) with 2. rewrite Z.mul_comm. now apply shr_1_exact.
Qed.

(** Normalizing an exact multiple of a power of two of a number of at most
    53 bits. *)
Lemma normalize_multiple pk pm n e :
  0 <= n -> Zpos pm = Zpos pk * 2 ^ n -> bitlen pk <= 53 ->
  -1074 <= e -> -1074 <= bitlen pk + e + n - 53 <= 971 ->
  binary_normalize prec emax (Zpos pm) e false = SFpos pk (e + n).
Proof.
  intros Hn Hpm Hdk He Hrange.
  pose proof (bitlen_shift pk n pm Hn Hpm) as Hdm. pose proof (bitlen_pos pk) as Hk0.
  destruct (Z_le_gt_dec (bitlen pm) 53) as [Hsmall | Hbig].
  - rewrite normalize_pos by lia.
    replace e with (e + n - n) at 1 by lia. now apply SFpos_scale.
  - cbn [binary_normalize]. unfold binary_round. fold (bitlen pm).
    assert (Hfx : fexp64 (bitlen pm + e) = bitlen pm + e - 53) by (rewrite fexp64_eq; lia).
    rewrite Hfx.
    assert (Hal : shl_align pm e (bitlen pm + e - 53) = (pm, e)).
    { unfold shl_align. destruct (bitlen pm + e - 53 - e) eqn:Hd; try reflexivity. lia. }
    rewrite Hal. rewrite binary_round_aux_unfold.
    set (s := bitlen pm - 53). assert (Hs : 0 < s <= n) by (subst s; lia).
    assert (HK : Zpos pm = Zpos pk * 2 ^ (n - s) * 2 ^ s).
    { rewrite Hpm, <- Z.mul_assoc, <- Z.pow_add_r by lia. do 2 f_equal. lia. }
    assert (Hsh : shr_fexp prec emax (Zpos pm) e loc_Exact
                  = (exact_record (Zpos pk * 2 ^ (n - s)), e + s)).
    { unfold shr_fexp. rewrite Zdigits2_pos, Hfx.
      replace (bitlen pm + e - 53 - e) with s by (subst s; lia).
      destruct s as [|ps|ps]; try lia. cbn [shr shr_record_of_loc].
      f_equal. rewrite HK. apply iter_shr_exact.
      assert (0 < 2 ^ (n - Zpos ps)) by (apply Z.pow_pos_nonneg; lia). nia. }
    rewrite Hsh. cbn [fst snd exact_record shr_m loc_of_shr_record round_nearest_even].
    assert (HP : 0 < 2 ^ (n - s)) by (apply Z.pow_pos_nonneg; lia).
    destruct (SFpos_eq pk (e + n) Hdk) as (m & -> & Hm & Hbm).
    replace (53 - bitlen pk) with (n - s) in Hm by (subst s; lia).
    rewrite <- Hm. unfold shr_fexp. rewrite Zdigits2_pos, Hbm, fexp64_eq.
    replace (Z.max (53 + (e + s) - 53) (-1074) - (e + s)) with 0 by lia.
    cbn [shr shr_record_of_loc shr_m fst snd].
    replace (e + s <=? emax - prec) with true
      by (symmetry; apply Z.leb_le; change (emax - prec) with 971; subst s; lia).
    f_equal. subst s. lia.
Qed.

(** Subtracting integers below [2^53] is exact. *)
Lemma SFsub_int q t :
  0 <= q <= t -> t < 2 ^ 53 ->
  SFsub prec emax (SFint t) (SFint q) = SFint (t - q).
Proof.
  intros Hq Ht. destruct q as [|q|q]; try lia.
  - rewrite Z.sub_0_r. destruct t as [|t|t]; try lia; reflexivity.
  - destruct t as [|t|t]; try lia.
    pose proof (bitlen_le_53 t ltac:(lia)) as Hdt. pose proof (bitlen_pos t) as Hdt0.
    pose proof (bitlen_le_53 q ltac:(lia)) as Hdq. pose proof (bitlen_pos q) as Hdq0.
    cbn [SFint].
    destruct (SFpos_eq t 0 Hdt) as (mt & Et & Hmt & Hbt).
    destruct (SFpos_eq q 0 Hdq) as (mq & Eq & Hmq & Hbq).
    rewrite Et, Eq. cbn [SFsub cond_Zopp].
    set (ez := Z.min (bitlen t + 0 - 53) (bitlen q + 0 - 53)).
    assert (Hez : -52 <= ez <= 0) by (subst ez; lia).
    destruct (shl_align_spec mt (bitlen t + 0 - 53) ez ltac:(subst ez; lia)) as [_ Hst].
    destruct (shl_align_spec mq (bitlen q + 0 - 53) ez ltac:(subst ez; lia)) as [_ Hsq].
    set (M := Zpos (fst (shl_align mt (bitlen t + 0 - 53) ez))
              - Zpos (fst (shl_align mq (bitlen q + 0 - 53) ez))).
    assert (HM : M = (Zpos t - Zpos q) * 2 ^ (- ez)).
    { subst M. rewrite Hst, Hsq, Hmt, Hmq, <- !Z.mul_assoc, <- !Z.pow_add_r by lia.
      replace (53 - bitlen t + (bitlen t + 0 - 53 - ez)) with (- ez) by lia.
      replace (53 - bitlen q + (bitlen q + 0 - 53 - ez)) with (- ez) by lia. ring. }
    assert (HW : 0 < 2 ^ (- ez)) by (apply Z.pow_pos_nonneg; lia).
    clearbody M.
    destruct (Zpos t - Zpos q) as [|k|k] eqn:Hk; try lia.
    + rewrite HM. reflexivity.
    + assert (HMpos : 0 < M) by nia.
      destruct M as [|pm|pm]; try lia.
      pose proof (bitlen_le_53 k ltac:(lia)) as Hdk. pose proof (bitlen_pos k) as Hdk0.
      rewrite (normalize_multiple k pm (- ez) ez) by lia.
      cbn [SFint]. f_equal. lia.
Qed.

End ExactShift.

Section RemainingCycles.

Local Abbreviation N := JS.number_of_Z.
Local Open Scope float_scope.

Lemma gt0_positive lo (x : number) : SFpositive lo (Prim2SF x) -> JS.gt0 x = true.
Proof.
  unfold JS.gt0. rewrite FloatAxioms.ltb_spec.
  change (Prim2SF PrimFloat.zero) with (S754_zero false).
  destruct (Prim2SF x) as [[]|[]| |[] m e]; cbn; try contradiction; reflexivity.
Qed.

Lemma sub_int q t :
  (0 <= q <= t)%Z -> (t < 2 ^ 53)%Z -> N t - N q = N (t - q).
Proof.
  intros Hq Ht. apply Prim2SF_inj.
  rewrite FloatAxioms.sub_spec, !number_of_Z_nonneg by lia. now apply SFsub_int.
Qed.

(** An integer of at least 1 minus a fraction below 1 is positive. *)
Lemma SFsub_int_fraction_positive k mf ef :
  (0 < k < 2 ^ 53)%Z -> bitlen mf = 53%Z -> (-1074 <= ef)%Z -> (Zpos mf < 2 ^ (- ef))%Z ->
  SFpositive (-1074) (SFsub prec emax (SFint k) (S754_finite false mf ef)).
Proof.
  intros Hk Hbf Hef Hf.
  pose proof (bitlen_bounds mf) as [Hmf _]. rewrite Hbf in Hmf. change (53 - 1)%Z with 52%Z in Hmf.
  assert (Hef53 : (ef <= -53)%Z).
  { destruct (Z_le_gt_dec ef (-53)); [assumption|exfalso].
    assert (2 ^ (- ef) <= 2 ^ 52)%Z by (apply Z.pow_le_mono_r; lia). lia. }
  assert (HW : (0 < 2 ^ (- ef))%Z) by (apply Z.pow_pos_nonneg; lia).
  destruct k as [|k|k]; try lia. cbn [SFint].
  pose proof (bitlen_le_53 k ltac:(lia)) as Hdk. pose proof (bitlen_pos k) as Hdk0.
  destruct (SFpos_eq k 0 Hdk) as (mk & -> & Hmk & Hbk).
  cbn [SFsub cond_Zopp].
  replace (Z.min (bitlen k + 0 - 53) ef) with ef by lia.
  destruct (shl_align_spec mk (bitlen k + 0 - 53) ef ltac:(lia)) as [_ Hsk].
  destruct (shl_align_spec mf ef ef ltac:(lia)) as [_ Hsf].
  rewrite Z.sub_diag in Hsf. change (2 ^ 0)%Z with 1%Z in Hsf.
  set (M := (Zpos (fst (shl_align mk (bitlen k + 0 - 53) ef))
             - Zpos (fst (shl_align mf ef ef)))%Z).
  assert (HM : M = (Zpos k * 2 ^ (- ef) - Zpos mf)%Z).
  { subst M. rewrite Hsk, Hsf, Hmk, <- Z.mul_assoc, <- Z.pow_add_r by lia.
    f_equal; [|lia]. do 2 f_equal. lia. }
  assert (HMpos : (0 < M)%Z) by nia.
  clearbody M. destruct M as [|pm|pm]; try lia.
  cbn [binary_normalize].
  pose proof (binary_round_positive pm ef Hef) as H.
  apply SFpositive_weaken with (lo' := (-1074)%Z) in H; [exact H|].
  rewrite fexp64_eq. lia.
Qed.

(** With less used than deposited, cycles remain. *)
Lemma remaining_cycles_positive (d u a : Z) :
  (0 <= u < d)%Z -> (d < 2 ^ 53)%Z -> (0 < a < 2 ^ 53)%Z ->
  JS.gt0 (c_remainingCycles (cycles (N d) (N u) (N a))) = true.
Proof.
  intros Hu Hd Ha. cbn [cycles c_remainingCycles].
  rewrite Math_ceil_div, Math_floor_div, rem_int by lia.
  pose proof (Z.mod_pos_bound u a ltac:(lia)) as Hr.
  pose proof (ceil_div_bounds d a ltac:(lia) ltac:(lia)) as Ht.
  pose proof (ceil_div_ge d a ltac:(lia)) as Htge.
  assert (Hq0 : (0 <= u / a)%Z) by (apply Z.div_pos; lia).
  assert (Hqa : (u / a * a <= u)%Z).
  { pose proof (Z.div_mod u a ltac:(lia)). nia. }
  assert (Hqt : (u / a < ceil_div d a)%Z) by nia.
  rewrite sub_int by lia.
  apply gt0_positive with (lo := (-1074)%Z).
  rewrite FloatAxioms.sub_spec, number_of_Z_nonneg, div_int_spec by lia.
  unfold SF64sub.
  destruct a as [|a|a]; try lia.
  destruct (u mod Zpos a)%Z as [|r|r] eqn:Hrm; try lia.
  - unfold SFint at 2 3, SFpos. cbn [SFdiv xorb].
    destruct (ceil_div d (Zpos a) - u / Zpos a)%Z as [|k|k] eqn:Hk; try lia.
    cbn [SFint].
    destruct (SFpos_eq k 0 (bitlen_le_53 k ltac:(lia))) as (mk & -> & _ & _).
    cbn. pose proof (bitlen_pos k). lia.
  - destruct (SFdiv_int_between r a ltac:(lia) ltac:(lia))
      as (mf & ef & -> & Hef & Hbf & _ & Hin).
    assert (Hsmall : (Zpos r mod Zpos a = Zpos r)%Z) by (apply Z.mod_small; lia).
    assert (Hsmall' : (Zpos r / Zpos a = 0)%Z) by (apply Z.div_small; lia).
    rewrite Hsmall, Hsmall' in Hin. specialize (Hin ltac:(lia)).
    apply SFsub_int_fraction_positive; lia.
Qed.

End RemainingCycles.

(** ** The volumes of a summary *)

(** The data model's invariant on the amounts of a raw account. *)
Definition amounts_ok (acc : Account.t) : Prop :=
  0 <= Account.inWithdrawn acc <= Account.inDeposited acc /\
  0 <= Account.inUsed acc <= Account.inDeposited acc /\
  0 < Account.inAmountPerCycle acc.

(** A price that is [0] or a positive finite number. *)
Definition nonneg_price (p : number) : bool :=
  match Prim2SF p with
  | S754_zero false | S754_finite false _ _ => true
  | _ => false
  end.

Section VolumesNonneg.

Local Abbreviation N := JS.number_of_Z.
Local Open Scope float_scope.
Import Account.

Definition nonneg (x : number) : Prop := SFnonneg (Prim2SF x).

Lemma fits_bound z : fits z = true -> (- 2 ^ 53 < z < 2 ^ 53)%Z.
Proof. unfold fits. intros H. apply Z.ltb_lt in H. lia. Qed.

Lemma nonneg_price_finite p : nonneg_price p = true -> SFfinite_nonneg (Prim2SF p).
Proof.
  unfold nonneg_price.
  destruct (Prim2SF p) as [[]|[]| |[] m e]; cbn; auto; discriminate.
Qed.

(** What remains to be bought by an active account is positive. *)
Lemma remainingUSDC_positive acc r :
  amounts_ok acc -> isOrderActive acc = true ->
  remainingUSDC acc = Ok r -> SFpositive (-209) (Prim2SF r).
Proof.
  intros (_ & Hu & Ha) Hact H. unfold remainingUSDC in H.
  bind_inv H as deposited Hd. bind_inv H as perCycle Hp. bind_inv H as used Hus.
  apply toNumber_Ok in Hd as [Hfd ->], Hp as [Hfp ->], Hus as [Hfu ->].
  apply fits_bound in Hfd, Hfp, Hfu. injection H as <-.
  unfold isOrderActive in Hact. apply negb_true_iff, Z.eqb_neq in Hact.
  rewrite Math_ceil_div, Math_floor_div by lia.
  set (d := inDeposited acc) in *. set (u := inUsed acc) in *.
  set (a := inAmountPerCycle acc) in *.
  pose proof (ceil_div_bounds d a ltac:(lia) ltac:(lia)) as Ht.
  pose proof (ceil_div_ge d a ltac:(lia)) as Htge.
  assert (Hq0 : (0 <= u / a)%Z) by (apply Z.div_pos; lia).
  assert (Hqa : (u / a * a <= u)%Z).
  { pose proof (Z.div_mod u a ltac:(lia)). pose proof (Z.mod_pos_bound u a ltac:(lia)). nia. }
  assert (Hqt : (u / a < ceil_div d a)%Z) by nia.
  rewrite FloatAxioms.mul_spec, FloatAxioms.sub_spec, !number_of_Z_nonneg by lia.
  change (-209)%Z with (-104 + -105)%Z.
  apply SFmul_positive; [| |lia].
  - apply SFsub_int_positive; lia.
  - apply scaled_amount_positive. lia.
Qed.

(** What remains to be sold is [+0] or a positive finite number. *)
Lemma sellAmount_finite_nonneg acc v :
  amounts_ok acc -> sellAmount acc = Ok v -> SFfinite_nonneg (Prim2SF v).
Proof.
  intros (Hw & _) H. unfold sellAmount in H.
  bind_inv H as raw Hr. apply toNumber_Ok in Hr as [Hf ->]. apply fits_bound in Hf.
  injection H as <-. apply scaled_amount. lia.
Qed.

Lemma zero_nonneg : nonneg 0.
Proof. exact I. Qed.

Lemma add_nonneg x y : nonneg x -> nonneg y -> nonneg (x + y).
Proof. unfold nonneg. rewrite FloatAxioms.add_spec. apply SFadd_nonneg. Qed.

Lemma buyVolume_nonneg buys price v :
  (forall acc, In acc buys -> amounts_ok acc) -> nonneg_price price = true ->
  buyVolume_of buys price = Ok v -> nonneg v.
Proof.
  intros Hok Hp H. unfold buyVolume_of in H. bind_inv H as total Ht. injection H as <-.
  apply Math_round_nonneg.
  apply (reduce_preserves remainingUSDC (fun sum r => sum + r / price) nonneg
           (List.filter isOrderActive buys) 0 total); [|exact zero_nonneg|exact Ht].
  intros sum acc r Hin Hr Hsum. apply filter_In in Hin as [Hin Hact].
  apply add_nonneg; [assumption|].
  unfold nonneg. rewrite FloatAxioms.div_spec.
  apply SFdiv_positive_nonneg with (lo := (-209)%Z).
  - now apply (remainingUSDC_positive acc); [apply Hok| |].
  - now apply nonneg_price_finite.
Qed.

Lemma buyVolumeUSDC_nonneg buys v :
  (forall acc, In acc buys -> amounts_ok acc) ->
  buyVolumeUSDC_of buys = Ok v -> nonneg v.
Proof.
  intros Hok H. unfold buyVolumeUSDC_of in H. bind_inv H as total Ht. injection H as <-.
  apply Math_round_nonneg.
  apply (reduce_preserves remainingUSDC (fun sum r => sum + r) nonneg
           (List.filter isOrderActive buys) 0 total); [|exact zero_nonneg|exact Ht].
  intros sum acc r Hin Hr Hsum. apply filter_In in Hin as [Hin Hact].
  apply add_nonneg; [assumption|].
  apply SFpositive_nonneg with (lo := (-209)%Z).
  now apply (remainingUSDC_positive acc); [apply Hok| |].
Qed.

Lemma sellVolume_nonneg sells v :
  (forall acc, In acc sells -> amounts_ok acc) ->
  sellVolume_of sells = Ok v -> nonneg v.
Proof.
  intros Hok H. unfold sellVolume_of in H.
  apply (reduce_preserves sellAmount (fun sum x => sum + x) nonneg
           (List.filter isOrderActive sells) 0 v); [|exact zero_nonneg|exact H].
  intros sum acc x Hin Hx Hsum. apply filter_In in Hin as [Hin _].
  apply add_nonneg; [assumption|].
  apply SFfinite_nonneg_nonneg. now apply (sellAmount_finite_nonneg acc); [apply Hok|].
Qed.

Lemma sellVolumeUSDC_nonneg sells price v :
  (forall acc, In acc sells -> amounts_ok acc) -> nonneg_price price = true ->
  sellVolumeUSDC_of sells price = Ok v -> nonneg v.
Proof.
  intros Hok Hp H. unfold sellVolumeUSDC_of in H. bind_inv H as total Ht. injection H as <-.
  apply Math_round_nonneg.
  apply (reduce_preserves sellAmount (fun sum x => sum + x * price) nonneg
           (List.filter isOrderActive sells) 0 total); [|exact zero_nonneg|exact Ht].
  intros sum acc x Hin Hx Hsum. apply filter_In in Hin as [Hin _].
  apply add_nonneg; [assumption|].
  unfold nonneg. rewrite FloatAxioms.mul_spec. apply SFmul_finite_nonneg.
  - now apply (sellAmount_finite_nonneg acc); [apply Hok|].
  - now apply nonneg_price_finite.
Qed.

(** The four volumes of an entry of the summary. *)
Definition volumes_nonneg (s : TokenSummary.t) : Prop :=
  JS.ge0 (TokenSummary.buyVolume s) = true /\
  JS.ge0 (TokenSummary.sellVolume s) = true /\
  JS.ge0 (TokenSummary.buyVolumeUSDC s) = true /\
  JS.ge0 (TokenSummary.sellVolumeUSDC s) = true.

Lemma summarize_nonneg orders price s :
  (forall acc, In acc (Orders.buys orders ++ Orders.sells orders) -> amounts_ok acc) ->
  nonneg_price price = true ->
  summarize orders price = Ok s -> volumes_nonneg s.
Proof.
  intros Hok Hp H. apply summarize_Ok in H as (Hbv & Hsv & Hbu & Hsu & _).
  assert (Hb : forall acc, In acc (Orders.buys orders) -> amounts_ok acc)
    by (intros acc Hin; apply Hok, in_or_app; now left).
  assert (Hs : forall acc, In acc (Orders.sells orders) -> amounts_ok acc)
    by (intros acc Hin; apply Hok, in_or_app; now right).
  repeat split; apply ge0_nonneg.
  - exact (buyVolume_nonneg _ _ _ Hb Hp Hbv).
  - exact (sellVolume_nonneg _ _ Hs Hsv).
  - exact (buyVolumeUSDC_nonneg _ _ Hb Hbu).
  - exact (sellVolumeUSDC_nonneg _ _ _ Hs Hp Hsu).
Qed.

End VolumesNonneg.

(** * Cycles and volumes under the data model's invariants *)

Section CycleClaims.

Local Abbreviation N := JS.number_of_Z.
Local Open Scope float_scope.
Import Account.

(** C5: for every raw account satisfying [0 <= used <= deposited] and
    [amountPerCycle > 0], the converted Position satisfies
    [completedCycles <= totalCycles], where
    [completedCycles = floor(used / amountPerCycle)
                       + (used mod amountPerCycle) / amountPerCycle]
    and [totalCycles = ceil(deposited / amountPerCycle)], each operation
    being the binary64 one of the code; [totalCycles] is the exact integer
    ceiling. *)
Theorem C5_completed_cycles_le_total account price token type amounts p :
  convertDCAAccount account price token type amounts = Ok p ->
  (0 <= inUsed account <= inDeposited account)%Z ->
  (0 < inAmountPerCycle account)%Z ->
  let used := N (inUsed account) in
  let perCycle := N (inAmountPerCycle account) in
  let deposited := N (inDeposited account) in
  Position.completedCycles p =
    JS.Math_floor (used / perCycle) + JS.rem used perCycle / perCycle /\
  Position.totalCycles p = JS.Math_ceil (deposited / perCycle) /\
  Position.totalCycles p = N (ceil_div (inDeposited account) (inAmountPerCycle account)) /\
  (Position.completedCycles p <=? Position.totalCycles p) = true.
Proof.
  intros H Hu Ha.
  apply convert_Ok in H as (Hfu & Hfa & Hfd & _ & Ht & Hc & _).
  apply fits_bound in Hfu, Hfa, Hfd.
  rewrite Ht, Hc. cbn [cycles c_totalCycles c_completedFullCycles c_currentCycleUsed].
  repeat split.
  - apply Math_ceil_div; lia.
  - apply (cycles_completed_le_total (inDeposited account) (inUsed account)
             (inAmountPerCycle account)); lia.
Qed.

Lemma C5_completed_cycles_le_total_witness :
  exists p,
    convertDCAAccount scenario_account 1 "CHAOS" BUY None = Ok p /\
    (Position.completedCycles p <=? Position.totalCycles p) = true.
Proof.
  eexists.
  assert (Hp : convertDCAAccount scenario_account 1 "CHAOS" BUY None = Ok _)
    by (vm_compute; reflexivity).
  split; [exact Hp|].
  apply (C5_completed_cycles_le_total scenario_account 1 "CHAOS" BUY None _ Hp);
    cbn; lia.
Defined.

(** C4, as the spec states it, fails: an account that has used more than
    was deposited converts to a Position that is not active although
    [used <> deposited]. *)
Lemma C4_counterexample :
  ~ (forall p,
       convertDCAAccount over_used_account 1 "CHAOS" BUY None = Ok p ->
       (Position.isActive p = false <->
        inUsed over_used_account = inDeposited over_used_account)).
Proof.
  intros H.
  assert (E : exists p, convertDCAAccount over_used_account 1 "CHAOS" BUY None = Ok p
                        /\ Position.isActive p = false)
    by (eexists; split; vm_compute; reflexivity).
  destruct E as (p & Hp & Hact). apply H in Hp. apply Hp in Hact.
  vm_compute in Hact. discriminate Hact.
Qed.

(** C4 (amended): for every raw account satisfying
    [0 <= used <= deposited] and [amountPerCycle > 0], the derived
    Position's [isActive] field is false if and only if [used] equals
    [deposited]; and a summary the aggregator returns is the summary of
    the accounts with [used <> deposited] alone, so that accounts with
    [used = deposited] contribute to no count and no volume. *)
Theorem C4_inactive_accounts account price token type amounts p
    accountsByToken prices summary :
  convertDCAAccount account price token type amounts = Ok p ->
  (0 <= inUsed account <= inDeposited account)%Z ->
  (0 < inAmountPerCycle account)%Z ->
  calculateSummaryFromRawAccounts accountsByToken prices = Ok summary ->
  (Position.isActive p = false <-> inUsed account = inDeposited account) /\
  calculateSummaryFromRawAccounts (activeOnlyByToken accountsByToken) prices = Ok summary.
Proof.
  intros Hp Hu Ha Hs. split; [|now apply calculateSummary_activeOnly].
  apply convert_Ok in Hp as (Hfu & Hfa & Hfd & _ & _ & _ & -> & _).
  apply fits_bound in Hfu, Hfa, Hfd.
  destruct (Z.eq_dec (inUsed account) (inDeposited account)) as [Heq | Hne].
  - split; [auto|]. intros _. apply andb_false_iff. right.
    now apply isOrderActive_false.
  - rewrite remaining_cycles_positive by lia.
    split; [|contradiction]. cbn [andb]. intros Hact.
    now apply isOrderActive_false in Hact.
Qed.

(** A completed LOGOS sell next to the scenario's CHAOS buy. *)
Definition mixed_accounts : ByToken.t Orders.t :=
  {| ByToken.LOGOS :=
       {| Orders.buys := [];
          Orders.sells := [with_amounts scenario_account 5000000 0 5000000 1000000] |};
     ByToken.CHAOS := {| Orders.buys := [scenario_account]; Orders.sells := [] |} |}.

Lemma C4_inactive_accounts_witness :
  exists p summary,
    convertDCAAccount scenario_account 1 "CHAOS" BUY None = Ok p /\
    calculateSummaryFromRawAccounts mixed_accounts zero_prices = Ok summary /\
    (Position.isActive p = false <->
     inUsed scenario_account = inDeposited scenario_account) /\
    calculateSummaryFromRawAccounts (activeOnlyByToken mixed_accounts) zero_prices = Ok summary.
Proof.
  eexists. eexists.
  assert (Hp : convertDCAAccount scenario_account 1 "CHAOS" BUY None = Ok _)
    by (vm_compute; reflexivity).
  assert (Hs : calculateSummaryFromRawAccounts mixed_accounts zero_prices = Ok _)
    by (apply calculateSummary_entries; [reflexivity | |]; vm_compute; reflexivity).
  split; [exact Hp|]. split; [exact Hs|].
  apply (C4_inactive_accounts scenario_account 1 "CHAOS" BUY None _
           mixed_accounts zero_prices _ Hp); [cbn; lia | cbn; lia | exact Hs].
Defined.

(** Prices of [-0], of which [>= 0] holds. *)
Definition neg_zero_prices : ByToken.t number :=
  {| ByToken.LOGOS := PrimFloat.neg_zero; ByToken.CHAOS := PrimFloat.neg_zero |}.

(** C6, as the spec states it, fails: [-0] is a non-negative price, and at
    that price the [buyVolume] of a token with an active BUY is
    [-Infinity]. *)
Lemma C6_counterexample :
  (forall acc,
     In acc (Orders.buys (ByToken.LOGOS mixed_accounts)
             ++ Orders.sells (ByToken.LOGOS mixed_accounts)
             ++ Orders.buys (ByToken.CHAOS mixed_accounts)
             ++ Orders.sells (ByToken.CHAOS mixed_accounts)) ->
     amounts_ok acc) /\
  JS.ge0 (ByToken.LOGOS neg_zero_prices) = true /\
  JS.ge0 (ByToken.CHAOS neg_zero_prices) = true /\
  exists summary s,
    calculateSummaryFromRawAccounts mixed_accounts neg_zero_prices = Ok summary /\
    summary !! "CHAOS" = Some s /\
    TokenSummary.buyVolume s = neg_infinity /\
    JS.ge0 (TokenSummary.buyVolume s) = false.
Proof.
  split; [|split; [reflexivity|split; [reflexivity|]]].
  - intros acc [<- | [<- | []]]; unfold amounts_ok; cbn; lia.
  - eexists. eexists.
    assert (Hs : calculateSummaryFromRawAccounts mixed_accounts neg_zero_prices = Ok _)
      by (apply calculateSummary_entries; [reflexivity | |]; vm_compute; reflexivity).
    split; [exact Hs|]. split.
    + rewrite lookup_insert_ne by done. apply lookup_insert_eq.
    + split; reflexivity.
Qed.

(** The same at [+Infinity]: an active LOGOS sell of which everything
    deposited was withdrawn is valued [0 * Infinity]. *)
Lemma sellVolumeUSDC_at_infinity :
  let withdrawn :=
    {| ByToken.LOGOS :=
         {| Orders.buys := [];
            Orders.sells := [with_amounts scenario_account 5000000 5000000 0 1000000] |};
       ByToken.CHAOS := {| Orders.buys := []; Orders.sells := [] |} |} in
  let prices := {| ByToken.LOGOS := infinity; ByToken.CHAOS := infinity |} in
  JS.ge0 (ByToken.LOGOS prices) = true /\
  exists summary s,
    calculateSummaryFromRawAccounts withdrawn prices = Ok summary /\
    summary !! "LOGOS" = Some s /\
    PrimFloat.is_nan (TokenSummary.sellVolumeUSDC s) = true /\
    JS.ge0 (TokenSummary.sellVolumeUSDC s) = false.
Proof.
  cbn zeta. split; [reflexivity|]. eexists. eexists.
  split; [apply calculateSummary_entries; [reflexivity | |]; vm_compute; reflexivity|].
  split; [apply lookup_insert_eq|]. split; reflexivity.
Qed.

(** C6 (amended): for every input set of raw accounts satisfying
    [0 <= withdrawn <= deposited], [0 <= used <= deposited] and
    [amountPerCycle > 0], and every price map whose prices are [+0] or
    positive and finite, the four volume fields of every TokenSummary the
    aggregator produces are non-negative ([>= 0] holds of each;
    [buyVolume] is [+Infinity] at a price of [0] when the token has an
    active BUY). The prices [-0] and [+Infinity], of which [>= 0] holds as
    well, are left out: at [-0] the [buyVolume] is [-Infinity], at
    [+Infinity] a sell amount of zero gives a [sellVolumeUSDC] of NaN. *)
Theorem C6_volumes_nonneg accountsByToken prices summary token s :
  (forall acc,
     In acc (Orders.buys (ByToken.LOGOS accountsByToken)
             ++ Orders.sells (ByToken.LOGOS accountsByToken)
             ++ Orders.buys (ByToken.CHAOS accountsByToken)
             ++ Orders.sells (ByToken.CHAOS accountsByToken)) ->
     amounts_ok acc) ->
  nonneg_price (ByToken.LOGOS prices) = true ->
  nonneg_price (ByToken.CHAOS prices) = true ->
  calculateSummaryFromRawAccounts accountsByToken prices = Ok summary ->
  summary !! token = Some s ->
  JS.ge0 (TokenSummary.buyVolume s) = true /\
  JS.ge0 (TokenSummary.sellVolume s) = true /\
  JS.ge0 (TokenSummary.buyVolumeUSDC s) = true /\
  JS.ge0 (TokenSummary.sellVolumeUSDC s) = true.
Proof.
  intros Hok Hpl Hpc H Hs.
  apply calculateSummary_Ok in H as (logos & chaos & Hl & Hc & ->).
  apply lookup_insert_Some in Hs as [[_ <-] | [_ Hs]].
  - apply (summarize_nonneg _ _ _ ) in Hl; [exact Hl | | exact Hpl].
    intros acc Hin. apply Hok. rewrite app_assoc. apply in_or_app. now left.
  - apply lookup_insert_Some in Hs as [[_ <-] | [_ Hs]]; [|now rewrite lookup_empty in Hs].
    apply (summarize_nonneg _ _ _ ) in Hc; [exact Hc | | exact Hpc].
    intros acc Hin. apply Hok. apply in_or_app. right. apply in_or_app. now right.
Qed.

Lemma C6_volumes_nonneg_witness :
  exists summary s,
    calculateSummaryFromRawAccounts mixed_accounts zero_prices = Ok summary /\
    summary !! "CHAOS" = Some s /\
    JS.ge0 (TokenSummary.buyVolume s) = true /\
    JS.ge0 (TokenSummary.sellVolume s) = true /\
    JS.ge0 (TokenSummary.buyVolumeUSDC s) = true /\
    JS.ge0 (TokenSummary.sellVolumeUSDC s) = true.
Proof.
  eexists. eexists.
  assert (Hs : calculateSummaryFromRawAccounts mixed_accounts zero_prices = Ok _)
    by (apply calculateSummary_entries; [reflexivity | |]; vm_compute; reflexivity).
  split; [exact Hs|].
  match goal with
  | |- ?m !! _ = Some ?s /\ _ => assert (Hl : m !! "CHAOS" = Some s)
  end.
  { rewrite lookup_insert_ne by done. apply lookup_insert_eq. }
  split; [exact Hl|].
  assert (Hok : forall acc,
            In acc (Orders.buys (ByToken.LOGOS mixed_accounts)
                    ++ Orders.sells (ByToken.LOGOS mixed_accounts)
                    ++ Orders.buys (ByToken.CHAOS mixed_accounts)
                    ++ Orders.sells (ByToken.CHAOS mixed_accounts)) ->
            amounts_ok acc)
    by (intros acc [<- | [<- | []]]; unfold amounts_ok; cbn; lia).
  exact (C6_volumes_nonneg mixed_accounts zero_prices _ _ _ Hok eq_refl eq_refl Hs Hl).
Defined.

End CycleClaims.

(** * The poll, the dashboard and the responses

    What the code shows beyond the claims of the specification. *)

(** ** Example data *)

(** An order that sells LOGOS for CHAOS. *)
Definition swap_account : Account.t := {|
  Account.publicKey := "7Np41oeYqPefeNQEHSv1UDhYrehxin3NStELsSKCT4K2";
  Account.user := "5Q544fKrFoe6tsEbD7S8EmxGTJYAKtTVhAW5Q5pge4j1";
  Account.inputMint := LOGOS_MINT;
  Account.outputMint := CHAOS_MINT;
  Account.idx := 2;
  Account.nextCycleAt := 1700000000;
  Account.inDeposited := 5000000;
  Account.inWithdrawn := 0;
  Account.outWithdrawn := 0;
  Account.inUsed := 1000000;
  Account.inAmountPerCycle := 1000000;
  Account.cycleFrequency := 60;
  Account.bump := 253;
  Account.minOutAmount := None;
  Account.maxOutAmount := None |}.

(** A world whose provider gives [answer] to every call. *)
Definition world_of (answer : result (list Account.t)) (quote : string -> number)
  : World.t := {|
  World.dca_initialized := true;
  World.getAll := fun _ => answer;
  World.getAll_calls := 0;
  World.slept := [];
  World.quote := quote;
  World.rpc := refusing_rpc;
  World.StringToNumber := nan_of_string;
  World.ObjectToNumber := nan_of_object;
  World.now := 1700000000000 |}.

Definition listed_world : World.t :=
  world_of (Ok [scenario_account; swap_account]) (fun _ => 0x1p-10%float).

Definition failing_world : World.t :=
  world_of (Throw (JS.JsError "429 Too Many Requests")) (fun _ => 0x1p-10%float).

Definition zero_cycle_world : World.t :=
  world_of (Ok [zero_cycle_account]) (fun _ => 0x1p-10%float).

Definition untracked_world : World.t :=
  world_of (Ok [other_account]) (fun _ => 0x1p-10%float).

Lemma listed_world_returns :
  exists data, getDCAAccounts listed_world = (Ok data, World.called listed_world).
Proof.
  apply (getDCAAccounts_total listed_world [scenario_account; swap_account]);
    [reflexivity | reflexivity | discriminate | reflexivity].
Defined.

Lemma failing_world_throws :
  getDCAAccounts failing_world
  = (Throw (JS.JsError "429 Too Many Requests"),
     World.sleep 3000 (World.called (World.sleep 2000 (World.called
       (World.sleep 1000 (World.called failing_world)))))).
Proof. reflexivity. Qed.

(** ** The shape of a poll *)

(** The cards of a section, by direction. *)
Definition is_buy (position : Position.t) : bool :=
  match Position.type position with BUY => true | SELL => false end.

Definition is_sell (position : Position.t) : bool := negb (is_buy position).

Definition cards (token : string) (direction : Position.t -> bool)
    (positions : list Position.t) : list Position.t :=
  List.filter direction (section_positions token positions).

(** The mint a token name stands for. *)
Definition mint_of (token : string) : string :=
  if String.eqb token "LOGOS" then LOGOS_MINT else CHAOS_MINT.

Section PollShape.

Import Account.

Lemma mapM_Ok_Forall2 {A B : Type} (f : A -> result B) (l : list A) (bs : list B) :
  mapM f l = Ok bs -> Forall2 (fun a b => f a = Ok b) l bs.
Proof.
  revert bs. induction l as [|a l IH]; intros bs; cbn [mapM].
  - intros [= <-]. constructor.
  - intros H. bind_inv H as b Hb. bind_inv H as bs' Hbs. injection H as <-.
    constructor; auto.
Qed.

Lemma mapM_Throw {A B : Type} (f : A -> result B) (l : list A) (e : JS.thrown) :
  mapM f l = Throw e -> exists a, In a l /\ f a = Throw e.
Proof.
  induction l as [|a l IH]; cbn [mapM]; [discriminate|].
  destruct (f a) as [b|e'] eqn:Hf; cbn [mbind result_bind].
  - destruct (mapM f l) as [bs|e'']; cbn; [discriminate|].
    intros [= ->]. destruct (IH eq_refl) as (a' & Hin & Ha').
    exists a'. split; [now right | assumption].
  - intros [= ->]. exists a. split; [now left | assumption].
Qed.

Lemma Forall2_from {A B : Type} (R : A -> B -> Prop) (l : list A) (bs : list B) :
  Forall2 R l bs -> Forall (fun b => exists a, In a l /\ R a b) bs.
Proof.
  induction 1 as [|a b l bs Hab _ IH]; constructor.
  - exists a. split; [now left | assumption].
  - eapply Forall_impl; [exact IH|].
    intros b' (a' & Hin & HR). exists a'. split; [now right | assumption].
Qed.

Lemma Forall2_to {A B : Type} (R : A -> B -> Prop) (l : list A) (bs : list B) (a : A) :
  Forall2 R l bs -> In a l -> exists b, In b bs /\ R a b.
Proof.
  induction 1 as [|a' b l bs Hab _ IH]; intros Hin; [contradiction|].
  destruct Hin as [-> | Hin].
  - exists b. split; [now left | assumption].
  - destruct (IH Hin) as (b' & Hb' & HR). exists b'. split; [now right | assumption].
Qed.

(** The fields of a Position that identify it. *)
Lemma convert_Ok_identity account price token type amounts p :
  convertDCAAccount account price token type amounts = Ok p ->
  Position.id p = publicKey account /\
  Position.publicKey p = publicKey account /\
  Position.token p = token /\
  Position.type p = type /\
  Position.currentPrice p = price.
Proof.
  intros H. unfold convertDCAAccount in H.
  bind_inv H as used Hu. bind_inv H as perCycle Hp. bind_inv H as deposited Hd.
  bind_inv H as total Ht. bind_inv H as frequency Hf. bind_inv H as nextCycle Hn.
  bind_inv H as executionPrice He. bind_inv H as maxPrice Hmax.
  bind_inv H as minPrice Hmin. bind_inv H as r Hr.
  bind_inv H as raw Hraw. bind_inv H as division Hdiv.
  bind_inv H as d' Hd'. bind_inv H as o' Ho'.
  bind_inv H as estimatedTokens Hest.
  injection H as <-. cbn. auto.
Qed.

(** A conversion that returns is the computation on the account, for what
    the lookups found. *)
Lemma convert_computed w price token type acc p :
  convert w price token type acc = Ok p ->
  exists amounts, convertDCAAccount acc price token type amounts = Ok p.
Proof.
  unfold convert. intros H. apply async_Ok in H as (_ & amounts & _ & _ & H). eauto.
Qed.

(** The positions of one category: one per active account, in order. *)
Definition converted (w : World.t) (price : number) (token : string) (type : OrderType)
    (accounts : list Account.t) (ps : list Position.t) : Prop :=
  Forall2 (fun acc p => convert w price token type acc = Ok p)
          (List.filter isOrderActive accounts) ps.

(** The price update that closes [getDCAAccounts]. *)
Definition priced (w : World.t) (pos : Position.t) : Position.t :=
  with_currentPrice pos
    (if String.eqb (Position.token pos) "LOGOS"
     then World.quote w LOGOS_MINT else World.quote w CHAOS_MINT).

Lemma buildPollData_positions w allAccounts data :
  buildPollData w allAccounts = Ok data ->
  let abt := categorize allAccounts in
  let logosPrice := World.quote w LOGOS_MINT in
  let chaosPrice := World.quote w CHAOS_MINT in
  exists p1 p2 p3 p4,
    calculateSummaryFromRawAccounts abt
      {| ByToken.LOGOS := logosPrice; ByToken.CHAOS := chaosPrice |}
    = Ok (PollData.summary data) /\
    converted w logosPrice "LOGOS" BUY (Orders.buys (ByToken.LOGOS abt)) p1 /\
    converted w logosPrice "LOGOS" SELL (Orders.sells (ByToken.LOGOS abt)) p2 /\
    converted w chaosPrice "CHAOS" BUY (Orders.buys (ByToken.CHAOS abt)) p3 /\
    converted w chaosPrice "CHAOS" SELL (Orders.sells (ByToken.CHAOS abt)) p4 /\
    PollData.positions data = List.map (priced w) (p1 ++ p2 ++ p3 ++ p4).
Proof.
  unfold buildPollData. intros H.
  bind_inv H as summary Hs.
  bind_inv H as p1 H1. bind_inv H as p2 H2. bind_inv H as p3 H3. bind_inv H as p4 H4.
  bind_inv H as l Hl. bind_inv H as c Hc.
  injection H as <-. cbn [PollData.summary PollData.positions].
  exists p1, p2, p3, p4. unfold converted.
  repeat split; try assumption; try (now apply mapM_Ok_Forall2).
Qed.

Lemma converted_length w price token type accounts ps :
  converted w price token type accounts ps ->
  length ps = length (List.filter isOrderActive accounts).
Proof. intros H. symmetry. exact (Forall2_length _ _ _ H). Qed.

Lemma converted_from w price token type accounts ps :
  converted w price token type accounts ps ->
  Forall (fun p => exists acc,
            (In acc accounts /\ isOrderActive acc = true) /\
            convert w price token type acc = Ok p)
         ps.
Proof.
  intros H. apply Forall2_from in H. eapply Forall_impl; [exact H|].
  intros p (acc & Hin & Hp). exists acc. split; [|exact Hp]. now apply filter_In in Hin.
Qed.

Lemma converted_to w price token type accounts ps acc :
  converted w price token type accounts ps ->
  In acc accounts -> isOrderActive acc = true ->
  exists p, In p ps /\ convert w price token type acc = Ok p.
Proof.
  intros H Hin Hact. apply (Forall2_to _ _ _ acc H). apply filter_In. auto.
Qed.

Lemma filter_map_const {A B : Type} (q : B -> bool) (f : A -> B) (l : list A) (b : bool) :
  Forall (fun a => q (f a) = b) l ->
  length (List.filter q (List.map f l)) = if b then length l else 0%nat.
Proof.
  induction 1 as [|a l Ha _ IH]; [now destruct b|].
  cbn. rewrite Ha. destruct b; cbn; now rewrite IH.
Qed.

Lemma cards_filter token direction positions :
  cards token direction positions =
  List.filter (fun p => String.eqb (Position.token p) token && direction p) positions.
Proof.
  unfold cards, section_positions.
  induction positions as [|p l IH]; [reflexivity|]. cbn.
  destruct (String.eqb (Position.token p) token); cbn; [|exact IH].
  destruct (direction p); now rewrite IH.
Qed.

Lemma cards_converted w price token type ps accounts token' direction (b : bool) :
  converted w price token type accounts ps ->
  (forall p, Position.token p = token -> Position.type p = type ->
             String.eqb (Position.token p) token' && direction p = b) ->
  length (cards token' direction (List.map (priced w) ps)) =
  if b then length (List.filter isOrderActive accounts) else 0%nat.
Proof.
  intros H Hb. rewrite cards_filter, <- (converted_length _ _ _ _ _ _ H).
  apply filter_map_const. apply converted_from in H.
  eapply Forall_impl; [exact H|]. intros p (acc & _ & Hp).
  apply convert_computed in Hp as (amounts & Hp).
  apply convert_Ok_identity in Hp as (_ & _ & Ht & Hty & _).
  apply Hb; assumption.
Qed.

Lemma cards_app token direction l1 l2 :
  cards token direction (l1 ++ l2) = cards token direction l1 ++ cards token direction l2.
Proof. unfold cards, section_positions. now rewrite !List.filter_app. Qed.

(** What a poll that returns was built from. *)
Lemma getDCAAccounts_positions w data w' :
  getDCAAccounts w = (Ok data, w') ->
  exists k allAccounts p1 p2 p3 p4,
    World.getAll w k = Ok allAccounts /\
    let abt := categorize allAccounts in
    let logosPrice := World.quote w' LOGOS_MINT in
    let chaosPrice := World.quote w' CHAOS_MINT in
    calculateSummaryFromRawAccounts abt
      {| ByToken.LOGOS := logosPrice; ByToken.CHAOS := chaosPrice |}
    = Ok (PollData.summary data) /\
    converted w' logosPrice "LOGOS" BUY (Orders.buys (ByToken.LOGOS abt)) p1 /\
    converted w' logosPrice "LOGOS" SELL (Orders.sells (ByToken.LOGOS abt)) p2 /\
    converted w' chaosPrice "CHAOS" BUY (Orders.buys (ByToken.CHAOS abt)) p3 /\
    converted w' chaosPrice "CHAOS" SELL (Orders.sells (ByToken.CHAOS abt)) p4 /\
    PollData.positions data = List.map (priced w') (p1 ++ p2 ++ p3 ++ p4).
Proof.
  intros H. apply getDCAAccounts_Ok in H as (k & allAccounts & Hk & _ & Hb).
  apply buildPollData_positions in Hb as (p1 & p2 & p3 & p4 & Hb).
  exists k, allAccounts, p1, p2, p3, p4. split; [exact Hk | exact Hb].
Qed.

(** The two entries of the summary of a poll that returns. *)
Lemma getDCAAccounts_entries w data w' :
  getDCAAccounts w = (Ok data, w') ->
  exists logos chaos,
    PollData.summary data !! "LOGOS" = Some logos /\
    PollData.summary data !! "CHAOS" = Some chaos.
Proof.
  intros H. apply getDCAAccounts_Ok in H as (k & allAccounts & _ & _ & Hb).
  apply buildPollData_Ok in Hb as (logos & chaos & -> & _).
  exists logos, chaos. now simplify_map_eq.
Qed.

End PollShape.

(** X4: the order counts of the summary are the numbers of cards the
    dashboard shows. In a poll that returns, [buyOrders] of a token is the
    number of BUY positions listed under that token, and [sellOrders] the
    number of its SELL positions. *)
Theorem poll_counts_match_cards w data w' token s :
  getDCAAccounts w = (Ok data, w') ->
  PollData.summary data !! token = Some s ->
  TokenSummary.buyOrders s = length (cards token is_buy (PollData.positions data)) /\
  TokenSummary.sellOrders s = length (cards token is_sell (PollData.positions data)).
Proof.
  intros H Hs.
  apply getDCAAccounts_positions in H
    as (k & allAccounts & p1 & p2 & p3 & p4 & _ & Hsum & H1 & H2 & H3 & H4 & ->).
  apply calculateSummary_Ok in Hsum as (logos & chaos & Hl & Hc & Hsum).
  rewrite Hsum in Hs.
  apply summarize_Ok in Hl as (_ & _ & _ & _ & Hlb & Hls & _).
  apply summarize_Ok in Hc as (_ & _ & _ & _ & Hcb & Hcs & _).
  rewrite !map_app, !cards_app, !length_app.
  apply lookup_insert_Some in Hs as [[<- <-] | [_ Hs]];
    [|apply lookup_insert_Some in Hs as [[<- <-] | [_ Hs]];
      [|now rewrite lookup_empty in Hs]].
  - rewrite (cards_converted _ _ _ _ _ _ "LOGOS" is_buy true H1),
      (cards_converted _ _ _ _ _ _ "LOGOS" is_buy false H2),
      (cards_converted _ _ _ _ _ _ "LOGOS" is_buy false H3),
      (cards_converted _ _ _ _ _ _ "LOGOS" is_buy false H4),
      (cards_converted _ _ _ _ _ _ "LOGOS" is_sell false H1),
      (cards_converted _ _ _ _ _ _ "LOGOS" is_sell true H2),
      (cards_converted _ _ _ _ _ _ "LOGOS" is_sell false H3),
      (cards_converted _ _ _ _ _ _ "LOGOS" is_sell false H4).
    all: try (intros p Ht Hty; unfold is_sell, is_buy; rewrite Ht, Hty; reflexivity).
    rewrite Hlb, Hls. lia.
  - rewrite (cards_converted _ _ _ _ _ _ "CHAOS" is_buy false H1),
      (cards_converted _ _ _ _ _ _ "CHAOS" is_buy false H2),
      (cards_converted _ _ _ _ _ _ "CHAOS" is_buy true H3),
      (cards_converted _ _ _ _ _ _ "CHAOS" is_buy false H4),
      (cards_converted _ _ _ _ _ _ "CHAOS" is_sell false H1),
      (cards_converted _ _ _ _ _ _ "CHAOS" is_sell false H2),
      (cards_converted _ _ _ _ _ _ "CHAOS" is_sell false H3),
      (cards_converted _ _ _ _ _ _ "CHAOS" is_sell true H4).
    all: try (intros p Ht Hty; unfold is_sell, is_buy; rewrite Ht, Hty; reflexivity).
    rewrite Hcb, Hcs. lia.
Qed.

Lemma poll_counts_match_cards_witness :
  exists data s,
    getDCAAccounts listed_world = (Ok data, World.called listed_world) /\
    PollData.summary data !! "CHAOS" = Some s /\
    TokenSummary.buyOrders s = length (cards "CHAOS" is_buy (PollData.positions data)) /\
    TokenSummary.sellOrders s = length (cards "CHAOS" is_sell (PollData.positions data)).
Proof.
  destruct listed_world_returns as [data Hd].
  destruct (getDCAAccounts_entries _ _ _ Hd) as (logos & chaos & _ & Hc).
  exists data, chaos. split; [exact Hd|]. split; [exact Hc|].
  exact (poll_counts_match_cards _ _ _ "CHAOS" chaos Hd Hc).
Defined.

(** ** Where the positions come from *)

(** What a poll leaves untouched in the world: everything but the count
    of the calls and the delays awaited. *)
Definition same_sources (w w' : World.t) : Prop :=
  World.dca_initialized w' = World.dca_initialized w /\
  World.getAll w' = World.getAll w /\
  World.quote w' = World.quote w /\
  World.rpc w' = World.rpc w /\
  World.StringToNumber w' = World.StringToNumber w /\
  World.ObjectToNumber w' = World.ObjectToNumber w /\
  World.now w' = World.now w.

(** A position the converter returns for an active account of the given
    list that plays a role for a tracked token, at the price quoted for
    that token. *)
Definition position_of (w : World.t) (accounts : list Account.t) (p : Position.t) : Prop :=
  exists acc token type,
    In acc accounts /\ isOrderActive acc = true /\
    (token = "LOGOS" \/ token = "CHAOS") /\
    match type with
    | BUY => Account.outputMint acc = mint_of token
    | SELL => Account.inputMint acc = mint_of token
    end /\
    convert w (World.quote w (mint_of token)) token type acc = Ok p.

(** The position listed for an account in a given role. *)
Definition listed (positions : list Position.t) (acc : Account.t)
    (token : string) (type : OrderType) : Prop :=
  exists p, In p positions /\
    Position.id p = Account.publicKey acc /\
    Position.token p = token /\ Position.type p = type.

Section PollWorld.

Import Account.

Lemma withRetry_loop_sources (left : nat) :
  forall i lastError w,
    same_sources w (snd (withRetry_loop World.sleep fetchAll left i lastError w)).
Proof.
  induction left as [|left IH]; intros i lastError w; cbn [withRetry_loop].
  - repeat split.
  - unfold fetchAll at 1.
    destruct (World.getAll w (World.getAll_calls w)) as [l|e].
    + destruct (length l =? 0)%nat; [|repeat split].
      apply (IH (i + 1) _ (World.sleep (1000 * (i + 1)) (World.called w))).
    + apply (IH (i + 1) _ (World.sleep (1000 * (i + 1)) (World.called w))).
Qed.

Lemma getDCAAccounts_sources (w : World.t) : same_sources w (snd (getDCAAccounts w)).
Proof.
  unfold getDCAAccounts. destruct (World.dca_initialized w) eqn:Hi; [|repeat split].
  pose proof (withRetry_loop_sources default_maxRetries 0 JS.JsUndefined w) as H.
  unfold withRetry.
  destruct (withRetry_loop World.sleep fetchAll default_maxRetries 0 JS.JsUndefined w)
    as [[l|e] w']; exact H.
Qed.

Lemma getDCAAccounts_Ok_world w data w' :
  getDCAAccounts w = (Ok data, w') -> same_sources w w'.
Proof.
  intros H. pose proof (getDCAAccounts_sources w) as Hs. now rewrite H in Hs.
Qed.

Lemma with_currentPrice_same (pos : Position.t) :
  with_currentPrice pos (Position.currentPrice pos) = pos.
Proof. now destruct pos. Qed.

Lemma priced_converted w price token type accounts ps :
  converted w price token type accounts ps ->
  price = World.quote w (mint_of token) ->
  List.map (priced w) ps = ps.
Proof.
  intros H ->. apply converted_from in H.
  induction H as [|p ps (acc & _ & Hp) _ IH]; [reflexivity|].
  cbn [List.map]. rewrite IH. f_equal.
  apply convert_computed in Hp as (amounts & Hp).
  apply convert_Ok_identity in Hp as (_ & _ & Ht & _ & Hc).
  unfold priced.
  replace (if String.eqb (Position.token p) "LOGOS"
           then World.quote w LOGOS_MINT else World.quote w CHAOS_MINT)
    with (Position.currentPrice p); [apply with_currentPrice_same|].
  rewrite Hc, Ht. unfold mint_of. now destruct (String.eqb token "LOGOS").
Qed.

Lemma categorize_In (allAccounts : list Account.t) (acc : Account.t) :
  (In acc (Orders.buys (ByToken.LOGOS (categorize allAccounts))) <->
   In acc allAccounts /\ outputMint acc = LOGOS_MINT) /\
  (In acc (Orders.sells (ByToken.LOGOS (categorize allAccounts))) <->
   In acc allAccounts /\ inputMint acc = LOGOS_MINT) /\
  (In acc (Orders.buys (ByToken.CHAOS (categorize allAccounts))) <->
   In acc allAccounts /\ outputMint acc = CHAOS_MINT) /\
  (In acc (Orders.sells (ByToken.CHAOS (categorize allAccounts))) <->
   In acc allAccounts /\ inputMint acc = CHAOS_MINT).
Proof.
  unfold categorize. cbn [ByToken.LOGOS ByToken.CHAOS Orders.buys Orders.sells].
  rewrite !filter_In, !String.eqb_eq. tauto.
Qed.

Lemma converted_position_of w w0 allAccounts token type accounts ps :
  converted w (World.quote w (mint_of token)) token type accounts ps ->
  token = "LOGOS" \/ token = "CHAOS" ->
  (forall acc, In acc accounts ->
     In acc allAccounts /\
     match type with
     | BUY => outputMint acc = mint_of token
     | SELL => inputMint acc = mint_of token
     end) ->
  same_sources w0 w ->
  Forall (position_of w0 allAccounts) ps.
Proof.
  intros H Ht Hsub (_ & _ & Hq & Hr & Hs & Ho & _). apply converted_from in H.
  eapply Forall_impl; [exact H|]. intros p (acc & [Hin Hact] & Hp).
  exists acc, token, type. destruct (Hsub acc Hin) as [Hall Hm].
  unfold convert in Hp |- *. rewrite <- Hq, <- Hr, <- Hs, <- Ho. auto 6.
Qed.

Lemma converted_active w price token type accounts ps allAccounts :
  converted w price token type accounts ps ->
  (forall acc, In acc accounts -> In acc allAccounts) ->
  (forall acc, In acc allAccounts ->
     0 <= inUsed acc <= inDeposited acc /\ 0 < inAmountPerCycle acc) ->
  Forall (fun p => Position.isActive p = true) ps.
Proof.
  intros H Hsub Hok. apply converted_from in H.
  eapply Forall_impl; [exact H|]. intros p (acc & [Hin Hact] & Hp).
  destruct (Hok acc (Hsub acc Hin)) as [Hu Ha].
  apply convert_computed in Hp as (amounts & Hp).
  apply convert_Ok in Hp as (Hfu & Hfa & Hfd & _ & _ & _ & -> & _).
  apply fits_bound in Hfu, Hfa, Hfd. rewrite Hact, andb_true_r.
  pose proof Hact as Hne. unfold isOrderActive in Hne.
  apply negb_true_iff, Z.eqb_neq in Hne.
  apply remaining_cycles_positive; lia.
Qed.

Lemma converted_listed w price token type accounts ps acc positions :
  converted w price token type accounts ps ->
  (forall p, In p ps -> In p positions) ->
  In acc accounts -> isOrderActive acc = true ->
  listed positions acc token type.
Proof.
  intros H Hsub Hin Hact.
  destruct (converted_to _ _ _ _ _ _ acc H Hin Hact) as (p & Hp & Hc).
  apply convert_computed in Hc as (amounts & Hc).
  apply convert_Ok_identity in Hc as (Hid & _ & Ht & Hty & _).
  exists p. auto.
Qed.

End PollWorld.

(** X5: every position a poll returns is what the converter returned for
    an active account of the provider's answer whose output mint (BUY) or
    input mint (SELL) is the mint of a tracked token, at the price quoted
    for that token: the price update that closes [getDCAAccounts] changes
    none of them. *)
Theorem poll_positions_converted w data w' :
  getDCAAccounts w = (Ok data, w') ->
  exists k allAccounts,
    World.getAll w k = Ok allAccounts /\
    Forall (position_of w allAccounts) (PollData.positions data).
Proof.
  intros H. pose proof (getDCAAccounts_Ok_world _ _ _ H) as Hsame.
  apply getDCAAccounts_positions in H
    as (k & allAccounts & p1 & p2 & p3 & p4 & Hk & _ & H1 & H2 & H3 & H4 & ->).
  exists k, allAccounts. split; [exact Hk|].
  pose proof (fun acc => categorize_In allAccounts acc) as Hcat.
  rewrite !map_app.
  rewrite (priced_converted _ _ _ _ _ _ H1 eq_refl), (priced_converted _ _ _ _ _ _ H2 eq_refl),
    (priced_converted _ _ _ _ _ _ H3 eq_refl), (priced_converted _ _ _ _ _ _ H4 eq_refl).
  rewrite !Forall_app. repeat split.
  - apply (converted_position_of w' w allAccounts "LOGOS" BUY _ _ H1); auto.
    intros acc Hin. now apply Hcat.
  - apply (converted_position_of w' w allAccounts "LOGOS" SELL _ _ H2); auto.
    intros acc Hin. now apply Hcat.
  - apply (converted_position_of w' w allAccounts "CHAOS" BUY _ _ H3); auto.
    intros acc Hin. now apply Hcat.
  - apply (converted_position_of w' w allAccounts "CHAOS" SELL _ _ H4); auto.
    intros acc Hin. now apply Hcat.
Qed.

Lemma poll_positions_converted_witness :
  exists data k allAccounts,
    getDCAAccounts listed_world = (Ok data, World.called listed_world) /\
    World.getAll listed_world k = Ok allAccounts /\
    Forall (position_of listed_world allAccounts) (PollData.positions data).
Proof.
  destruct listed_world_returns as [data Hd].
  destruct (poll_positions_converted listed_world data _ Hd) as (k & allAccounts & Hk & Hall).
  exists data, k, allAccounts. split; [exact Hd|]. split; [exact Hk | exact Hall].
Defined.

(** X6: when every account the provider returns satisfies
    [0 <= used <= deposited] and [amountPerCycle > 0], every position of a
    poll that returns has [isActive = true]: completed orders are never
    listed. *)
Theorem poll_positions_active w data w' :
  getDCAAccounts w = (Ok data, w') ->
  (forall k accounts acc,
     World.getAll w k = Ok accounts -> In acc accounts ->
     0 <= Account.inUsed acc <= Account.inDeposited acc /\
     0 < Account.inAmountPerCycle acc) ->
  Forall (fun p => Position.isActive p = true) (PollData.positions data).
Proof.
  intros H Hok.
  apply getDCAAccounts_positions in H
    as (k & allAccounts & p1 & p2 & p3 & p4 & Hk & _ & H1 & H2 & H3 & H4 & ->).
  specialize (Hok k allAccounts).
  pose proof (fun acc => categorize_In allAccounts acc) as Hcat.
  rewrite !map_app.
  rewrite (priced_converted _ _ _ _ _ _ H1 eq_refl), (priced_converted _ _ _ _ _ _ H2 eq_refl),
    (priced_converted _ _ _ _ _ _ H3 eq_refl), (priced_converted _ _ _ _ _ _ H4 eq_refl).
  rewrite !Forall_app. repeat split.
  - apply (converted_active _ _ _ _ _ _ allAccounts H1); [|intros acc; now apply Hok].
    intros acc Hin. destruct (Hcat acc) as (A1 & A2 & A3 & A4). now apply A1 in Hin.
  - apply (converted_active _ _ _ _ _ _ allAccounts H2); [|intros acc; now apply Hok].
    intros acc Hin. destruct (Hcat acc) as (A1 & A2 & A3 & A4). now apply A2 in Hin.
  - apply (converted_active _ _ _ _ _ _ allAccounts H3); [|intros acc; now apply Hok].
    intros acc Hin. destruct (Hcat acc) as (A1 & A2 & A3 & A4). now apply A3 in Hin.
  - apply (converted_active _ _ _ _ _ _ allAccounts H4); [|intros acc; now apply Hok].
    intros acc Hin. destruct (Hcat acc) as (A1 & A2 & A3 & A4). now apply A4 in Hin.
Qed.

Lemma poll_positions_active_witness :
  exists data,
    getDCAAccounts listed_world = (Ok data, World.called listed_world) /\
    Forall (fun p => Position.isActive p = true) (PollData.positions data).
Proof.
  destruct listed_world_returns as [data Hd].
  exists data. split; [exact Hd|].
  apply (poll_positions_active listed_world data _ Hd).
  intros k accounts acc [= <-] [<- | [<- | []]]; cbn; lia.
Defined.

(** X7: a poll that returns lists every active account once for each role
    it plays: as a BUY under the token of its output mint and as a SELL
    under the token of its input mint. An account that swaps one tracked
    token for the other is therefore listed twice, as a SELL of the one
    and a BUY of the other. *)
Theorem poll_lists_every_role w data w' :
  getDCAAccounts w = (Ok data, w') ->
  exists k allAccounts,
    World.getAll w k = Ok allAccounts /\
    forall acc token,
      In acc allAccounts -> isOrderActive acc = true ->
      token = "LOGOS" \/ token = "CHAOS" ->
      (Account.outputMint acc = mint_of token ->
       listed (PollData.positions data) acc token BUY) /\
      (Account.inputMint acc = mint_of token ->
       listed (PollData.positions data) acc token SELL).
Proof.
  intros H.
  apply getDCAAccounts_positions in H
    as (k & allAccounts & p1 & p2 & p3 & p4 & Hk & _ & H1 & H2 & H3 & H4 & ->).
  exists k, allAccounts. split; [exact Hk|].
  rewrite !map_app.
  rewrite (priced_converted _ _ _ _ _ _ H1 eq_refl), (priced_converted _ _ _ _ _ _ H2 eq_refl),
    (priced_converted _ _ _ _ _ _ H3 eq_refl), (priced_converted _ _ _ _ _ _ H4 eq_refl).
  intros acc token Hin Hact Ht.
  pose proof (categorize_In allAccounts acc) as (Hlb & Hls & Hcb & Hcs).
  destruct Ht as [-> | ->]; split; intros Hm.
  - apply (converted_listed _ _ _ _ _ _ acc _ H1); [|now apply Hlb|exact Hact].
    intros p Hp. apply in_or_app. now left.
  - apply (converted_listed _ _ _ _ _ _ acc _ H2); [|now apply Hls|exact Hact].
    intros p Hp. apply in_or_app. right. apply in_or_app. now left.
  - apply (converted_listed _ _ _ _ _ _ acc _ H3); [|now apply Hcb|exact Hact].
    intros p Hp. do 2 (apply in_or_app; right). apply in_or_app. now left.
  - apply (converted_listed _ _ _ _ _ _ acc _ H4); [|now apply Hcs|exact Hact].
    intros p Hp. do 3 (apply in_or_app; right). exact Hp.
Qed.

Lemma poll_lists_every_role_witness :
  exists data,
    getDCAAccounts listed_world = (Ok data, World.called listed_world) /\
    listed (PollData.positions data) swap_account "CHAOS" BUY /\
    listed (PollData.positions data) swap_account "LOGOS" SELL.
Proof.
  destruct listed_world_returns as [data Hd].
  exists data. split; [exact Hd|].
  destruct (poll_lists_every_role listed_world data _ Hd) as (k & allAccounts & Hk & Hall).
  injection Hk as <-.
  assert (Hin : In swap_account [scenario_account; swap_account]) by (right; now left).
  split.
  - now apply (Hall swap_account "CHAOS" Hin eq_refl (or_intror eq_refl)).
  - now apply (Hall swap_account "LOGOS" Hin eq_refl (or_introl eq_refl)).
Defined.

(** ** The errors of a poll *)

Definition not_initialized : JS.thrown := JS.JsError "DCA SDK not initialized".
Definition no_accounts : JS.thrown := JS.JsError "No accounts returned".

(** An account that plays a role for a tracked token. *)
Definition tracked (acc : Account.t) : Prop :=
  Account.outputMint acc = LOGOS_MINT \/ Account.inputMint acc = LOGOS_MINT \/
  Account.outputMint acc = CHAOS_MINT \/ Account.inputMint acc = CHAOS_MINT.

(** The [k]-th call of the provider fails with [e]: it throws [e], or it
    answers with no account. *)
Definition fetch_fails (w : World.t) (k : nat) (e : JS.thrown) : Prop :=
  World.getAll w k = Throw e \/ (World.getAll w k = Ok [] /\ e = no_accounts).

(** A lookup that the conversion of the account awaits fails with [e]:
    the signatures of the account (line 102), or its most recent signature
    and that transaction (lines 249 to 264). *)
Definition lookup_fails (w : World.t) (acc : Account.t) (e : JS.thrown) : Prop :=
  getDCATransactions (World.rpc w) (Account.publicKey acc) = Throw e \/
  recent_amounts (World.StringToNumber w) (World.ObjectToNumber w) (World.rpc w)
    (Account.publicKey acc) = Throw e.

(** The delays awaited by a loop of [left] iterations that all fail, the
    latest first. *)
Fixpoint delays (left : nat) (i : Z) : list Z :=
  match left with
  | O => []
  | Datatypes.S left' => delays left' (i + 1) ++ [1000 * (i + 1)]
  end.

Section PollErrors.

Import Account.

Lemma convert_Throw_cases w price token type acc e :
  convert w price token type acc = Throw e ->
  e = too_large \/ e = assertion_failed \/ lookup_fails w acc e.
Proof.
  unfold convert, lookup_fails. intros H.
  apply async_Throw in H as [H | [(_ & _ & [-> | ->]) | (_ & _ & H)]]; auto.
Qed.

(** The errors thrown while the data of a poll are built are the two
    bn.js assertions and the errors of the lookups that the conversion of
    an active account awaits; reading the two entries of the summary
    never throws. *)
Lemma buildPollData_Throw w allAccounts e :
  buildPollData w allAccounts = Throw e ->
  e = too_large \/ e = assertion_failed \/
  exists acc, In acc allAccounts /\ isOrderActive acc = true /\ lookup_fails w acc e.
Proof.
  unfold buildPollData. intros H.
  apply bind_Throw in H as [H | (summary & Hs & H)];
    [left; now apply calculateSummary_Throw in H|].
  apply calculateSummary_Ok in Hs as (logos & chaos & _ & _ & ->).
  pose proof (fun acc => categorize_In allAccounts acc) as Hcat.
  do 4 (apply bind_Throw in H as [H | (? & _ & H)];
        [apply mapM_Throw in H as (acc & Hin & H);
         apply filter_In in Hin as [Hin Hact];
         apply convert_Throw_cases in H as [-> | [-> | H]]; auto;
         right; right; exists acc; split; [|auto];
         destruct (Hcat acc) as (A1 & A2 & A3 & A4);
         first [now apply A1 in Hin | now apply A2 in Hin
               | now apply A3 in Hin | now apply A4 in Hin]|]).
  unfold entry in H. now simplify_map_eq.
Qed.

(** Every lookup of every account of the list answers. *)
Definition lookups_answer (w : World.t) (allAccounts : list Account.t) : Prop :=
  forall acc, In acc allAccounts -> lookups_ok w acc = true.

Lemma lookups_answer_fails w allAccounts acc e :
  lookups_answer w allAccounts -> In acc allAccounts -> ~ lookup_fails w acc e.
Proof.
  intros Hall Hin Hf. specialize (Hall acc Hin). unfold lookups_ok in Hall.
  apply andb_true_iff in Hall as [Ht Ha].
  destruct Hf as [Hf | Hf]; [rewrite Hf in Ht | rewrite Hf in Ha]; discriminate.
Qed.

Lemma fetched_Ok w allAccounts w1 :
  withRetry World.sleep fetchAll default_maxRetries w = (Ok allAccounts, w1) ->
  exists k, World.getAll w k = Ok allAccounts /\ allAccounts <> [].
Proof.
  unfold withRetry.
  assert (Hloop : forall left i e w0 l w2,
            World.getAll w0 = World.getAll w ->
            withRetry_loop World.sleep fetchAll left i e w0 = (Ok l, w2) ->
            exists k, World.getAll w k = Ok l /\ l <> []).
  { induction left as [|left IH]; intros i e w0 l w2 Hg; cbn [withRetry_loop]; [discriminate|].
    unfold fetchAll at 1.
    destruct (World.getAll w0 (World.getAll_calls w0)) as [l0|e0] eqn:Hk.
    - destruct (length l0 =? 0)%nat eqn:Hlen.
      + apply IH. exact Hg.
      + intros [= <- <-]. exists (World.getAll_calls w0). rewrite <- Hg. split; [exact Hk|].
        intros ->. discriminate Hlen.
    - apply IH. exact Hg. }
  apply Hloop. reflexivity.
Qed.

Lemma buildPollData_convertible w allAccounts data acc :
  buildPollData w allAccounts = Ok data ->
  In acc allAccounts -> isOrderActive acc = true -> tracked acc ->
  inAmountPerCycle acc <> 0.
Proof.
  intros H Hin Hact Ht.
  apply buildPollData_positions in H as (p1 & p2 & p3 & p4 & _ & H1 & H2 & H3 & H4 & _).
  pose proof (categorize_In allAccounts acc) as (Hlb & Hls & Hcb & Hcs).
  assert (Hp : exists price token type amounts p,
             convertDCAAccount acc price token type amounts = Ok p).
  { destruct Ht as [Hm | [Hm | [Hm | Hm]]].
    - destruct (converted_to _ _ _ _ _ _ acc H1 ltac:(now apply Hlb) Hact) as (p & _ & Hp);
        apply convert_computed in Hp as (amounts & Hp); eauto 6.
    - destruct (converted_to _ _ _ _ _ _ acc H2 ltac:(now apply Hls) Hact) as (p & _ & Hp);
        apply convert_computed in Hp as (amounts & Hp); eauto 6.
    - destruct (converted_to _ _ _ _ _ _ acc H3 ltac:(now apply Hcb) Hact) as (p & _ & Hp);
        apply convert_computed in Hp as (amounts & Hp); eauto 6.
    - destruct (converted_to _ _ _ _ _ _ acc H4 ltac:(now apply Hcs) Hact) as (p & _ & Hp);
        apply convert_computed in Hp as (amounts & Hp); eauto 6. }
  destruct Hp as (price & token & type & amounts & p & Hp).
  now apply convert_Ok in Hp as (_ & _ & _ & Hz & _).
Qed.

Lemma getDCAAccounts_first_answer w allAccounts :
  World.dca_initialized w = true ->
  World.getAll w (World.getAll_calls w) = Ok allAccounts ->
  allAccounts <> [] ->
  getDCAAccounts w = (buildPollData (World.called w) allAccounts, World.called w).
Proof.
  intros Hi Hg Hne. unfold getDCAAccounts, withRetry. rewrite Hi.
  cbn [default_maxRetries withRetry_loop]. unfold fetchAll. rewrite Hg.
  destruct allAccounts as [|a l]; [contradiction|]. reflexivity.
Qed.

Lemma fetchAll_Throw w e w1 :
  fetchAll w = (Throw e, w1) ->
  fetch_fails w (World.getAll_calls w) e /\ w1 = World.called w.
Proof.
  unfold fetchAll, fetch_fails.
  destruct (World.getAll w (World.getAll_calls w)) as [l|e0].
  - destruct l as [|a l]; cbn [length Nat.eqb]; [|discriminate].
    intros [= <- <-]. auto.
  - intros [= <- <-]. auto.
Qed.

Lemma withRetry_loop_fetch_Throw (left : nat) :
  forall i lastError w e w',
    withRetry_loop World.sleep fetchAll left i lastError w = (Throw e, w') ->
    World.getAll_calls w' = (World.getAll_calls w + left)%nat /\
    World.slept w' = delays left i ++ World.slept w /\
    match left with
    | O => e = lastError
    | Datatypes.S left' => fetch_fails w (World.getAll_calls w + left')%nat e
    end.
Proof.
  induction left as [|left IH]; intros i lastError w e w'; cbn [withRetry_loop].
  - intros [= <- <-]. cbn. auto with lia.
  - destruct (fetchAll w) as [[l|e1] w1] eqn:Hf; [discriminate|].
    apply fetchAll_Throw in Hf as [Hf ->]. intros H.
    apply IH in H as (Hc & Hs & Hl).
    cbn [World.sleep World.called World.getAll_calls World.slept] in Hc, Hs.
    split; [lia|]. split.
    + cbn [delays]. rewrite Hs, <- app_assoc. reflexivity.
    + destruct left as [|left'].
      * subst e. now rewrite Nat.add_0_r.
      * unfold fetch_fails in Hl |- *.
        cbn [World.sleep World.called World.getAll World.getAll_calls] in Hl.
        replace (World.getAll_calls w + Datatypes.S left')%nat
          with (Datatypes.S (World.getAll_calls w) + left')%nat by lia.
        exact Hl.
Qed.

End PollErrors.

(** X2: the errors of a poll. [getDCAAccounts] throws 'DCA SDK not
    initialized', before anything is called; or the error of the third
    fetch ('No accounts returned' when the answer is empty), after three
    calls and waits of 1000, 2000 and 3000 ms; or, while the data are
    built from an answer of the provider, one of the two bn.js assertion
    errors or the error of a lookup that the conversion of an active
    account of that answer awaits. Nothing else is thrown. *)
Theorem getDCAAccounts_errors w e w' :
  getDCAAccounts w = (Throw e, w') ->
  (World.dca_initialized w = false /\ e = not_initialized /\ w' = w) \/
  (World.dca_initialized w = true /\
   World.getAll_calls w' = (World.getAll_calls w + 3)%nat /\
   World.slept w' = 3000 :: 2000 :: 1000 :: World.slept w /\
   fetch_fails w (World.getAll_calls w + 2)%nat e) \/
  (World.dca_initialized w = true /\
   exists k allAccounts,
     World.getAll w k = Ok allAccounts /\
     (e = too_large \/ e = assertion_failed \/
      exists acc, In acc allAccounts /\ isOrderActive acc = true /\
                  lookup_fails w acc e)).
Proof.
  unfold getDCAAccounts.
  destruct (World.dca_initialized w) eqn:Hi; [|intros [= <- <-]; auto].
  pose proof (getDCAAccounts_sources w) as Hsame.
  unfold getDCAAccounts in Hsame. rewrite Hi in Hsame.
  destruct (withRetry World.sleep fetchAll default_maxRetries w)
    as [[l|e1] w1] eqn:Hr.
  - intros [= Hb <-]. right. right. split; [reflexivity|].
    destruct (fetched_Ok _ _ _ Hr) as (k & Hk & _). exists k, l. split; [exact Hk|].
    apply buildPollData_Throw in Hb as [-> | [-> | (acc & Hin & Hact & Hf)]]; auto.
    right. right. exists acc. split; [exact Hin|]. split; [exact Hact|].
    destruct Hsame as (_ & _ & _ & Hrpc & Hs & Ho & _). cbn [snd] in Hrpc, Hs, Ho.
    unfold lookup_fails in Hf |- *. now rewrite <- Hrpc, <- Hs, <- Ho.
  - intros [= <- <-]. right. left. unfold withRetry in Hr.
    apply withRetry_loop_fetch_Throw in Hr as (Hc & Hs & Hl). auto.
Qed.

Lemma getDCAAccounts_errors_witness :
  exists e w',
    getDCAAccounts failing_world = (Throw e, w') /\
    World.getAll_calls w' = 3%nat /\
    World.slept w' = [3000; 2000; 1000] /\
    fetch_fails failing_world 2 e.
Proof.
  eexists. eexists. split; [exact failing_world_throws|].
  destruct (getDCAAccounts_errors failing_world _ _ failing_world_throws)
    as [(Hi & _) | [(_ & Hc & Hs & Hf) | (_ & k & l & Hk & _)]];
    [discriminate Hi | auto | discriminate Hk].
Defined.

(** X3: one malformed account fails the whole poll. When the provider's
    answer holds an active account of a tracked token whose
    [amountPerCycle] is [0], [getDCAAccounts] throws after that single
    call: the retry covers the fetch only, and nothing is waited for.
    When the lookups of the conversions all answer, the error is one of
    the two bn.js assertion errors. *)
Theorem poll_fails_on_zero_cycle w allAccounts acc :
  World.dca_initialized w = true ->
  World.getAll w (World.getAll_calls w) = Ok allAccounts ->
  In acc allAccounts -> isOrderActive acc = true -> tracked acc ->
  Account.inAmountPerCycle acc = 0 ->
  exists e,
    getDCAAccounts w = (Throw e, World.called w) /\
    (lookups_answer w allAccounts -> e = too_large \/ e = assertion_failed).
Proof.
  intros Hi Hg Hin Hact Ht Hz.
  rewrite (getDCAAccounts_first_answer w allAccounts Hi Hg)
    by (intros ->; contradiction).
  destruct (buildPollData (World.called w) allAccounts) as [data|e] eqn:Hb.
  - now destruct (buildPollData_convertible _ _ _ acc Hb Hin Hact Ht).
  - exists e. split; [reflexivity|]. intros Hall.
    apply buildPollData_Throw in Hb as [-> | [-> | (acc' & Hin' & _ & Hf)]]; auto.
    now destruct (lookups_answer_fails w allAccounts acc' e Hall Hin').
Qed.

Lemma poll_fails_on_zero_cycle_witness :
  exists e,
    getDCAAccounts zero_cycle_world = (Throw e, World.called zero_cycle_world) /\
    (e = too_large \/ e = assertion_failed).
Proof.
  destruct (poll_fails_on_zero_cycle zero_cycle_world [zero_cycle_account] zero_cycle_account)
    as (e & He & Hb);
    [reflexivity | reflexivity | now left | reflexivity | | reflexivity |].
  - right. right. left. reflexivity.
  - exists e. split; [exact He|]. apply Hb.
    intros acc [<- | []]. reflexivity.
Defined.

(** ** The waits of a retry *)

(** The delays that follow the failed attempts [from], ..., [from + n - 1],
    in the order they are awaited: 1000 ms times the number of the
    attempt. *)
Definition backoff (from n : nat) : list Z :=
  List.map (fun k => 1000 * Z.of_nat k) (seq from n).

Section RetryDelays.

Context {S T : Type}.
Variable sleep : Z -> S -> S.
Variable operation : S -> result T * S.

(** [operation] and [sleep], keeping the number of invocations made and
    the delays awaited, the latest first. *)
Definition counted (sc : S * (nat * list Z)) : result T * (S * (nat * list Z)) :=
  let '(r, s') := operation (fst sc) in
  (r, (s', (Datatypes.S (fst (snd sc)), snd (snd sc)))).

Definition sleep_counted (ms : Z) (sc : S * (nat * list Z)) : S * (nat * list Z) :=
  (sleep ms (fst sc), (fst (snd sc), ms :: snd (snd sc))).

Lemma backoff_cons (from n : nat) :
  backoff from (Datatypes.S n) = 1000 * Z.of_nat from :: backoff (Datatypes.S from) n.
Proof. reflexivity. Qed.

Lemma withRetry_loop_counted (left : nat) :
  forall i lastError s n ws,
    i = Z.of_nat n ->
    let '(r, (s', (n', ws'))) :=
      withRetry_loop sleep_counted counted left i lastError (s, (n, ws)) in
    (r, s') = withRetry_loop sleep operation left i lastError s /\
    (n' <= n + left)%nat /\
    match r with
    | Ok _ => (n < n')%nat /\ ws' = rev (backoff (Datatypes.S n) (n' - 1 - n)) ++ ws
    | Throw _ => n' = (n + left)%nat /\ ws' = rev (backoff (Datatypes.S n) left) ++ ws
    end.
Proof.
  induction left as [|left IH]; intros i lastError s n ws Hi; cbn [withRetry_loop].
  - split; [reflexivity|]. split; [lia|]. split; [lia | reflexivity].
  - unfold counted at 1. cbn [fst snd].
    destruct (operation s) as [[v|e] s1].
    + split; [reflexivity|]. split; [lia|]. split; [lia|].
      replace (Datatypes.S n - 1 - n)%nat with 0%nat by lia. reflexivity.
    + change (sleep_counted (1000 * (i + 1)) (s1, (Datatypes.S n, ws)))
        with (sleep (1000 * (i + 1)) s1, (Datatypes.S n, 1000 * (i + 1) :: ws)).
      specialize (IH (i + 1) e (sleep (1000 * (i + 1)) s1) (Datatypes.S n)
                    (1000 * (i + 1) :: ws) ltac:(lia)).
      destruct (withRetry_loop sleep_counted counted left (i + 1) e
                  (sleep (1000 * (i + 1)) s1, (Datatypes.S n, 1000 * (i + 1) :: ws)))
        as [r [s' [n' ws']]].
      destruct IH as (Heq & Hle & Hr). split; [exact Heq|]. split; [lia|].
      assert (Hd : 1000 * (i + 1) = 1000 * Z.of_nat (Datatypes.S n)) by lia.
      destruct r as [v|e'].
      * destruct Hr as [Hlt ->]. split; [lia|].
        replace (n' - 1 - n)%nat with (Datatypes.S (n' - 1 - Datatypes.S n)) by lia.
        rewrite backoff_cons. cbn [rev]. rewrite <- app_assoc, Hd. reflexivity.
      * destruct Hr as [-> ->]. split; [lia|].
        rewrite backoff_cons. cbn [rev]. rewrite <- app_assoc, Hd. reflexivity.
Qed.

End RetryDelays.

(** X1: the waits of [withRetry]. After its [k]-th failed attempt it waits
    [1000 * k] ms. When it returns at attempt [n] it has waited 1000, ...,
    [1000 * (n - 1)] ms; when it throws it has made [maxRetries] attempts
    and waited after every one of them, the last included: 1000, ...,
    [1000 * maxRetries] ms. Counting changes neither the result nor the
    final state. *)
Theorem withRetry_backoff {S T : Type} (sleep : Z -> S -> S)
    (operation : S -> result T * S) (maxRetries : nat) (s : S) :
  let '(r, (s', (attempts, waits))) :=
    withRetry (sleep_counted sleep) (counted operation) maxRetries (s, (0%nat, [])) in
  (r, s') = withRetry sleep operation maxRetries s /\
  (attempts <= maxRetries)%nat /\
  match r with
  | Ok _ => (1 <= attempts)%nat /\ rev waits = backoff 1 (attempts - 1)
  | Throw _ => attempts = maxRetries /\ rev waits = backoff 1 maxRetries
  end.
Proof.
  unfold withRetry.
  pose proof (withRetry_loop_counted sleep operation maxRetries 0 JS.JsUndefined s 0%nat []
                eq_refl) as H.
  destruct (withRetry_loop (sleep_counted sleep) (counted operation) maxRetries 0
              JS.JsUndefined (s, (0%nat, []))) as [r [s' [n' ws']]].
  destruct H as (Heq & Hle & Hr). split; [exact Heq|]. split; [lia|].
  destruct r as [v|e].
  - destruct Hr as [Hlt ->]. split; [lia|].
    rewrite app_nil_r, rev_involutive. f_equal. lia.
  - destruct Hr as [-> ->]. split; [reflexivity|].
    now rewrite app_nil_r, rev_involutive.
Qed.

(** ** A poll without tracked accounts *)

(** The entry of a token without any order, at a given price. *)
Definition no_orders (price : number) : TokenSummary.t :=
  {| TokenSummary.buyOrders := 0; TokenSummary.sellOrders := 0;
     TokenSummary.buyVolume := 0; TokenSummary.sellVolume := 0;
     TokenSummary.buyVolumeUSDC := 0; TokenSummary.sellVolumeUSDC := 0;
     TokenSummary.price := price |}.

Section NothingTracked.

Import Account.
Local Open Scope float_scope.

Lemma filter_none {A : Type} (p : A -> bool) (l : list A) :
  Forall (fun a => p a = false) l -> List.filter p l = [].
Proof.
  induction 1 as [|a l Ha _ IH]; [reflexivity|]. cbn. now rewrite Ha.
Qed.

Lemma categorize_nothing (allAccounts : list Account.t) :
  Forall (fun acc => untracked acc = true) allAccounts ->
  categorize allAccounts =
  {| ByToken.LOGOS := {| Orders.buys := []; Orders.sells := [] |};
     ByToken.CHAOS := {| Orders.buys := []; Orders.sells := [] |} |}.
Proof.
  intros H. unfold categorize.
  rewrite !filter_none; [reflexivity|..].
  all: eapply Forall_impl; [exact H|]; intros acc; unfold untracked.
  all: rewrite !andb_true_iff, !negb_true_iff; tauto.
Qed.

Lemma buildPollData_nothing w allAccounts :
  Forall (fun acc => untracked acc = true) allAccounts ->
  buildPollData w allAccounts =
  Ok {| PollData.positions := [];
        PollData.summary :=
          <["LOGOS" := no_orders (World.quote w LOGOS_MINT)]>
            (<["CHAOS" := no_orders (World.quote w CHAOS_MINT)]> ∅);
        PollData.chartData :=
          <["LOGOS" := chartPoint (World.now w) (no_orders (World.quote w LOGOS_MINT))]>
            (<["CHAOS" := chartPoint (World.now w) (no_orders (World.quote w CHAOS_MINT))]> ∅)
     |}.
Proof.
  intros H. unfold buildPollData. rewrite (categorize_nothing _ H).
  cbn -[insert]. unfold entry. now simplify_map_eq.
Qed.

End NothingTracked.

(** X8: a poll whose answer holds no account of a tracked token returns no
    position and, for both tokens, a summary without orders and with zero
    volumes at the quoted price, whatever the amounts of the accounts are:
    they are never converted. *)
Theorem poll_of_untracked_accounts w allAccounts :
  World.dca_initialized w = true ->
  World.getAll w (World.getAll_calls w) = Ok allAccounts ->
  allAccounts <> [] ->
  Forall (fun acc => untracked acc = true) allAccounts ->
  exists data,
    getDCAAccounts w = (Ok data, World.called w) /\
    PollData.positions data = [] /\
    PollData.summary data !! "LOGOS" = Some (no_orders (World.quote w LOGOS_MINT)) /\
    PollData.summary data !! "CHAOS" = Some (no_orders (World.quote w CHAOS_MINT)).
Proof.
  intros Hi Hg Hne Hu.
  rewrite (getDCAAccounts_first_answer w allAccounts Hi Hg Hne).
  rewrite (buildPollData_nothing _ _ Hu).
  eexists. split; [reflexivity|]. cbn [PollData.positions PollData.summary].
  split; [reflexivity|]. now simplify_map_eq.
Qed.

Lemma poll_of_untracked_accounts_witness :
  exists data,
    getDCAAccounts untracked_world = (Ok data, World.called untracked_world) /\
    PollData.positions data = [] /\
    PollData.summary data !! "LOGOS" = Some (no_orders 0x1p-10%float) /\
    PollData.summary data !! "CHAOS" = Some (no_orders 0x1p-10%float).
Proof.
  apply (poll_of_untracked_accounts untracked_world [other_account]);
    [reflexivity | reflexivity | discriminate |].
  constructor; [reflexivity | constructor].
Defined.

(** ** The state of the dashboard *)

Definition fetch_failed : string := "Failed to fetch data. Retrying...".

(** A poll against this world throws. *)
Definition fails (w : World.t) : Prop := is_ok (fst (getDCAAccounts w)) = false.

(** An event that publishes no data: the start of a poll, or the
    settlement of one that throws. *)
Definition no_return (ev : Dashboard.event) : Prop :=
  match ev with
  | Dashboard.Start => True
  | Dashboard.Settle w => fails w
  end.

Definition is_start (ev : Dashboard.event) : bool :=
  match ev with Dashboard.Start => true | Dashboard.Settle _ => false end.

Definition is_settle (ev : Dashboard.event) : bool := negb (is_start ev).

(** The error shown after events none of which publishes data: set by the
    settlement of a poll that throws, cleared by the start of a poll. *)
Definition error_after (events : list Dashboard.event) (before : option string)
  : option string :=
  match last events with
  | Some Dashboard.Start => None
  | Some (Dashboard.Settle _) => Some fetch_failed
  | None => before
  end.

Section DashboardState.

Lemma run_snoc st events ev :
  Dashboard.run st (events ++ [ev]) = Dashboard.step (Dashboard.run st events) ev.
Proof. unfold Dashboard.run. now rewrite fold_left_app. Qed.

Lemma run_app st events1 events2 :
  Dashboard.run st (events1 ++ events2)
  = Dashboard.run (Dashboard.run st events1) events2.
Proof. unfold Dashboard.run. apply fold_left_app. Qed.

(** A poll from its start to its settlement, with nothing in between. *)
Lemma fetchData_run st w :
  fst (Dashboard.fetchData st w)
  = Dashboard.run st [Dashboard.Start; Dashboard.Settle w].
Proof.
  unfold Dashboard.fetchData, Dashboard.run. cbn [fold_left Dashboard.step].
  now destruct (getDCAAccounts w).
Qed.

(** What events that publish no data leave of a state. *)
Lemma run_no_return st events :
  Forall no_return events ->
  let st' := Dashboard.run st events in
  Dashboard.chartData st' = Dashboard.chartData st /\
  Dashboard.summaryData st' = Dashboard.summaryData st /\
  Dashboard.positions st' = Dashboard.positions st /\
  Dashboard.lastUpdate st' = Dashboard.lastUpdate st /\
  Dashboard.retries st'
  = repeat 2000 (length (List.filter is_settle events)) ++ Dashboard.retries st /\
  Dashboard.error st' = error_after events (Dashboard.error st) /\
  Dashboard.loading st' = existsb is_start events || Dashboard.loading st.
Proof.
  cbn zeta. induction events as [|ev events IH] using rev_ind; intros Hall.
  - cbn. auto 10.
  - apply Forall_app in Hall as [Hevents Hev]. inversion Hev as [|? ? Hf _]; subst.
    destruct (IH Hevents) as (Hc & Hs & Hp & Hl & Hr & _ & Hlo).
    rewrite run_snoc, List.filter_app, length_app, existsb_app.
    unfold error_after. rewrite last_snoc.
    destruct ev as [|w]; cbn [Dashboard.step].
    + cbn. rewrite Nat.add_0_r, orb_true_r. auto 10.
    + unfold no_return, fails in Hf.
      destruct (getDCAAccounts w) as [[data|e] w']; [discriminate Hf|].
      cbn. rewrite Hr, Hlo, orb_false_r, Nat.add_comm. cbn. auto 10.
Qed.

End DashboardState.

(** X9: the dashboard keeps the data of the last poll that returned,
    however the calls of [fetchData] overlap. After any events, the
    settlement of a poll that returns, and then starts of polls and
    settlements of polls that throw in any order, the chart data, the
    summary, the positions and the time of the last update are those of
    the poll that returned. [loading] is [true] exactly when a poll has
    started since; the error is that of the latest event: set by a poll
    that threw, cleared by a poll that started, and what it was before the
    poll returned when nothing happened since. *)
Theorem dashboard_keeps_last_success st events1 w events2 data w' :
  getDCAAccounts w = (Ok data, w') ->
  Forall no_return events2 ->
  let st' := Dashboard.run st (events1 ++ Dashboard.Settle w :: events2) in
  Dashboard.chartData st' = PollData.chartData data /\
  Dashboard.summaryData st' = PollData.summary data /\
  Dashboard.positions st' = PollData.positions data /\
  Dashboard.lastUpdate st' = World.now w' /\
  Dashboard.loading st' = existsb is_start events2 /\
  Dashboard.error st'
  = error_after events2 (Dashboard.error (Dashboard.run st events1)).
Proof.
  intros Hw Hall. cbn zeta.
  change (Dashboard.Settle w :: events2) with ([Dashboard.Settle w] ++ events2).
  rewrite app_assoc, run_app, run_snoc.
  destruct (run_no_return (Dashboard.step (Dashboard.run st events1) (Dashboard.Settle w))
              events2 Hall) as (Hc & Hs & Hp & Hl & _ & He & Hlo).
  rewrite Hc, Hs, Hp, Hl, He, Hlo. cbn [Dashboard.step]. rewrite Hw. cbn.
  rewrite orb_false_r. auto 10.
Qed.

Lemma dashboard_keeps_last_success_witness :
  exists data,
    getDCAAccounts listed_world = (Ok data, World.called listed_world) /\
    let st' := Dashboard.run (Dashboard.initial 0)
                 ([Dashboard.Start; Dashboard.Start]
                  ++ Dashboard.Settle listed_world :: [Dashboard.Settle failing_world]) in
    Dashboard.positions st' = PollData.positions data /\
    Dashboard.loading st' = false /\
    Dashboard.error st' = Some fetch_failed.
Proof.
  destruct listed_world_returns as [data Hd].
  exists data. split; [exact Hd|].
  assert (Hf : Forall no_return [Dashboard.Settle failing_world])
    by (repeat constructor).
  destruct (dashboard_keeps_last_success (Dashboard.initial 0)
              [Dashboard.Start; Dashboard.Start] listed_world
              [Dashboard.Settle failing_world] data _ Hd Hf)
    as (_ & _ & Hp & _ & Hlo & He).
  split; [exact Hp|]. split; [exact Hlo | exact He].
Defined.

(** X10: polls that throw change nothing of what is shown, however the
    calls of [fetchData] overlap. After starts of polls and settlements of
    polls that throw, in any order, the chart data, the summary, the
    positions and the time of the last update are what they were, and one
    retry of 2000 ms has been scheduled by each poll that threw. The error
    is that of the latest event, set by a poll that threw and cleared by
    a poll that started; [loading] is [true] once a poll has started. *)
Theorem dashboard_failures_keep_data st events :
  Forall no_return events ->
  let st' := Dashboard.run st events in
  Dashboard.chartData st' = Dashboard.chartData st /\
  Dashboard.summaryData st' = Dashboard.summaryData st /\
  Dashboard.positions st' = Dashboard.positions st /\
  Dashboard.lastUpdate st' = Dashboard.lastUpdate st /\
  Dashboard.retries st'
  = repeat 2000 (length (List.filter is_settle events)) ++ Dashboard.retries st /\
  Dashboard.error st' = error_after events (Dashboard.error st) /\
  Dashboard.loading st' = existsb is_start events || Dashboard.loading st.
Proof.
  cbn zeta. induction events as [|ev events IH] using rev_ind; intros Hall.
  - cbn. auto 10.
  - apply Forall_app in Hall as [Hevents Hev]. inversion Hev as [|? ? Hf _]; subst.
    destruct (IH Hevents) as (Hc & Hs & Hp & Hl & Hr & _ & Hlo).
    rewrite run_snoc, List.filter_app, length_app, existsb_app.
    unfold error_after. rewrite last_snoc.
    destruct ev as [|w]; cbn [Dashboard.step].
    + cbn. rewrite Nat.add_0_r, orb_true_r. auto 10.
    + unfold no_return, fails in Hf.
      destruct (getDCAAccounts w) as [[data|e] w']; [discriminate Hf|].
      cbn. rewrite Hr, Hlo, orb_false_r, Nat.add_comm. cbn. auto 10.
Qed.

Lemma dashboard_failures_keep_data_witness :
  let st' := Dashboard.run (Dashboard.initial 0)
               [Dashboard.Start; Dashboard.Settle failing_world;
                Dashboard.Start; Dashboard.Start; Dashboard.Settle failing_world;
                Dashboard.Settle failing_world; Dashboard.Start] in
  Dashboard.positions st' = [] /\
  Dashboard.retries st' = [2000; 2000; 2000] /\
  Dashboard.error st' = None /\
  Dashboard.loading st' = true.
Proof.
  assert (Hf : Forall no_return
                 [Dashboard.Start; Dashboard.Settle failing_world;
                  Dashboard.Start; Dashboard.Start; Dashboard.Settle failing_world;
                  Dashboard.Settle failing_world; Dashboard.Start])
    by (repeat constructor).
  destruct (dashboard_failures_keep_data (Dashboard.initial 0) _ Hf)
    as (_ & _ & Hp & _ & Hr & He & Hlo).
  split; [exact Hp|]. split; [exact Hr|]. split; [exact He | exact Hlo].
Defined.

(** ** What the converter accepts *)

(** X11: [convertDCAAccount] returns a Position exactly when its three
    lookups answer (the signatures of the account; its most recent
    signature and that transaction), the amounts it converts all fit 53
    bits (used, per cycle, deposited, deposited less withdrawn, frequency,
    next cycle, received, the limit of the direction, and what remains in
    the cycle) and the amount per cycle is not [0]. The price, the token
    and what the transaction holds play no part in it. *)
Theorem convertDCAAccount_accepts StringToNumber ObjectToNumber rpc
    account price token type :
  is_ok (fst (Async.convertDCAAccount StringToNumber ObjectToNumber rpc
                account price token type))
  = is_ok (getDCATransactions rpc (Account.publicKey account))
    && convertible account type
    && is_ok (recent_amounts StringToNumber ObjectToNumber rpc
                (Account.publicKey account)).
Proof.
  rewrite convertDCAAccount_result.
  destruct (getDCATransactions rpc (Account.publicKey account)) as [transactions|e];
    [|reflexivity].
  cbn [mbind result_bind is_ok andb].
  destruct (convertible account type) eqn:Hc.
  - destruct (convert_total account price token type None Hc) as [p0 ->].
    cbn [mbind result_bind].
    destruct (recent_amounts StringToNumber ObjectToNumber rpc
                (Account.publicKey account)) as [amounts|e]; [|reflexivity].
    cbn [mbind result_bind].
    destruct (convert_total account price token type amounts Hc) as [p ->]. reflexivity.
  - destruct (convertDCAAccount account price token type None) as [p|e] eqn:H;
      [|reflexivity].
    apply convert_Ok_convertible in H. congruence.
Qed.

(** ** The amounts of a Position *)

(** [usdcPaid || 0] of the parsed transaction, [0] without one. *)
Definition cycleUsed_of (amounts : option TxAmounts.t) : number :=
  match amounts with
  | Some a => JS.or_else (TxAmounts.usdcPaid a) 0
  | None => 0%float
  end.

(** The price the execution is valued at: what was received per unit
    used, or the current price when nothing was used. *)
Definition executionPrice_of (account : Account.t) (price : number) : number :=
  if JS.gt0 (JS.number_of_Z (Account.inUsed account))
  then (JS.number_of_Z (Account.outWithdrawn account)
        / JS.number_of_Z (Account.inUsed account))%float
  else price.

(** No payment was found in the most recent transaction: there is none,
    or its [usdcPaid] is [0] or [NaN]. *)
Definition no_payment (amounts : option TxAmounts.t) : Prop :=
  match amounts with
  | Some a => JS.truthy (TxAmounts.usdcPaid a) = false
  | None => True
  end.

Section ConvertedAmounts.

Import Account.
Local Abbreviation N := JS.number_of_Z.
Local Open Scope float_scope.

Lemma fits_nonneg z : (0 <= z < 2 ^ 53)%Z -> fits z = true.
Proof. unfold fits. intros H. apply Z.ltb_lt. lia. Qed.

(** The quotient and the remainder of bn.js, on amounts that are not
    negative. *)
Lemma BN_div_nonneg u a : (0 <= u)%Z -> (0 < a)%Z -> BN.div u a = Ok (u / a)%Z.
Proof.
  intros Hu Ha. unfold BN.div.
  destruct (Z.eqb_spec a 0) as [|_]; [lia|]. now rewrite Z.quot_div_nonneg by lia.
Qed.

Lemma BN_mod_nonneg u a : (0 <= u)%Z -> (0 < a)%Z -> BN.mod_ u a = Ok (u mod a)%Z.
Proof.
  intros Hu Ha. unfold BN.mod_.
  destruct (Z.eqb_spec a 0) as [|_]; [lia|]. now rewrite Z.rem_mod_nonneg by lia.
Qed.

Lemma cycles_agree_with_BN (d u a : Z) :
  (0 <= u < 2 ^ 53)%Z -> (0 < a < 2 ^ 53)%Z ->
  let c := cycles (N d) (N u) (N a) in
  (q ← BN.div u a; BN.toNumber q) = Ok (c_completedFullCycles c) /\
  (r ← BN.mod_ u a; BN.toNumber r) = Ok (JS.rem (N u) (N a)).
Proof.
  intros Hu Ha. cbn [cycles c_completedFullCycles].
  rewrite BN_div_nonneg, BN_mod_nonneg by lia. cbn [mbind result_bind].
  assert (Hq : (0 <= u / a <= u)%Z).
  { split; [apply Z.div_pos; lia|]. apply Z.div_le_upper_bound; nia. }
  pose proof (Z.mod_pos_bound u a ltac:(lia)) as Hr.
  rewrite !toNumber_fits by (apply fits_nonneg; lia).
  now rewrite Math_floor_div, rem_int by lia.
Qed.

Lemma convert_Ok_amounts account price token type amounts p :
  convertDCAAccount account price token type amounts = Ok p ->
  let perCycle := N (inAmountPerCycle account) / JS.pow10_6 in
  let c := cycles (N (inDeposited account)) (N (inUsed account))
                  (N (inAmountPerCycle account)) in
  Position.amountPerCycle p = perCycle /\
  Position.inputAmount p = perCycle /\
  Position.totalAmount p = N (inDeposited account - inWithdrawn account) / JS.pow10_6 /\
  Position.remainingCycles p = N (cycleFrequency account) /\
  Position.cycleFrequency p = N (cycleFrequency account) /\
  Position.targetPrice p = executionPrice_of account price /\
  Position.executionPrice p = executionPrice_of account price / JS.pow10_6 /\
  Position.remainingAmount p = c_remainingCycles c * perCycle /\
  Position.cycleProgress p =
    Some {| CycleProgress.total := perCycle;
            CycleProgress.used := cycleUsed_of amounts;
            CycleProgress.remaining := perCycle - cycleUsed_of amounts;
            CycleProgress.percentComplete := cycleUsed_of amounts / perCycle * 100 |}.
Proof.
  intros H. unfold convertDCAAccount in H.
  bind_inv H as used Hu. bind_inv H as perCycle Hp. bind_inv H as deposited Hd.
  apply toNumber_Ok in Hu as [_ ->], Hp as [_ ->], Hd as [_ ->].
  bind_inv H as total Ht. bind_inv H as frequency Hf. bind_inv H as nextCycle Hn.
  apply toNumber_Ok in Ht as [_ ->], Hf as [_ ->].
  bind_inv H as executionPrice He. bind_inv H as maxPrice Hmax.
  bind_inv H as minPrice Hmin. bind_inv H as r Hr.
  bind_inv H as raw Hraw. bind_inv H as division Hdiv.
  bind_inv H as d' Hd'. bind_inv H as o' Ho'. apply toNumber_Ok in Ho' as [Ho' _].
  bind_inv H as estimatedTokens Hest.
  assert (Hex : executionPrice = executionPrice_of account price).
  { unfold executionPrice_of. destruct (JS.gt0 (N (inUsed account))).
    - rewrite toNumber_fits in He by assumption. now injection He as <-.
    - now injection He as <-. }
  injection H as <-. cbn. rewrite Hex. auto 10.
Qed.

Lemma sub_zero_r (x : number) : x - 0 = x.
Proof.
  apply Prim2SF_inj. rewrite FloatAxioms.sub_spec.
  change (Prim2SF 0) with (S754_zero false).
  destruct (Prim2SF x) as [[]|[]| |[] m e]; reflexivity.
Qed.

Lemma zero_div_positive (x : number) m e :
  Prim2SF x = S754_finite false m e -> 0 / x = 0.
Proof.
  intros H. apply Prim2SF_inj. rewrite FloatAxioms.div_spec, H. reflexivity.
Qed.

Lemma scaled_amount_finite k :
  (0 < k < 2 ^ 53)%Z -> exists m e, Prim2SF (N k / JS.pow10_6) = S754_finite false m e.
Proof.
  intros Hk. pose proof (scaled_amount k ltac:(lia)) as Hf.
  pose proof (scaled_amount_positive k Hk) as Hp.
  destruct (Prim2SF (N k / JS.pow10_6)) as [[]|[]| |[] m e]; try contradiction; eauto.
Qed.

Lemma cycleUsed_no_payment amounts : no_payment amounts -> cycleUsed_of amounts = 0.
Proof.
  destruct amounts as [a|]; cbn; [|reflexivity].
  unfold JS.or_else. now intros ->.
Qed.

Lemma cycleProgress_unused account price token type amounts p :
  convertDCAAccount account price token type amounts = Ok p ->
  (0 < inAmountPerCycle account)%Z ->
  cycleUsed_of amounts = 0 ->
  Position.cycleProgress p =
    Some {| CycleProgress.total := Position.amountPerCycle p;
            CycleProgress.used := 0;
            CycleProgress.remaining := Position.amountPerCycle p;
            CycleProgress.percentComplete := 0 |}.
Proof.
  intros H Ha Hn.
  pose proof (convert_Ok _ _ _ _ _ _ H) as (_ & Hfa & _).
  apply fits_bound in Hfa.
  apply convert_Ok_amounts in H as (-> & _ & _ & _ & _ & _ & _ & _ & ->).
  rewrite Hn, sub_zero_r.
  destruct (scaled_amount_finite (inAmountPerCycle account) ltac:(lia)) as (m & e & Hx).
  rewrite (zero_div_positive _ m e Hx). reflexivity.
Qed.

End ConvertedAmounts.

(** X12: the number arithmetic of the cycle counts loses nothing against
    bn.js. For an account the converter accepts, with [used >= 0] and
    [amountPerCycle > 0], [Math.floor(used / perCycle)] on numbers is
    [inUsed.div(inAmountPerCycle).toNumber()], [used % perCycle] on
    numbers is [inUsed.mod(inAmountPerCycle).toNumber()], and the
    [completedCycles] of the Position is the integer quotient plus the
    integer remainder over the amount per cycle. *)
Theorem cycle_counts_exact account price token type amounts p :
  convertDCAAccount account price token type amounts = Ok p ->
  0 <= Account.inUsed account -> 0 < Account.inAmountPerCycle account ->
  let used := JS.number_of_Z (Account.inUsed account) in
  let perCycle := JS.number_of_Z (Account.inAmountPerCycle account) in
  (q ← BN.div (Account.inUsed account) (Account.inAmountPerCycle account); BN.toNumber q)
  = Ok (JS.Math_floor (used / perCycle)%float) /\
  (r ← BN.mod_ (Account.inUsed account) (Account.inAmountPerCycle account); BN.toNumber r)
  = Ok (JS.rem used perCycle) /\
  Position.completedCycles p
  = (JS.number_of_Z (Account.inUsed account / Account.inAmountPerCycle account)
     + JS.number_of_Z (Account.inUsed account mod Account.inAmountPerCycle account)
       / perCycle)%float.
Proof.
  intros H Hu Ha.
  apply convert_Ok in H as (Hfu & Hfa & _ & _ & _ & Hc & _).
  apply fits_bound in Hfu, Hfa.
  destruct (cycles_agree_with_BN (Account.inDeposited account) (Account.inUsed account)
              (Account.inAmountPerCycle account) ltac:(lia) ltac:(lia)) as [Hq Hr].
  split; [exact Hq|]. split; [exact Hr|].
  rewrite Hc. cbn [cycles c_completedFullCycles c_currentCycleUsed].
  now rewrite Math_floor_div, rem_int by lia.
Qed.

Lemma cycle_counts_exact_witness :
  (q ← BN.div 607037037 607037037; BN.toNumber q)
  = Ok (JS.Math_floor (JS.number_of_Z 607037037 / JS.number_of_Z 607037037)%float).
Proof.
  assert (Hp : exists p, convertDCAAccount scenario_account 1 "CHAOS" BUY None = Ok p)
    by (eexists; vm_compute; reflexivity).
  destruct Hp as [p Hp].
  destruct (cycle_counts_exact scenario_account 1 "CHAOS" BUY None p Hp) as (Hq & _);
    [cbn; lia | cbn; lia | exact Hq].
Defined.

(** X13: what remains in the current cycle is never zero. For an account
    the converter accepts, with [used >= 0] and [amountPerCycle > 0],
    [remainingInCycle > 0]; at a cycle boundary ([used] a multiple of
    [amountPerCycle]) it is the whole amount per cycle. *)
Theorem remainingInCycle_positive account price token type amounts p :
  convertDCAAccount account price token type amounts = Ok p ->
  0 <= Account.inUsed account -> 0 < Account.inAmountPerCycle account ->
  JS.gt0 (Position.remainingInCycle p) = true /\
  (Account.inUsed account mod Account.inAmountPerCycle account = 0 ->
   Position.remainingInCycle p = Position.amountPerCycle p).
Proof.
  intros H Hu Ha.
  pose proof (convert_Ok _ _ _ _ _ _ H) as (_ & Hfa & _ & _ & _ & _ & _ & Hr & _).
  apply fits_bound in Hfa.
  apply convert_Ok_amounts in H as (Hpc & _).
  rewrite Hr, Hpc, Z.rem_mod_nonneg by lia.
  pose proof (Z.mod_pos_bound (Account.inUsed account) (Account.inAmountPerCycle account) Ha)
    as Hm.
  split.
  - apply gt0_positive with (lo := (-105)%Z). apply scaled_amount_positive. lia.
  - intros ->. now rewrite Z.sub_0_r.
Qed.

Lemma remainingInCycle_positive_witness :
  exists p,
    convertDCAAccount scenario_account 1 "CHAOS" BUY None = Ok p /\
    JS.gt0 (Position.remainingInCycle p) = true /\
    Position.remainingInCycle p = Position.amountPerCycle p.
Proof.
  eexists.
  assert (Hp : convertDCAAccount scenario_account 1 "CHAOS" BUY None = Ok _)
    by (vm_compute; reflexivity).
  split; [exact Hp|].
  destruct (remainingInCycle_positive scenario_account 1 "CHAOS" BUY None _ Hp)
    as [Hg He]; [cbn; lia | cbn; lia |].
  split; [exact Hg | now apply He].
Defined.

(** X14: without a payment found in the most recent transaction (no
    parsed transaction, or a [usdcPaid] of [0] or [NaN]) the cycle
    progress of a Position with [amountPerCycle > 0] shows nothing used:
    [used = 0], [remaining = total = amountPerCycle] and
    [percentComplete = 0]. *)
Theorem cycleProgress_without_payment account price token type amounts p :
  convertDCAAccount account price token type amounts = Ok p ->
  0 < Account.inAmountPerCycle account ->
  no_payment amounts ->
  Position.cycleProgress p =
    Some {| CycleProgress.total := Position.amountPerCycle p;
            CycleProgress.used := 0;
            CycleProgress.remaining := Position.amountPerCycle p;
            CycleProgress.percentComplete := 0 |}.
Proof.
  intros H Ha Hn. apply (cycleProgress_unused account price token type amounts p H Ha).
  destruct amounts as [a|]; [|reflexivity].
  cbn in Hn |- *. unfold JS.or_else. now rewrite Hn.
Qed.

Lemma cycleProgress_without_payment_witness :
  exists p,
    convertDCAAccount scenario_account 1 "CHAOS" BUY None = Ok p /\
    Position.cycleProgress p =
      Some {| CycleProgress.total := Position.amountPerCycle p;
              CycleProgress.used := 0;
              CycleProgress.remaining := Position.amountPerCycle p;
              CycleProgress.percentComplete := 0 |}.
Proof.
  eexists.
  assert (Hp : convertDCAAccount scenario_account 1 "CHAOS" BUY None = Ok _)
    by (vm_compute; reflexivity).
  split; [exact Hp|].
  apply (cycleProgress_without_payment scenario_account 1 "CHAOS" BUY None _ Hp);
    [cbn; lia | exact I].
Defined.

(** An order of which nothing was used yet. *)
Definition fresh_account : Account.t :=
  with_amounts scenario_account 1000000000 0 0 607037037.

Section FreshOrder.

Import Account.
Local Abbreviation N := JS.number_of_Z.
Local Open Scope float_scope.

(** X15: an order of which nothing was used. For an account the converter
    accepts with [used = 0] and [amountPerCycle > 0]: no cycle is
    completed, the execution is valued at the current price (there is
    nothing to compute a price from), the whole first cycle remains, and
    the remaining amount is [totalCycles] times the amount per cycle. *)
Theorem fresh_order account price token type amounts p :
  convertDCAAccount account price token type amounts = Ok p ->
  inUsed account = 0%Z -> (0 < inAmountPerCycle account)%Z ->
  Position.completedCycles p = 0 /\
  Position.targetPrice p = price /\
  Position.executionPrice p = price / JS.pow10_6 /\
  Position.remainingInCycle p = Position.amountPerCycle p /\
  Position.remainingAmount p = Position.totalCycles p * Position.amountPerCycle p.
Proof.
  intros H Hu Ha.
  pose proof (convert_Ok _ _ _ _ _ _ H) as (_ & Hfa & _ & _ & Ht & Hc & _ & Hr & _).
  apply fits_bound in Hfa.
  apply convert_Ok_amounts in H as (Hpc & _ & _ & _ & _ & Htp & Hep & Hra & _).
  unfold executionPrice_of in Htp, Hep. rewrite Hu in *.
  change (JS.gt0 (N 0)) with false in Htp, Hep.
  rewrite Hc, Htp, Hep, Hr, Hra, Hpc, Ht.
  cbn [cycles c_totalCycles c_completedFullCycles c_currentCycleUsed c_remainingCycles].
  assert (H53 : (0 < 2 ^ 53)%Z) by reflexivity.
  rewrite Math_floor_div, rem_int by lia.
  rewrite Zdiv_0_l, Zmod_0_l, Z.rem_0_l, Z.sub_0_r by lia.
  assert (Hx : exists m e, Prim2SF (N (inAmountPerCycle account)) = S754_finite false m e).
  { rewrite number_of_Z_nonneg by lia.
    destruct (inAmountPerCycle account) as [|a|a]; try lia.
    cbn [SFint]. destruct (SFpos_eq a 0 (bitlen_le_53 a ltac:(lia))) as (m' & -> & _). eauto. }
  destruct Hx as (m & e & Hx).
  change (N 0) with 0. rewrite (zero_div_positive _ m e Hx), !sub_zero_r.
  repeat split; reflexivity.
Qed.

End FreshOrder.

Lemma fresh_order_witness :
  exists p,
    convertDCAAccount fresh_account 1 "CHAOS" BUY None = Ok p /\
    Position.completedCycles p = 0%float /\
    Position.targetPrice p = 1%float.
Proof.
  eexists.
  assert (Hp : convertDCAAccount fresh_account 1 "CHAOS" BUY None = Ok _)
    by (vm_compute; reflexivity).
  split; [exact Hp|].
  destruct (fresh_order fresh_account 1 "CHAOS" BUY None _ Hp) as (Hc & Ht & _);
    [reflexivity | cbn; lia |].
  split; [exact Hc | exact Ht].
Defined.

(** ** The totals the aggregator logs *)

(** A completed order whose balance does not fit 53 bits. *)
Definition huge_inactive_account : Account.t :=
  with_amounts scenario_account 9007199254740992 0 9007199254740992 1000000.

Section LoggedTotals.

Import Account.
Local Open Scope float_scope.

Lemma sellAmount_unfit acc :
  fits (inDeposited acc - inWithdrawn acc) = false -> sellAmount acc = Throw too_large.
Proof.
  unfold sellAmount, BN.toNumber, fits. now intros ->.
Qed.

(** A sum over a list that holds an account whose balance does not fit. *)
Lemma reduce_sellAmount_unfit (h : number -> number -> number) l init acc :
  In acc l -> fits (inDeposited acc - inWithdrawn acc) = false ->
  reduce (step sellAmount h) l init = Throw too_large.
Proof.
  intros Hin Hf.
  destruct (reduce (step sellAmount h) l init) as [r|e] eqn:H.
  - assert (Hok : is_ok (reduce (step sellAmount h) l init) = true) by now rewrite H.
    rewrite reduce_is_ok, forallb_forall in Hok. specialize (Hok acc Hin).
    now rewrite (sellAmount_unfit acc Hf) in Hok.
  - apply reduce_Throw in H as (a & _ & Ha). now apply sellAmount_Throw in Ha as ->.
Qed.

Lemma summarize_inactive_sell price acc :
  isOrderActive acc = false ->
  summarize {| Orders.buys := []; Orders.sells := [acc] |} price = Ok (no_orders price).
Proof.
  intros Hact. unfold summarize, buyVolume_of, sellVolume_of, buyVolumeUSDC_of,
    sellVolumeUSDC_of. cbn [Orders.buys Orders.sells List.filter]. rewrite Hact.
  reflexivity.
Qed.

(** X16: the two tokens are not treated alike. The totals logged before
    the summary is built run over every LOGOS sell, so a LOGOS sell whose
    balance [deposited - withdrawn] does not fit 53 bits makes the
    aggregator throw even when the order is inactive; the same account
    filed as the only CHAOS sell is never read, and the summary comes out
    without orders. *)
Theorem inactive_logos_sell_is_read accountsByToken prices acc :
  In acc (Orders.sells (ByToken.LOGOS accountsByToken)) ->
  isOrderActive acc = false ->
  fits (inDeposited acc - inWithdrawn acc) = false ->
  calculateSummaryFromRawAccounts accountsByToken prices = Throw too_large /\
  calculateSummaryFromRawAccounts
    {| ByToken.LOGOS := {| Orders.buys := []; Orders.sells := [] |};
       ByToken.CHAOS := {| Orders.buys := []; Orders.sells := [acc] |} |} prices
  = Ok (<["LOGOS" := no_orders (ByToken.LOGOS prices)]>
          (<["CHAOS" := no_orders (ByToken.CHAOS prices)]> ∅)).
Proof.
  intros Hin Hact Hf. split.
  - unfold calculateSummaryFromRawAccounts.
    change (fun sum acc0 => volume ← sellAmount acc0;
                            mret (sum + volume * ByToken.LOGOS prices))
      with (step sellAmount (fun sum volume => sum + volume * ByToken.LOGOS prices)).
    now rewrite (reduce_sellAmount_unfit _ _ 0 acc Hin Hf).
  - apply calculateSummary_entries; [reflexivity | reflexivity |].
    now apply summarize_inactive_sell.
Qed.

End LoggedTotals.

Lemma inactive_logos_sell_is_read_witness :
  calculateSummaryFromRawAccounts
    {| ByToken.LOGOS := {| Orders.buys := []; Orders.sells := [huge_inactive_account] |};
       ByToken.CHAOS := {| Orders.buys := []; Orders.sells := [] |} |} zero_prices
  = Throw too_large.
Proof.
  apply (inactive_logos_sell_is_read _ zero_prices huge_inactive_account);
    [now left | reflexivity | reflexivity].
Defined.

(** ** Whole volumes *)

Section WholeVolumes.

Local Abbreviation N := JS.number_of_Z.
Local Open Scope float_scope.

Lemma valid_mantissa_bound (x : number) s m e :
  Prim2SF x = S754_finite s m e -> (Zpos m < 2 ^ 53)%Z.
Proof.
  intros H. pose proof (Prim2SF_valid x) as Hv. rewrite H in Hv.
  cbn [SpecFloat.valid_binary] in Hv. unfold bounded, canonical_mantissa in Hv.
  apply andb_true_iff in Hv as [Hc _]. apply Z.eqb_eq in Hc.
  rewrite fexp64_eq in Hc.
  assert (Hd : (bitlen m <= 53)%Z) by (unfold bitlen; lia).
  pose proof (bitlen_bounds m) as [_ Hu].
  assert ((2 ^ bitlen m <= 2 ^ 53)%Z) by (apply Z.pow_le_mono_r; lia). lia.
Qed.

(** Rounding half up an integer scaled by [2^k]. *)
Lemma half_up_exact (p k : Z) :
  (0 <= k)%Z -> (Z.shiftr (2 * (p * 2 ^ k) + Z.shiftl 1 k) (1 + k) = p)%Z.
Proof.
  intros Hk. rewrite Z.shiftr_div_pow2, Z.shiftl_mul_pow2 by lia.
  rewrite Z.pow_add_r by lia. change (2 ^ 1)%Z with 2%Z.
  assert (HW : (0 < 2 ^ k)%Z) by (apply Z.pow_pos_nonneg; lia).
  replace (2 * (p * 2 ^ k) + 1 * 2 ^ k)%Z with ((2 * p + 1) * 2 ^ k)%Z by ring.
  rewrite Z.div_mul_cancel_r by lia.
  symmetry. apply Z.div_unique with (r := 1%Z); lia.
Qed.

Lemma half_up_bound (m k : Z) :
  (Z.abs m < 2 ^ 53)%Z -> (1 <= k)%Z ->
  (Z.abs (Z.shiftr (2 * m + Z.shiftl 1 k) (1 + k)) < 2 ^ 53)%Z.
Proof.
  intros Hm Hk. rewrite Z.shiftr_div_pow2, Z.shiftl_mul_pow2 by lia.
  rewrite Z.pow_add_r by lia. change (2 ^ 1)%Z with 2%Z.
  assert (HW : (2 <= 2 ^ k)%Z).
  { change 2%Z with (2 ^ 1)%Z at 1. apply Z.pow_le_mono_r; lia. }
  assert (HM : (0 < 2 ^ 53)%Z) by reflexivity.
  revert Hm HW HM. generalize (2 ^ 53)%Z (2 ^ k)%Z. intros M W Hm HW HM.
  assert (Hup : ((2 * m + 1 * W) / (2 * W) < M)%Z)
    by (apply Z.div_lt_upper_bound; nia).
  assert (Hlo : (- M + 1 <= (2 * m + 1 * W) / (2 * W))%Z)
    by (apply Z.div_le_lower_bound; nia).
  lia.
Qed.

(** [Math.round] leaves an integer below [2^53] unchanged. *)
Lemma Math_round_int z : (Z.abs z < 2 ^ 53)%Z -> JS.Math_round (N z) = N z.
Proof.
  intros Hz. destruct z as [|p|p].
  - reflexivity.
  - assert (Hp : (0 <= Zpos p < 2 ^ 53)%Z) by lia.
    pose proof (number_of_Z_nonneg (Zpos p) Hp) as Hx. cbn [SFint] in Hx.
    destruct (SFpos_eq p 0 (bitlen_le_53 p ltac:(lia))) as (m & Hm & Hv & _).
    rewrite Hm in Hx. unfold JS.Math_round. rewrite Hx.
    pose proof (bitlen_le_53 p ltac:(lia)) as Hd.
    destruct (Z.leb_spec 0 (bitlen p + 0 - 53)) as [|He]; [reflexivity|].
    cbn [cond_Zopp]. rewrite Hv.
    replace (- (bitlen p + 0 - 53))%Z with (53 - bitlen p)%Z by lia.
    replace (1 - (bitlen p + 0 - 53))%Z with (1 + (53 - bitlen p))%Z by lia.
    rewrite half_up_exact by lia. reflexivity.
  - assert (Hp : (0 < Zpos p < 2 ^ 53)%Z) by lia.
    change (Zneg p) with (- Zpos p)%Z. rewrite (number_of_Z_neg (Zpos p) Hp).
    pose proof (number_of_Z_nonneg (Zpos p) ltac:(lia)) as Hx. cbn [SFint] in Hx.
    destruct (SFpos_eq p 0 (bitlen_le_53 p ltac:(lia))) as (m & Hm & Hv & _).
    rewrite Hm in Hx. unfold JS.Math_round.
    rewrite FloatAxioms.opp_spec, Hx. cbn [SFopp negb].
    pose proof (bitlen_le_53 p ltac:(lia)) as Hd.
    destruct (Z.leb_spec 0 (bitlen p + 0 - 53)) as [|He]; [reflexivity|].
    cbn [cond_Zopp]. change (Zneg m) with (- Zpos m)%Z. rewrite Hv.
    replace (- (bitlen p + 0 - 53))%Z with (53 - bitlen p)%Z by lia.
    replace (1 - (bitlen p + 0 - 53))%Z with (1 + (53 - bitlen p))%Z by lia.
    replace (2 * - (Zpos p * 2 ^ (53 - bitlen p)))%Z
      with (2 * (- Zpos p * 2 ^ (53 - bitlen p)))%Z by ring.
    rewrite half_up_exact by lia. cbn [Z.eqb Z.opp].
    now rewrite <- (number_of_Z_neg (Zpos p) Hp).
Qed.

(** [Math.round] is idempotent: what it returns is a whole number, a
    zero, or not finite. *)
Lemma Math_round_idem (x : number) :
  JS.Math_round (JS.Math_round x) = JS.Math_round x.
Proof.
  assert (Hsame : JS.Math_round x = x -> JS.Math_round (JS.Math_round x) = JS.Math_round x)
    by (intros H; now rewrite !H).
  destruct (Prim2SF x) as [s|s| |s m e] eqn:Hx;
    try (apply Hsame; unfold JS.Math_round; now rewrite Hx).
  destruct (Z.leb_spec 0 e) as [He | He].
  - apply Hsame. unfold JS.Math_round. rewrite Hx.
    now replace (0 <=? e)%Z with true by (symmetry; apply Z.leb_le; lia).
  - set (z := Z.shiftr (2 * cond_Zopp s (Zpos m) + Z.shiftl 1 (- e)) (1 - e)).
    assert (Hr : JS.Math_round x =
                 if (z =? 0)%Z
                 then (if s then PrimFloat.neg_zero else PrimFloat.zero)
                 else N z).
    { unfold JS.Math_round. rewrite Hx.
      now replace (0 <=? e)%Z with false by (symmetry; apply Z.leb_gt; lia). }
    rewrite Hr.
    destruct (Z.eqb_spec z 0) as [_ | Hz]; [now destruct s|].
    apply Math_round_int. subst z.
    replace (1 - e)%Z with (1 + - e)%Z by lia.
    apply half_up_bound; [|lia].
    pose proof (valid_mantissa_bound x s m e Hx). destruct s; cbn [cond_Zopp]; lia.
Qed.

Lemma rounded_total (m : result number) (v : number) :
  (total ← m; mret (JS.Math_round total)) = Ok v -> JS.Math_round v = v.
Proof.
  intros H. bind_inv H as total Ht. injection H as <-. apply Math_round_idem.
Qed.

End WholeVolumes.

(** X17: the aggregator rounds inside. The [buyVolume], [buyVolumeUSDC]
    and [sellVolumeUSDC] of every entry of a summary are values that
    [Math.round] leaves unchanged: whole numbers, or not finite. *)
Theorem summary_volumes_whole accountsByToken prices summary token s :
  calculateSummaryFromRawAccounts accountsByToken prices = Ok summary ->
  summary !! token = Some s ->
  JS.Math_round (TokenSummary.buyVolume s) = TokenSummary.buyVolume s /\
  JS.Math_round (TokenSummary.buyVolumeUSDC s) = TokenSummary.buyVolumeUSDC s /\
  JS.Math_round (TokenSummary.sellVolumeUSDC s) = TokenSummary.sellVolumeUSDC s.
Proof.
  intros H Hs.
  apply calculateSummary_Ok in H as (logos & chaos & Hl & Hc & ->).
  assert (Hone : forall orders price s0,
            summarize orders price = Ok s0 ->
            JS.Math_round (TokenSummary.buyVolume s0) = TokenSummary.buyVolume s0 /\
            JS.Math_round (TokenSummary.buyVolumeUSDC s0) = TokenSummary.buyVolumeUSDC s0 /\
            JS.Math_round (TokenSummary.sellVolumeUSDC s0) = TokenSummary.sellVolumeUSDC s0).
  { intros orders price s0 H0.
    apply summarize_Ok in H0 as (Hbv & _ & Hbu & Hsu & _).
    unfold buyVolume_of in Hbv. unfold buyVolumeUSDC_of in Hbu.
    unfold sellVolumeUSDC_of in Hsu.
    split; [|split]; eapply rounded_total; eassumption. }
  apply lookup_insert_Some in Hs as [[_ <-] | [_ Hs]]; [now apply (Hone _ _ _ Hl)|].
  apply lookup_insert_Some in Hs as [[_ <-] | [_ Hs]]; [now apply (Hone _ _ _ Hc)|].
  now rewrite lookup_empty in Hs.
Qed.

Lemma summary_volumes_whole_witness :
  exists summary s,
    calculateSummaryFromRawAccounts zero_price_accounts zero_prices = Ok summary /\
    summary !! "CHAOS" = Some s /\
    JS.Math_round (TokenSummary.buyVolumeUSDC s) = TokenSummary.buyVolumeUSDC s.
Proof.
  eexists. eexists.
  assert (Hs : calculateSummaryFromRawAccounts zero_price_accounts zero_prices = Ok _)
    by (apply calculateSummary_entries; [reflexivity | |]; vm_compute; reflexivity).
  split; [exact Hs|].
  match goal with
  | |- ?m !! _ = Some ?s /\ _ => assert (Hl : m !! "CHAOS" = Some s)
  end.
  { rewrite lookup_insert_ne by done. apply lookup_insert_eq. }
  split; [exact Hl|].
  now destruct (summary_volumes_whole zero_price_accounts zero_prices _ "CHAOS" _ Hs Hl)
    as (_ & Hu & _).
Defined.

(** ** Prices and transactions read from responses *)

(** [data?.data?.[mint]?.price] *)
Definition quoted (data : Json.t) (mint : string) : Json.value :=
  Json.get_opt (Json.get_opt (Json.get_opt (Some data) "data") mint) "price".

(** [tx.result?.meta?.innerInstructions] *)
Definition inner_instructions (tx : Json.t) : Json.value :=
  Json.get_opt (Json.get_opt (Json.get_opt (Some tx) "result") "meta") "innerInstructions".

(** The price API gives no price for [mint]: the request fails, or the
    body holds no truthy [data[mint].price]. *)
Definition unquoted (api : string -> result Json.t) (mint : string) : Prop :=
  match api mint with
  | Ok data => Json.truthy (quoted data mint) = false
  | Throw _ => True
  end.

(** A price API that is down, and a body without the mint. *)
Definition api_down : string -> result Json.t :=
  fun _ => Throw (JS.JsError "Failed to fetch").

Definition api_empty : string -> result Json.t :=
  fun _ => Ok (Json.Obj [("data", Json.Obj [])]).

(** A transaction without inner instructions, and an account without
    signatures. *)
Definition tx_without_transfers : Json.t :=
  Json.Obj [("result", Json.Obj [("meta", Json.Obj [("innerInstructions", Json.Arr [])])])].

Definition no_signatures : Json.t := Json.Obj [("result", Json.Arr [])].

Section ResponseFacts.

Local Open Scope float_scope.

Variable StringToNumber : string -> number.
Variable ObjectToNumber : Json.t -> result number.

Lemma or_else_falsy_value (v : Json.value) (d : Json.t) :
  Json.truthy v = false -> Json.or_else v d = d.
Proof. destruct v as [j|]; [|reflexivity]. cbn [Json.or_else]. now intros ->. Qed.

Lemma get_Ok_opt (v : Json.value) (key : string) (r : Json.value) :
  Json.get v key = Ok r -> r = Json.get_opt v key.
Proof. destruct v as [[]|]; cbn; intros [= <-]; reflexivity. Qed.

Lemma getCurrentPrice_unquoted api mint :
  unquoted api mint ->
  Quote.price (getCurrentPrice StringToNumber ObjectToNumber api mint) = 0.
Proof.
  unfold unquoted, getCurrentPrice. destruct (api mint) as [data|e]; [|reflexivity].
  cbn [mbind result_bind]. intros Hq.
  destruct data as [| | | | |entries]; try reflexivity.
  cbn [Json.get mbind result_bind]. unfold quoted in Hq. cbn [Json.get_opt] in Hq.
  now rewrite (or_else_falsy_value _ _ Hq).
Qed.

(** The prices a world quotes are those of [getCurrentPrice]. *)
Definition quotes_from (api : string -> result Json.t) (w : World.t) : Prop :=
  forall mint,
    World.quote w mint = Quote.price (getCurrentPrice StringToNumber ObjectToNumber api mint).

Lemma filter_length_In {A : Type} (p : A -> bool) (l : list A) :
  length (List.filter p l) <> 0%nat -> exists a, In a l /\ p a = true.
Proof.
  destruct (List.filter p l) as [|a l'] eqn:H; [contradiction|]. intros _.
  exists a. apply filter_In. rewrite H. now left.
Qed.

Lemma findM_None {A : Type} (f : A -> result bool) (l : list A) :
  (forall a, In a l -> f a = Ok false) -> findM f l = Ok None.
Proof.
  induction l as [|a l IH]; intros H; [reflexivity|]. cbn [findM].
  rewrite (H a) by now left. cbn. apply IH. intros a' Ha'. apply H. now right.
Qed.

Lemma transfers_of_array tx ts :
  transfers_of tx = Ok ts -> exists inners, inner_instructions tx = Some (Json.Arr inners).
Proof.
  unfold transfers_of, inner_instructions. intros H.
  bind_inv H as result Hr. bind_inv H as meta Hm. bind_inv H as inner Hi.
  bind_inv H as instructions Hf.
  apply get_Ok_opt in Hr as ->, Hm as ->, Hi as ->.
  unfold flatMap_instructions in Hf.
  destruct (Json.get_opt _ "innerInstructions") as [[]|]; try discriminate Hf. eauto.
Qed.

Lemma pays_usdc_defined t amount :
  amount_of t = Ok amount -> exists b, pays_usdc t = Ok b.
Proof.
  unfold amount_of, pays_usdc. intros H.
  bind_inv H as parsed Hp. bind_inv H as info Hi. rewrite Hp. cbn [mbind result_bind].
  rewrite Hi. cbn [mbind result_bind].
  destruct info as [[]|]; try discriminate H; cbn; eauto.
Qed.

Lemma parse_no_usdc tx :
  (forall ts t, transfers_of tx = Ok ts -> In t ts -> pays_usdc t <> Ok true) ->
  no_payment (parseTransactionAmounts StringToNumber ObjectToNumber tx).
Proof.
  intros H. unfold parseTransactionAmounts.
  destruct (transfers_of tx) as [ts|e] eqn:Ht; [|exact I].
  specialize (H ts). cbn [mbind result_bind].
  destruct (mapM _ ts) as [amounts|e] eqn:Hm; [|exact I]. cbn [mbind result_bind].
  rewrite findM_None; [cbn; reflexivity|].
  intros t Hin. apply mapM_Ok_Forall2 in Hm.
  destruct (Forall2_to _ _ _ t Hm Hin) as (x & _ & Hx).
  assert (Ha : exists amount, amount_of t = Ok amount).
  { destruct (amount_of t) as [amount|e]; [eauto | discriminate Hx]. }
  destruct Ha as [amount Ha]. destruct (pays_usdc_defined t amount Ha) as [[] Hb]; [|exact Hb].
  now apply H in Hb.
Qed.

(** X18: [getCurrentPrice] answers every failure with a price of [0].
    When the request fails, the body cannot be read, or the body holds no
    truthy [data[mint].price] (no [data], no entry for the mint, a price
    that is missing, [null], [0], [NaN] or the empty string), it returns
    [{ price: 0, mint }] and throws nothing. *)
Theorem getCurrentPrice_defaults_to_zero api mint :
  unquoted api mint ->
  getCurrentPrice StringToNumber ObjectToNumber api mint
  = {| Quote.price := 0; Quote.mint := mint |}.
Proof.
  unfold unquoted, getCurrentPrice. destruct (api mint) as [data|e]; [|reflexivity].
  cbn [mbind result_bind]. intros Hq.
  destruct (Json.get (Some data) "data") as [entries|e] eqn:Hd; [|reflexivity].
  apply get_Ok_opt in Hd as ->. cbn [mbind result_bind].
  fold (quoted data mint). rewrite (or_else_falsy_value _ _ Hq). reflexivity.
Qed.

(** X19: a poll survives the loss of the prices, and shows it as an
    infinite volume. When the price API gives no price, a poll that
    returns carries a summary with [price = 0] for each token, and for
    every token with at least one BUY order a [buyVolume] that is
    [Infinity] or [NaN]. *)
Theorem poll_without_prices api w data w' token s :
  quotes_from api w ->
  (forall mint, unquoted api mint) ->
  getDCAAccounts w = (Ok data, w') ->
  PollData.summary data !! token = Some s ->
  TokenSummary.price s = 0 /\
  (TokenSummary.buyOrders s <> 0%nat -> JS.finite (TokenSummary.buyVolume s) = false).
Proof.
  intros Hq Hapi H Hs.
  pose proof (getDCAAccounts_Ok_world _ _ _ H) as (_ & _ & Hqw & _).
  apply getDCAAccounts_positions in H
    as (k & allAccounts & p1 & p2 & p3 & p4 & _ & Hsum & _).
  rewrite Hqw, !Hq, !getCurrentPrice_unquoted in Hsum by apply Hapi.
  apply calculateSummary_Ok in Hsum as (logos & chaos & Hl & Hc & Hsum).
  rewrite Hsum in Hs. cbn [ByToken.LOGOS ByToken.CHAOS] in Hl, Hc.
  assert (Hone : forall orders s0,
            summarize orders 0 = Ok s0 ->
            TokenSummary.price s0 = 0 /\
            (TokenSummary.buyOrders s0 <> 0%nat ->
             JS.finite (TokenSummary.buyVolume s0) = false)).
  { intros orders s0 H0. apply summarize_Ok in H0 as (Hbv & _ & _ & _ & Hbo & _ & Hp).
    split; [exact Hp|]. rewrite Hbo. intros Hn.
    apply filter_length_In in Hn as (acc & Hin & Hact).
    now apply (buyVolume_zero_price _ 0 _ acc) in Hbv. }
  apply lookup_insert_Some in Hs as [[_ <-] | [_ Hs]]; [now apply (Hone _ _ Hl)|].
  apply lookup_insert_Some in Hs as [[_ <-] | [_ Hs]]; [now apply (Hone _ _ Hc)|].
  now rewrite lookup_empty in Hs.
Qed.

(** X20: [parseTransactionAmounts] returns [null] for every response
    without an array at [result.meta.innerInstructions]: an error
    response of the node, a transaction that was not found ([result] is
    [null]), a missing [meta]. *)
Theorem parseTransactionAmounts_null tx :
  (forall inners, inner_instructions tx <> Some (Json.Arr inners)) ->
  parseTransactionAmounts StringToNumber ObjectToNumber tx = None.
Proof.
  intros H. unfold parseTransactionAmounts.
  destruct (transfers_of tx) as [ts|e] eqn:Ht; [|reflexivity].
  apply transfers_of_array in Ht as [inners Hi]. now apply H in Hi.
Qed.

(** X21: a transaction without any token transfer is not refused. When
    the inner instructions hold no transfer, [parseTransactionAmounts]
    returns amounts, with [chaosReceived = -Infinity] ([Math.max] of
    nothing) and [usdcPaid = NaN]. *)
Theorem parseTransactionAmounts_no_transfer tx :
  transfers_of tx = Ok [] ->
  parseTransactionAmounts StringToNumber ObjectToNumber tx
  = Some {| TxAmounts.chaosReceived := PrimFloat.neg_infinity;
            TxAmounts.usdcPaid := PrimFloat.nan |}.
Proof.
  intros H. unfold parseTransactionAmounts. rewrite H. reflexivity.
Qed.

(** X22: a transaction that pays nothing to the USDC account leaves the
    cycle untouched. When no transfer of the most recent transaction goes
    to the USDC account (or the transaction cannot be parsed), the
    Position converted with its amounts, for [amountPerCycle > 0], has a
    cycle progress with [used = 0], [remaining = total = amountPerCycle]
    and [percentComplete = 0]. *)
Theorem cycleProgress_without_usdc_transfer tx account price token type p :
  (forall ts t, transfers_of tx = Ok ts -> In t ts -> pays_usdc t <> Ok true) ->
  convertDCAAccount account price token type
    (parseTransactionAmounts StringToNumber ObjectToNumber tx) = Ok p ->
  (0 < Account.inAmountPerCycle account)%Z ->
  Position.cycleProgress p =
    Some {| CycleProgress.total := Position.amountPerCycle p;
            CycleProgress.used := 0;
            CycleProgress.remaining := Position.amountPerCycle p;
            CycleProgress.percentComplete := 0 |}.
Proof.
  intros Hno Hp Ha.
  apply (cycleProgress_unused account price token type _ p Hp Ha).
  apply cycleUsed_no_payment. now apply parse_no_usdc.
Qed.

(** X23: [getRecentTransactionForAccount] returns the empty string when
    the response holds no truthy [result[0].signature]: no [result], an
    empty list of signatures, an entry without signature. *)
Theorem getRecentTransactionForAccount_none rpc accountKey sigData :
  rpc accountKey = Ok sigData -> sigData <> Json.Null ->
  Json.truthy (Json.get_opt (Json.first (Json.get_opt (Some sigData) "result")) "signature")
  = false ->
  getRecentTransactionForAccount rpc accountKey = Ok (Json.Str "").
Proof.
  intros Hr Hn Hs. unfold getRecentTransactionForAccount. rewrite Hr. cbn [mbind result_bind].
  destruct (Json.get (Some sigData) "result") as [result|e] eqn:Hg.
  - apply get_Ok_opt in Hg as ->. cbn [mbind result_bind mret result_ret].
    now rewrite or_else_falsy_value.
  - destruct sigData; try discriminate Hg. contradiction.
Qed.

End ResponseFacts.

(** A world that quotes what [getCurrentPrice] reads from a price API
    that is down. *)
Definition offline_world : World.t :=
  world_of (Ok [scenario_account; swap_account])
    (fun mint => Quote.price (getCurrentPrice nan_of_string nan_of_object api_down mint)).

Lemma offline_world_returns :
  exists data, getDCAAccounts offline_world = (Ok data, World.called offline_world).
Proof.
  apply (getDCAAccounts_total offline_world [scenario_account; swap_account]);
    [reflexivity | reflexivity | discriminate | reflexivity].
Defined.

Lemma getCurrentPrice_defaults_to_zero_witness :
  getCurrentPrice nan_of_string nan_of_object api_empty CHAOS_MINT
  = {| Quote.price := 0; Quote.mint := CHAOS_MINT |}.
Proof.
  apply (getCurrentPrice_defaults_to_zero _ _ api_empty CHAOS_MINT). reflexivity.
Defined.

Lemma poll_without_prices_witness :
  exists data s,
    getDCAAccounts offline_world = (Ok data, World.called offline_world) /\
    PollData.summary data !! "CHAOS" = Some s /\
    TokenSummary.price s = 0%float.
Proof.
  destruct offline_world_returns as [data Hd].
  destruct (getDCAAccounts_entries _ _ _ Hd) as (logos & chaos & _ & Hc).
  exists data, chaos. split; [exact Hd|]. split; [exact Hc|].
  destruct (poll_without_prices nan_of_string nan_of_object
              api_down offline_world data (World.called offline_world) "CHAOS" chaos)
    as [Hp _];
    [intros mint; reflexivity | intros mint; exact I | exact Hd | exact Hc | exact Hp].
Defined.

Lemma parseTransactionAmounts_null_witness :
  parseTransactionAmounts nan_of_string nan_of_object rpc_error
  = None.
Proof.
  apply (parseTransactionAmounts_null _ _ rpc_error). intros inners. discriminate.
Defined.

Lemma parseTransactionAmounts_no_transfer_witness :
  parseTransactionAmounts nan_of_string nan_of_object
    tx_without_transfers
  = Some {| TxAmounts.chaosReceived := PrimFloat.neg_infinity;
            TxAmounts.usdcPaid := PrimFloat.nan |}.
Proof.
  apply (parseTransactionAmounts_no_transfer _ _ tx_without_transfers). reflexivity.
Defined.

Lemma cycleProgress_without_usdc_transfer_witness :
  exists p,
    convertDCAAccount scenario_account 1 "CHAOS" BUY
      (parseTransactionAmounts nan_of_string nan_of_object
         tx_without_transfers) = Ok p /\
    Position.cycleProgress p =
      Some {| CycleProgress.total := Position.amountPerCycle p;
              CycleProgress.used := 0;
              CycleProgress.remaining := Position.amountPerCycle p;
              CycleProgress.percentComplete := 0 |}.
Proof.
  eexists.
  assert (Hp : convertDCAAccount scenario_account 1 "CHAOS" BUY
                 (parseTransactionAmounts nan_of_string nan_of_object tx_without_transfers) = Ok _)
    by (vm_compute; reflexivity).
  split; [exact Hp|].
  apply (cycleProgress_without_usdc_transfer nan_of_string nan_of_object
           tx_without_transfers scenario_account 1 "CHAOS" BUY _); [| exact Hp | cbn; lia].
  intros ts t [= <-] [].
Defined.

Lemma getRecentTransactionForAccount_none_witness :
  getRecentTransactionForAccount (fun _ => Ok no_signatures)
    "9xQeWvG816bUx9EPjHmaT23yvVM2ZWbrrpZb9PusVFin"
  = Ok (Json.Str "").
Proof.
  apply (getRecentTransactionForAccount_none _ _ no_signatures);
    [reflexivity | discriminate | reflexivity].
Defined.

(** ** The chart of a token *)

(** The values of the lines of a chart, by label. *)
Definition lines (chart : Chart.t) : list (string * list number) :=
  List.map (fun d => (Chart.label d, Chart.data d)) (Chart.datasets chart).

(** X24: the chart of a token after a poll that returned has one point:
    one label, the local time of the poll, and on the two lines the
    [buyVolume] and the [sellVolume] of the token's summary. Before any
    poll returned it has no label and no line. *)
Theorem createChartData_one_point (LocalTZA : Z -> Z) st w data w' token s :
  getDCAAccounts w = (Ok data, w') ->
  PollData.summary data !! token = Some s ->
  let chart := createChartData LocalTZA (fst (Dashboard.fetchData st w)) token in
  Chart.labels chart = [timeLabel LocalTZA (World.now w')] /\
  lines chart = [("Buy Volume", [TokenSummary.buyVolume s]);
                 ("Sell Volume", [TokenSummary.sellVolume s])] /\
  forall now, createChartData LocalTZA (Dashboard.initial now) token = no_chart.
Proof.
  intros H Hs. cbn zeta. split; [|split].
  3: { intros now. unfold createChartData. cbn. now rewrite lookup_empty. }
  all: unfold createChartData, Dashboard.fetchData; rewrite H;
    cbn [fst Dashboard.chartData Dashboard.settled];
    apply getDCAAccounts_Ok in H as (k & allAccounts & _ & _ & Hb);
    apply buildPollData_Ok in Hb as (logos & chaos & Hsum & ->);
    rewrite Hsum in Hs;
    apply lookup_insert_Some in Hs as [[<- <-] | [Hne Hs]];
    [ rewrite lookup_insert_eq; reflexivity
    | apply lookup_insert_Some in Hs as [[<- <-] | [_ Hs]];
      [ rewrite lookup_insert_ne, lookup_insert_eq by exact Hne; reflexivity
      | now rewrite lookup_empty in Hs ] ].
Qed.

Lemma createChartData_one_point_witness :
  exists data s,
    getDCAAccounts listed_world = (Ok data, World.called listed_world) /\
    PollData.summary data !! "LOGOS" = Some s /\
    Chart.labels (createChartData (fun _ => 3600000)
                    (fst (Dashboard.fetchData (Dashboard.initial 0) listed_world)) "LOGOS")
    = ["23:13"].
Proof.
  destruct listed_world_returns as [data Hd].
  destruct (getDCAAccounts_entries _ _ _ Hd) as (logos & chaos & Hl & _).
  exists data, logos. split; [exact Hd|]. split; [exact Hl|].
  destruct (createChartData_one_point (fun _ => 3600000) (Dashboard.initial 0)
              listed_world data (World.called listed_world) "LOGOS" logos Hd Hl)
    as (Hlab & _).
  exact Hlab.
Defined.
